(** * CivitaiMediaHoarder: download, validate, retry, repair

    A shallow embedding of the download / validation / retry / repair engine
    (src/utilities/extension_handler.py, src/core/extension_tracker.py,
    src/utilities/video_validator.py, src/core/retry_queue.py,
    src/utilities/media.py, src/utilities/network.py,
    src/core/file_manager.py, src/core/downloader.py,
    src/core/repair_manager.py, with src/utilities/file_matcher.py and the
    item counters of src/core/processor.py and src/models/config.py) and the
    properties checked against it.

    Conventions.  Python [bytes] are [list byte]; [str] and [pathlib.Path]
    are [string] (POSIX flavour, already normalised); Python [int] is [Z];
    Python [float] is the kernel's binary64 [float]; a [dict] is a [gmap]
    (or an association list where the source iterates it in order).  The
    file system and the network are an explicit state that is passed through
    every operation; exceptions are values of [exn], and a call that may
    raise returns an [outcome].  What lies outside the repository is a
    parameter: the HTTP client ([requests_get]), [urlparse], [json.load],
    [json.dump], [Path.resolve], the clock, the lines typed at [input()],
    the probe tool behind [get_video_info]; so is the reading of a creator's
    ignore.txt.  Logging, the
    progress display and sleeping have no effect on what is modelled and
    are left out, with the arguments that only feed them. *)

From Stdlib Require Import ZArith Floats Uint63.
From Stdlib Require Import Strings.Byte Strings.Ascii.
From stdpp Require Import gmap strings list.

Open Scope Z_scope.

(** ** Python exceptions that the modelled code raises or handles *)

Inductive exn : Type :=
| KeyboardInterrupt
| OSError (msg : string)
| RuntimeError (msg : string)
| RequestException (msg : string)
| UserNotFoundError (username : string)
| PlainException (msg : string).

(** [isinstance(e, Exception)]: everything but the user interrupt, which
    derives from [BaseException] only. *)
Definition is_Exception (e : exn) : bool :=
  match e with KeyboardInterrupt => false | _ => true end.

(** [str(e)] *)
Definition exn_str (e : exn) : string :=
  match e with
  | KeyboardInterrupt => ""
  | OSError m | RuntimeError m | RequestException m | PlainException m => m
  | UserNotFoundError u => "User not found: " +:+ u
  end.

(** ** Outcomes of calls that may raise *)

Inductive outcome (A : Type) : Type :=
| Ok (a : A)
| Raise (e : exn).
Arguments Ok {A} a.
Arguments Raise {A} e.

(** [float(n)] for a small non-negative integer, as the configuration's
    delays and timeouts are. *)
Definition float_of_Z (n : Z) : float := PrimFloat.of_uint63 (Uint63.of_Z n).

(** ** Byte strings *)

#[global] Instance byte_eq_dec : EqDecision byte := Byte.byte_eq_dec.

Definition bytes_of (s : string) : list byte := String.list_byte_of_string s.

(** [h.startswith(p)] *)
Fixpoint startswith (h p : list byte) {struct p} : bool :=
  match p, h with
  | [], _ => true
  | _ :: _, [] => false
  | b :: p', a :: h' => bool_decide (a = b) && startswith h' p'
  end.

(** [h[i:j]] for [0 <= i <= j] *)
Definition slice (i j : nat) (h : list byte) : list byte :=
  take (j - i) (drop i h).

(** ** Strings and paths (pathlib, POSIX flavour) *)

Definition lower_ascii (c : ascii) : ascii :=
  let n := nat_of_ascii c in
  if (65 <=? n)%nat && (n <=? 90)%nat then ascii_of_nat (n + 32) else c.

(** [s.lower()] on ASCII text *)
Fixpoint lower (s : string) : string :=
  match s with
  | EmptyString => EmptyString
  | String c s' => String (lower_ascii c) (lower s')
  end.

Fixpoint string_rev_acc (s acc : string) : string :=
  match s with
  | EmptyString => acc
  | String c s' => string_rev_acc s' (String c acc)
  end.

Definition string_rev (s : string) : string := string_rev_acc s EmptyString.

(** Position of the first occurrence of [c] in [s]. *)
Fixpoint find_char (c : ascii) (s : string) : option nat :=
  match s with
  | EmptyString => None
  | String d s' =>
      if bool_decide (d = c) then Some O
      else match find_char c s' with Some i => Some (S i) | None => None end
  end.

(** [s.rfind(c)], [None] standing for -1. *)
Definition rfind_char (c : ascii) (s : string) : option nat :=
  match find_char c (string_rev s) with
  | Some i => Some (String.length s - 1 - i)%nat
  | None => None
  end.

Definition str_take (n : nat) (s : string) : string := String.substring 0 n s.
Definition str_drop (n : nat) (s : string) : string :=
  String.substring n (String.length s - n) s.

Definition slash : ascii := "/"%char.
Definition dot : ascii := "."%char.

(** [Path(p).name]: the final component. *)
Definition path_name (p : string) : string :=
  match rfind_char slash p with
  | Some i => str_drop (S i) p
  | None => p
  end.

(** [Path(p).parent] *)
Definition path_parent (p : string) : string :=
  match rfind_char slash p with
  | Some O => "/"
  | Some i => str_take i p
  | None => "."
  end.

(** [Path(p) / name] *)
Definition path_join (p name : string) : string := p +:+ "/" +:+ name.

(** [Path(p).suffix]: from the last dot of the name, when that dot is neither
    the first nor the last character of the name. *)
Definition path_suffix (p : string) : string :=
  let name := path_name p in
  match rfind_char dot name with
  | Some i =>
      if (0 <? i)%nat && (i <? String.length name - 1)%nat
      then str_drop i name else ""
  | None => ""
  end.

(** [Path(p).stem] *)
Definition path_stem (p : string) : string :=
  let name := path_name p in
  str_take (String.length name - String.length (path_suffix p)) name.

(** [Path(p).with_suffix(ext)].  The extensions passed by the modelled code
    come from the signature tables, so the [ValueError] that pathlib raises
    for a malformed suffix or an empty name does not arise. *)
Definition with_suffix (p ext : string) : string :=
  str_take (String.length p - String.length (path_suffix p)) p +:+ ext.

(** ** The file system *)

Inductive node : Type :=
| RegFile (data : list byte)
| Directory.

(** The nodes that exist, and the paths on which the operating system
    refuses an operation (the call raises [OSError]). *)
Record os_state : Type := mkOS {
  nodes : gmap string node;
  (** [open(p, 'rb')] raises [OSError] *)
  read_denied : gset string;
  (** creating or opening [p] for writing raises [OSError] *)
  write_denied : gset string;
  (** removing the entry [p] raises [OSError] *)
  unlink_denied : gset string;
  (** [f.write] on the file opened at [p] raises this exception *)
  write_fault : gmap string exn;
  (** another process holds the lock on [p] *)
  lock_busy : gset string
}.

Definition set_nodes (o : os_state) (m : gmap string node) : os_state :=
  {| nodes := m; read_denied := read_denied o;
     write_denied := write_denied o; unlink_denied := unlink_denied o;
     write_fault := write_fault o; lock_busy := lock_busy o |}.

(** [p.exists()] *)
Definition path_exists (o : os_state) (p : string) : bool :=
  bool_decide (is_Some (nodes o !! p)).

(** [p.is_file()] *)
Definition is_file (o : os_state) (p : string) : bool :=
  match nodes o !! p with Some (RegFile _) => true | _ => false end.

(** [p.is_dir()] *)
Definition is_dir (o : os_state) (p : string) : bool :=
  match nodes o !! p with Some Directory => true | _ => false end.

(** [open(p, 'rb').read(n)]: [None] when the call raises [OSError]. *)
Definition read_head (o : os_state) (p : string) (n : nat) : option (list byte) :=
  match nodes o !! p with
  | Some (RegFile data) =>
      if bool_decide (p ∈ read_denied o) then None else Some (take n data)
  | _ => None
  end.

(** [p.unlink()]: [None] when the call raises [OSError]. *)
Definition unlink (o : os_state) (p : string) : option os_state :=
  match nodes o !! p with
  | Some (RegFile _) =>
      if bool_decide (p ∈ unlink_denied o) then None
      else Some (set_nodes o (delete p (nodes o)))
  | _ => None
  end.

(** [p.rename(q)] (POSIX: an existing regular file at [q] is replaced):
    [None] when the call raises [OSError]. *)
Definition rename (o : os_state) (p q : string) : option os_state :=
  match nodes o !! p with
  | Some (RegFile data) =>
      if bool_decide (p ∈ unlink_denied o) || bool_decide (q ∈ write_denied o)
         || is_dir o q
      then None
      else Some (set_nodes o (<[q := RegFile data]> (delete p (nodes o))))
  | _ => None
  end.

(** ** Directories *)

(** [p], its parent, its grandparent, ... up to the root or the current
    directory, which always exist. *)
Fixpoint ancestors (fuel : nat) (p : string) : list string :=
  match fuel with
  | O => []
  | S fuel' =>
      if bool_decide (p = ".") || bool_decide (p = "/") || bool_decide (p = "")
      then []
      else p :: ancestors fuel' (path_parent p)
  end.

Definition mkdir_one (r : outcome os_state) (d : string) : outcome os_state :=
  match r with
  | Raise e => Raise e
  | Ok o =>
      match nodes o !! d with
      | Some Directory => Ok o
      | Some (RegFile _) => Raise (OSError "not a directory")
      | None =>
          if bool_decide (d ∈ write_denied o) then Raise (OSError "permission denied")
          else Ok (set_nodes o (<[d := Directory]> (nodes o)))
      end
  end.

(** [p.mkdir(parents=True, exist_ok=True)] *)
Definition mkdir_p (o : os_state) (p : string) : outcome os_state :=
  foldl mkdir_one (Ok o) (rev (ancestors (S (String.length p)) p)).

(** [p.iterdir()]: the entries whose parent is [p]. *)
Definition iterdir (o : os_state) (p : string) : list string :=
  filter (fun c => path_parent c = p ∧ c ≠ p) (map fst (map_to_list (nodes o))).

(** ** Format sniffer (src/utilities/extension_handler.py) *)

Module ExtensionHandler.

(** (media_type, format_name, extension) *)
Definition format : Type := string * string * string.

Definition SIGNATURES : list (list byte * format) :=
  [ ([xff; xd8; xff], ("image", "JPEG", ".jpg"));
    ((x89 :: bytes_of "PNG" ++ [x0d; x0a; x1a; x0a])%list, ("image", "PNG", ".png"));
    (bytes_of "GIF87a", ("image", "GIF", ".gif"));
    (bytes_of "GIF89a", ("image", "GIF", ".gif"));
    (bytes_of "BM", ("image", "BMP", ".bmp"));
    ((bytes_of "II*" ++ [x00])%list, ("image", "TIFF", ".tiff"));
    ((bytes_of "MM" ++ [x00] ++ bytes_of "*")%list, ("image", "TIFF", ".tiff"));
    ([x00; x00; x01; x00], ("image", "ICO", ".ico"));
    ([xff; xfb], ("audio", "MP3", ".mp3"));
    (bytes_of "ID3", ("audio", "MP3", ".mp3"));
    ([x1a; x45; xdf; xa3], ("video", "WebM/MKV", ".webm"));
    (bytes_of "ftypisom", ("video", "MP4", ".mp4"));
    (bytes_of "ftypmp42", ("video", "MP4", ".mp4"));
    ((bytes_of "ftypqt" ++ [x00])%list, ("video", "MOV", ".mov"));
    (bytes_of "flac", ("audio", "FLAC", ".flac"));
    (bytes_of "OggS", ("audio", "OGG", ".ogg"));
    (([x00; x00; x00] ++ bytes_of " ftypheic")%list, ("image", "HEIC", ".heic")) ].

Definition RIFF_SIGNATURES : list (list byte * format) :=
  [ (bytes_of "WAVE", ("audio", "WAV", ".wav"));
    (bytes_of "AVI ", ("video", "AVI", ".avi"));
    (bytes_of "WEBP", ("image", "WebP", ".webp")) ].

(** [d.get(k)] on a dict given by its items. *)
Fixpoint dict_get {V} (k : list byte) (d : list (list byte * V)) : option V :=
  match d with
  | [] => None
  | (k', v) :: d' => if bool_decide (k' = k) then Some v else dict_get k d'
  end.

(** The loop over [SIGNATURES]: first match wins. *)
Fixpoint match_signatures (header : list byte)
    (sigs : list (list byte * format)) : option format :=
  match sigs with
  | [] => None
  | (magic_sig, f) :: sigs' =>
      if startswith header magic_sig then Some f
      else match_signatures header sigs'
  end.

(** The RIFF branch: [Some] when it returns, [None] when it falls through. *)
Definition riff_check (header : list byte) : option format :=
  if startswith header (bytes_of "RIFF") && (12 <? length header)%nat
  then dict_get (slice 8 12 header) RIFF_SIGNATURES
  else None.

(** The ISO-BMFF [ftyp] branch. *)
Definition ftyp_check (header : list byte) : option format :=
  if (8 <? length header)%nat
     && bool_decide (slice 4 8 header = bytes_of "ftyp")
  then
    let ftyp_code := slice 8 12 header in
    if startswith ftyp_code (bytes_of "isom")
       || startswith ftyp_code (bytes_of "mp4")
    then Some ("video", "MP4", ".mp4")
    else if startswith ftyp_code (bytes_of "qt")
    then Some ("video", "MOV", ".mov")
    else if startswith ftyp_code (bytes_of "heic")
    then Some ("image", "HEIC", ".heic")
    else None
  else None.

(** The body of [detect_format] once the header has been read. *)
Definition detect_header (header : list byte) : option format :=
  match header with
  | [] => None
  | _ =>
      match riff_check header with
      | Some f => Some f
      | None =>
          match ftyp_check header with
          | Some f => Some f
          | None => match_signatures header SIGNATURES
          end
      end
  end.

(** What [detect_format] computes from the content of a file: it reads at
    most the first 512 bytes. *)
Definition detect_content (content : list byte) : option format :=
  detect_header (take 512 content).

Definition detect_format (o : os_state) (file_path : string) : option format :=
  if negb (path_exists o file_path) then None
  else match read_head o file_path 512 with
       | Some header => detect_header header
       | None => None
       end.

Definition detect_media_type (o : os_state) (file_path : string) : option string :=
  match detect_format o file_path with
  | Some (media_type, _, _) => Some media_type
  | None => None
  end.

Definition format_variants : list (string * list string) :=
  [ ("JPEG", [".jpg"; ".jpeg"]);
    ("TIFF", [".tiff"; ".tif"]);
    ("MP3", [".mp3"]);
    ("OGG", [".ogg"; ".oga"; ".ogv"]) ].

Fixpoint variants_of (name : string) (d : list (string * list string))
    : option (list string) :=
  match d with
  | [] => None
  | (k, v) :: d' => if bool_decide (k = name) then Some v else variants_of name d'
  end.

(** [x in l] for a list of strings *)
Definition str_in (x : string) (l : list string) : bool := bool_decide (x ∈ l).

Definition first_in (cands all : list string) : option string :=
  List.find (fun v => str_in v all) cands.

Definition get_correct_extension (o : os_state) (file_path : string)
    (image_extensions video_extensions : list string)
    (audio_extensions : option (list string)) : option string :=
  match detect_format o file_path with
  | None => None
  | Some (_media_type, format_name, detected_ext) =>
      let all_extensions :=
        (image_extensions ++ video_extensions
         ++ match audio_extensions with Some a => a | None => [] end)%list in
      if str_in detected_ext all_extensions then Some detected_ext
      else match variants_of format_name format_variants with
           | Some vs => first_in vs all_extensions
           | None => None
           end
  end.

(** [validate_and_correct_file]: the returned path and the file system
    afterwards. *)
Definition validate_and_correct_file (o : os_state) (file_path : string)
    (image_extensions video_extensions : list string)
    (audio_extensions : option (list string)) (apply_rename : bool)
    : string * os_state :=
  match detect_format o file_path with
  | None => (file_path, o)
  | Some (_media_type, _format_name, detected_ext) =>
      let current_ext := lower (path_suffix file_path) in
      if bool_decide (current_ext = detected_ext) then (file_path, o)
      else
        match get_correct_extension o file_path image_extensions
                video_extensions audio_extensions with
        | None => (file_path, o)
        | Some correct_ext =>
            if bool_decide (correct_ext = "")
               || bool_decide (current_ext = correct_ext)
            then (file_path, o)
            else if negb apply_rename then (file_path, o)
            else
              let new_path := with_suffix file_path correct_ext in
              if path_exists o new_path && negb (bool_decide (new_path = file_path))
              then (file_path, o)
              else match rename o file_path new_path with
                   | Some o' => (new_path, o')
                   | None => (file_path, o)
                   end
        end
  end.

End ExtensionHandler.

(** ** Extension correction tracker (src/core/extension_tracker.py) *)

Module ExtensionCorrectionTracker.

(** [_corrections]: path string to (old_extension, new_extension). *)
Abbreviation corrections := (gmap string (string * string)).

Definition init : corrections := ∅.

Definition record (tr : corrections) (file_path old_extension new_extension : string)
    : corrections :=
  <[file_path := (old_extension, new_extension)]> tr.

Definition record_correction := record.

Definition get_all (tr : corrections) : corrections := tr.

Definition get_correction (tr : corrections) (file_path : string)
    : option (string * string) :=
  tr !! file_path.

(** [dict.update]: the entries of [other] win. *)
Definition merge (tr other : corrections) : corrections := other ∪ tr.

Definition clear (tr : corrections) : corrections := ∅.

Definition len (tr : corrections) : nat := size tr.

End ExtensionCorrectionTracker.

(** ** API items (src/models/types.py) *)

(** [ApiItem]: a dict of which the code reads the key ["url"] only. *)
Record ApiItem : Type := mkItem { item_url : option string }.

(** [item.get("url")] followed by the test [if not url] *)
Definition usable_url (item : ApiItem) : option string :=
  match item_url item with
  | Some u => if bool_decide (u = "") then None else Some u
  | None => None
  end.

(** ** Retry queue (src/core/retry_queue.py) *)

Module RetryQueue.

Record FailedDownload : Type := mkFailed {
  item : ApiItem;
  creator : string;
  url : string;
  out_path : string;
  retry_count : Z;
  last_error : string
}.

Record RetryQueueConfig : Type := mkConfig {
  max_retries : Z;
  retry_delay_sec : float;
  download_timeout : Z
}.

(** The fields of a [RetryQueue] object; the lock and the thread handle have
    no content of their own. *)
Record t : Type := mkQueue {
  config : RetryQueueConfig;
  queue : list FailedDownload;
  successful_retries : Z;
  permanently_failed : list FailedDownload;
  is_running : bool;
  stop_event : bool
}.

Definition init (cfg : RetryQueueConfig) : t :=
  {| config := cfg; queue := []; successful_retries := 0;
     permanently_failed := []; is_running := false; stop_event := false |}.

Definition set_queue (q : t) (l : list FailedDownload) : t :=
  {| config := config q; queue := l;
     successful_retries := successful_retries q;
     permanently_failed := permanently_failed q;
     is_running := is_running q; stop_event := stop_event q |}.

Definition add (q : t) (it : ApiItem) (cr u out : string) (error : string) : t :=
  let failed :=
    {| item := it; creator := cr; url := u; out_path := out;
       retry_count := 1; last_error := error |} in
  set_queue q (queue q ++ [failed]).

Definition start (q : t) : t :=
  if is_running q then q
  else {| config := config q; queue := queue q;
          successful_retries := successful_retries q;
          permanently_failed := permanently_failed q;
          is_running := true; stop_event := false |}.

Definition stop (q : t) : t :=
  if negb (is_running q) then q
  else {| config := config q; queue := queue q;
          successful_retries := successful_retries q;
          permanently_failed := permanently_failed q;
          is_running := false; stop_event := true |}.

Definition pending_count (q : t) : Z := Z.of_nat (length (queue q)).

Record stats : Type := mkStats { pending : Z; successful : Z; failed : Z }.

Definition get_stats (q : t) : stats :=
  {| pending := Z.of_nat (length (queue q));
     successful := successful_retries q;
     failed := Z.of_nat (length (permanently_failed q)) |}.

Definition _get_next_item (q : t) : option FailedDownload * t :=
  match queue q with
  | [] => (None, q)
  | x :: rest => (Some x, set_queue q rest)
  end.

Definition set_retry (f : FailedDownload) (n : Z) : FailedDownload :=
  {| item := item f; creator := creator f; url := url f; out_path := out_path f;
     retry_count := n; last_error := last_error f |}.

Definition set_error (f : FailedDownload) (msg : string) : FailedDownload :=
  {| item := item f; creator := creator f; url := url f; out_path := out_path f;
     retry_count := retry_count f; last_error := msg |}.

Section Worker.

(** The state the download function works on, and the function itself: it
    returns a boolean or raises. *)
Context {Env : Type}.
Variable download_func : ApiItem -> string -> string -> Env -> outcome bool * Env.

(** [_process_item]: [Raise] when an exception that is not an [Exception]
    leaves the download function (it ends the worker thread).  The item
    comes back as the worker left it. *)
Definition _process_item (it : FailedDownload) (q : t) (env : Env)
    : outcome t * Env :=
  let '(r, env') := download_func (item it) (creator it) (out_path it) env in
  let caught :=
    match r with
    | Ok b => Ok (b, it)
    | Raise e =>
        if is_Exception e then Ok (false, set_error it (exn_str e)) else Raise e
    end in
  match caught with
  | Raise e => (Raise e, env')
  | Ok (true, _) =>
      (Ok {| config := config q; queue := queue q;
             successful_retries := successful_retries q + 1;
             permanently_failed := permanently_failed q;
             is_running := is_running q; stop_event := stop_event q |}, env')
  | Ok (false, it1) =>
      let it2 := set_retry it1 (retry_count it1 + 1) in
      if max_retries (config q) <=? retry_count it2
      then
        (Ok {| config := config q; queue := queue q;
               successful_retries := successful_retries q;
               permanently_failed := permanently_failed q ++ [it2];
               is_running := is_running q; stop_event := stop_event q |}, env')
      else (Ok (set_queue q (queue q ++ [it2])), env')
  end.

(** One turn of the [while] loop of [_worker_loop] with the stop event
    clear: the items handed to the download function in that turn, and the
    state afterwards. *)
Definition worker_turn (q : t) (env : Env)
    : list FailedDownload * (outcome t * Env) :=
  match _get_next_item q with
  | (None, q') => ([], (Ok q', env))
  | (Some it, q') => ([it], _process_item it q' env)
  end.

(** [_worker_loop] for [n] turns: the download attempts made, in order. *)
Fixpoint _worker_loop (n : nat) (q : t) (env : Env)
    : list FailedDownload * (outcome t * Env) :=
  match n with
  | O => ([], (Ok q, env))
  | S n' =>
      if stop_event q then ([], (Ok q, env))
      else
        match worker_turn q env with
        | (tr, (Ok q', env')) =>
            let '(tr', r) := _worker_loop n' q' env' in (tr ++ tr', r)
        | (tr, (Raise e, env')) => (tr, (Raise e, env'))
        end
  end.

End Worker.

End RetryQueue.

(** ** Validator (src/utilities/video_validator.py) *)

Module VideoValidator.

Definition IMAGE_CODECS : list string :=
  ["webp"; "png"; "jpeg"; "mjpeg"; "gif"; "bmp"].

(** (estimated_frames, duration, codec_name) *)
Definition video_info : Type := Z * float * string.

Definition validate_image (o : os_state) (image_path : string) : bool * Z * float :=
  if negb (path_exists o image_path) || negb (is_file o image_path)
  then (false, 0, 0%float)
  else match ExtensionHandler.detect_format o image_path with
       | None => (false, 0, 0%float)
       | Some (media_type, _format_name, _detected_ext) =>
           (bool_decide (media_type = "image"), 1, 0%float)
       end.

(** The decision of [validate_video] on what [get_video_info] returned. *)
Definition validate_info (info : option video_info) : bool * Z * float :=
  match info with
  | None => (false, 0, 0%float)
  | Some (frames, duration, codec_name) =>
      if bool_decide (codec_name ∈ IMAGE_CODECS) then (false, frames, duration)
      else if bool_decide (codec_name = "vp9") then (true, frames, duration)
      else if PrimFloat.leb duration 0%float then (false, frames, duration)
      else if frames <=? 1 then (false, frames, duration)
      else (true, frames, duration)
  end.

Section Scan.

(** [get_video_info]: what the probe tool reports for the file at a path,
    already reduced to (frames, duration, codec), or [None]. *)
Variable get_video_info : os_state -> string -> option video_info.

Definition validate_video (o : os_state) (video_path : string) : bool * Z * float :=
  validate_info (get_video_info o video_path).

Abbreviation results := (gmap string (bool * Z * float)).

(** What the scan carries from file to file. *)
Record scan_acc : Type := mkScan {
  scan_results : results;
  invalid_count : Z;
  incorrect_count : Z;
  scan_os : os_state;
  scan_tracker : ExtensionCorrectionTracker.corrections
}.

(** [results[new] = results.pop(old)] *)
Definition rekey (r : results) (old new : string) : results :=
  match r !! old with
  | Some v => <[new := v]> (delete old r)
  | None => r
  end.

(** The body of the [for] loop of [scan_creator_videos]; the calls to the
    display manager are left out. *)
Definition scan_file (media_type : string) (apply_corrections : bool)
    (image_extensions : option (list string)) (video_extensions : list string)
    (a : scan_acc) (video_file : string) : scan_acc :=
  let o := scan_os a in
  let '(is_valid, frames, duration) :=
    if bool_decide (media_type = "Images") then validate_image o video_file
    else validate_video o video_file in
  let results1 := <[path_name video_file := (is_valid, frames, duration)]> (scan_results a) in
  let invalid1 := if is_valid then invalid_count a else invalid_count a + 1 in
  let incorrect1 :=
    match ExtensionCorrectionTracker.get_correction (scan_tracker a) video_file with
    | Some _ => incorrect_count a + 1
    | None => incorrect_count a
    end in
  match image_extensions with
  | Some (e :: es) =>
      if apply_corrections then
        let '(corrected_path, o') :=
          ExtensionHandler.validate_and_correct_file o video_file (e :: es)
            video_extensions None true in
        if bool_decide (corrected_path = video_file)
        then mkScan results1 invalid1 incorrect1 o' (scan_tracker a)
        else mkScan (rekey results1 (path_name video_file) (path_name corrected_path))
               invalid1 incorrect1 o'
               (ExtensionCorrectionTracker.record_correction (scan_tracker a)
                  video_file (lower (path_suffix video_file))
                  (lower (path_suffix corrected_path)))
      else mkScan results1 invalid1 incorrect1 o (scan_tracker a)
  | _ => mkScan results1 invalid1 incorrect1 o (scan_tracker a)
  end.

Definition scan_creator_videos (o : os_state)
    (tr : ExtensionCorrectionTracker.corrections) (creator_path : string)
    (video_extensions : list string) (image_extensions : option (list string))
    (apply_corrections : bool) (scan_folder : option string) (media_type : string)
    : scan_acc :=
  let folder_name :=
    match scan_folder with
    | Some f => if bool_decide (f = "") then "Videos" else f
    | None => "Videos"
    end in
  let target_folder := path_join creator_path folder_name in
  if negb (path_exists o target_folder) || negb (is_dir o target_folder)
  then mkScan ∅ 0 0 o tr
  else
    let video_files :=
      if bool_decide (lower folder_name = "videos")
      then filter (fun f => is_file o f = true
                            ∧ lower (path_suffix f) ∈ video_extensions)
             (iterdir o target_folder)
      else filter (fun f => is_file o f = true) (iterdir o target_folder) in
    foldl (scan_file media_type apply_corrections image_extensions video_extensions)
      (mkScan ∅ 0 0 o tr) video_files.

Definition scan_creator_images (o : os_state)
    (tr : ExtensionCorrectionTracker.corrections) (creator_path : string)
    (image_extensions : list string) (video_extensions : option (list string))
    (apply_corrections : bool) : scan_acc :=
  scan_creator_videos o tr creator_path
    (match video_extensions with Some v => v | None => [] end)
    (Some image_extensions) apply_corrections (Some "Images") "Images".

End Scan.

End VideoValidator.

(** ** URL and media helpers (src/utilities/media.py) *)

Definition CIVITAI_CDN_ID : string := "xG1nkqKTMzGDvpLrqFT7WA".
Definition CIVITAI_IMAGE_API_BASE : string := "https://image.civitai.com".
Definition CIVITAI_VIDEO_PARAMS : string := "original-video=true,quality=100".

(** [needle in s] *)
Fixpoint str_contains (needle s : string) : bool :=
  String.prefix needle s
  || match s with
     | EmptyString => false
     | String _ s' => str_contains needle s'
     end.

Fixpoint str_map (f : ascii -> ascii) (s : string) : string :=
  match s with
  | EmptyString => EmptyString
  | String c s' => String (f c) (str_map f s')
  end.

Fixpoint all_dots (s : string) : bool :=
  match s with
  | EmptyString => true
  | String c s' => bool_decide (c = dot) && all_dots s'
  end.

(** [os.path.basename(p)] *)
Definition basename (p : string) : string := path_name p.

(** [os.path.splitext(p)]: the extension starts at the last dot of the base
    name, unless only dots come before it. *)
Definition splitext (p : string) : string * string :=
  let name := basename p in
  match rfind_char dot name with
  | Some i =>
      if all_dots (str_take i name) then (p, "")
      else (str_take (String.length p - (String.length name - i)) p,
            str_drop i name)
  | None => (p, "")
  end.

(** The double quote, character 34. *)
Definition double_quote : ascii := ascii_of_nat 34.

Definition unsafe_chars : list ascii :=
  ["<"%char; ">"%char; ":"%char; double_quote; "/"%char; "\"%char; "|"%char;
   "?"%char; "*"%char].

Section Media.

(** [urllib.parse.urlparse(url).path] *)
Variable urlparse_path : string -> string.

Definition safe_filename_from_url (url : string) : string :=
  let path := urlparse_path url in
  let filename :=
    if bool_decide (basename path = "") then "file.bin" else basename path in
  str_map (fun c => if bool_decide (c ∈ unsafe_chars) then "_"%char else c) filename.

Definition get_extension_from_url (url : string) : string :=
  let ext := lower (snd (splitext (urlparse_path url))) in
  if bool_decide (ext = "") then ".bin" else ext.

Definition media_type_from_extension (ext : string)
    (image_extensions video_extensions : list string) : string :=
  if ExtensionHandler.str_in ext image_extensions then "Images"
  else if ExtensionHandler.str_in ext video_extensions then "Videos"
  else "Other".

Definition update_video_url (url : string) (video_extensions : list string) : string :=
  let ext := get_extension_from_url url in
  if negb (ExtensionHandler.str_in ext video_extensions) then url
  else if negb (str_contains "civitai.com" url) then url
  else if (str_contains "original-video=true" url || str_contains "original=true" url)
          && str_contains "quality=100" url
  then url
  else
    let filename := safe_filename_from_url url in
    let media_api_id := fst (splitext filename) in
    CIVITAI_IMAGE_API_BASE +:+ "/" +:+ CIVITAI_CDN_ID +:+ "/" +:+ media_api_id
    +:+ "/" +:+ CIVITAI_VIDEO_PARAMS +:+ "/" +:+ media_api_id +:+ ext.

End Media.

(** ** Opening and writing files *)

(** [open(p, 'wb')]: creates or truncates the file. *)
Definition open_wb (o : os_state) (p : string) : outcome os_state :=
  let parent := path_parent p in
  if bool_decide (p ∈ write_denied o) then Raise (OSError "permission denied")
  else if is_dir o p then Raise (OSError "is a directory")
  else if negb (bool_decide (parent = ".") || bool_decide (parent = "/")
                || is_dir o parent)
  then Raise (OSError "no such directory")
  else Ok (set_nodes o (<[p := RegFile []]> (nodes o))).

(** [f.write(data)] on the file opened at [p]. *)
Definition write_bytes (o : os_state) (p : string) (data : list byte)
    : outcome os_state :=
  match write_fault o !! p with
  | Some e => Raise e
  | None =>
      match nodes o !! p with
      | Some (RegFile old) =>
          Ok (set_nodes o (<[p := RegFile (old ++ data)]> (nodes o)))
      | _ => Raise (OSError "bad file descriptor")
      end
  end.

(** ** HTTP (src/utilities/network.py) *)

(** What the code reads of a [requests.Response]. *)
Record response : Type := mkResponse {
  (** the body is the JSON object with ["error": "User not found"] *)
  user_not_found : bool;
  (** [raise_for_status()] raises with this message *)
  http_error : option string;
  (** the Content-Length header, when present and accepted by [int()] *)
  content_length : option Z;
  (** the chunks [iter_content] yields *)
  chunks : list (list byte);
  (** the exception [iter_content] raises after them, if any *)
  body_failure : option exn
}.

(** What the program does to the outside world, in order. *)
Inductive event : Type :=
| EvGet (url : string)
| EvOpenWrite (path : string)
| EvUnlink (path : string).

Section Network.

Context {Net : Type}.
(** [requests.get(url, stream=True, ...)] *)
Variable requests_get : string -> Net -> outcome response * Net.

(** The [for attempt in range(1, max_retries + 1)] loop, [n] turns left. *)
Fixpoint request_loop (n : nat) (attempt max_retries : Z) (url : string) (net : Net)
    : list event * (outcome response * Net) :=
  match n with
  | O => ([], (Raise (PlainException "Request failed"), net))
  | S n' =>
      let '(r, net1) := requests_get url net in
      let tried : outcome response :=
        match r with
        | Raise e => Raise e
        | Ok resp =>
            if user_not_found resp then Raise (UserNotFoundError "unknown")
            else match http_error resp with
                 | Some m => Raise (RequestException m)
                 | None => Ok resp
                 end
        end in
      match tried with
      | Ok resp => ([EvGet url], (Ok resp, net1))
      | Raise (UserNotFoundError u) => ([EvGet url], (Raise (UserNotFoundError u), net1))
      | Raise e =>
          if is_Exception e && (attempt <? max_retries)
          then let '(tr, res) := request_loop n' (attempt + 1) max_retries url net1 in
               (EvGet url :: tr, res)
          else ([EvGet url], (Raise e, net1))
      end
  end.

Definition request_with_retries (url : string) (max_retries : Z) (net : Net)
    : list event * (outcome response * Net) :=
  request_loop (Z.to_nat max_retries) 1 max_retries url net.

End Network.

(** [for chunk in resp.iter_content(...): if chunk: buf.extend(chunk)] *)
Definition read_body (resp : response) : outcome (list byte) :=
  match body_failure resp with
  | Some e => Raise e
  | None => Ok (concat (chunks resp))
  end.

(** [for chunk in resp.iter_content(...): if chunk: f.write(chunk)]: the file
    system after the last write made, and how the loop ended. *)
Fixpoint write_chunks (o : os_state) (p : string) (cs : list (list byte))
    (fail : option exn) : outcome unit * os_state :=
  match cs with
  | [] => (match fail with Some e => Raise e | None => Ok tt end, o)
  | c :: cs' =>
      match c with
      | [] => write_chunks o p cs' fail
      | _ => match write_bytes o p c with
             | Ok o' => write_chunks o' p cs' fail
             | Raise e => (Raise e, o)
             end
      end
  end.

(** ** Media downloader (src/core/file_manager.py, src/core/downloader.py) *)

Module MediaDownloader.

Inductive LockPolicy : Type := BEST_EFFORT | BLOCK | FAIL.

(** Which locking module the import at the top of downloader.py found. *)
Inductive lock_module : Type := Msvcrt | Fcntl | NoLocking.

#[global] Instance LockPolicy_eq_dec : EqDecision LockPolicy.
Proof. solve_decision. Defined.

(** The constructor arguments of [MediaDownloader] and of its
    [FileManager]. *)
Record config : Type := mkConfig {
  output_folder : string;
  video_extensions : list string;
  image_extensions : list string;
  download_timeout : Z;
  max_retries : Z;
  retry_backoff_sec : Z;
  rate_limit : bool;
  memory_threshold_bytes : Z;
  lock_policy : LockPolicy;
  enable_retry_queue : bool
}.

Section Downloader.

Context {Net : Type}.
Variable requests_get : string -> Net -> outcome response * Net.
Variable urlparse_path : string -> string.
Variable locking : lock_module.

(** Everything a download reads or changes. *)
Record state : Type := mkState {
  os : os_state;
  net : Net;
  tracker : ExtensionCorrectionTracker.corrections;
  downloaded_extensions : gmap string Z;
  retry_queue : option RetryQueue.t;
  folder_scan_cache : gmap string (gset string);
  trace : list event
}.

Definition set_os (s : state) (o : os_state) : state :=
  mkState o (net s) (tracker s) (downloaded_extensions s) (retry_queue s)
    (folder_scan_cache s) (trace s).

Definition set_net (s : state) (n : Net) : state :=
  mkState (os s) n (tracker s) (downloaded_extensions s) (retry_queue s)
    (folder_scan_cache s) (trace s).

Definition set_tracker (s : state) (t : ExtensionCorrectionTracker.corrections) : state :=
  mkState (os s) (net s) t (downloaded_extensions s) (retry_queue s)
    (folder_scan_cache s) (trace s).

Definition set_downloaded_extensions (s : state) (d : gmap string Z) : state :=
  mkState (os s) (net s) (tracker s) d (retry_queue s)
    (folder_scan_cache s) (trace s).

Definition set_retry_queue (s : state) (q : option RetryQueue.t) : state :=
  mkState (os s) (net s) (tracker s) (downloaded_extensions s) q
    (folder_scan_cache s) (trace s).

Definition set_folder_scan_cache (s : state) (c : gmap string (gset string)) : state :=
  mkState (os s) (net s) (tracker s) (downloaded_extensions s) (retry_queue s)
    c (trace s).

Definition log (s : state) (evs : list event) : state :=
  mkState (os s) (net s) (tracker s) (downloaded_extensions s) (retry_queue s)
    (folder_scan_cache s) (trace s ++ evs).

(** [__init__]: the retry queue exists when it is enabled. *)
Definition init (cfg : config) (o : os_state) (n : Net) : state :=
  {| os := o; net := n; tracker := ExtensionCorrectionTracker.init;
     downloaded_extensions := ∅;
     retry_queue :=
       if enable_retry_queue cfg
       then Some (RetryQueue.init
                    (RetryQueue.mkConfig (max_retries cfg)
                       (float_of_Z (retry_backoff_sec cfg)) (download_timeout cfg)))
       else None;
     folder_scan_cache := ∅; trace := [] |}.

(** *** FileManager *)

Definition get_creator_path (cfg : config) (creator : string) : string :=
  path_join (output_folder cfg) creator.

Definition get_media_folder (cfg : config) (creator url : string) (o : os_state)
    : outcome (string * os_state) :=
  let ext := get_extension_from_url urlparse_path url in
  let media_type_folder :=
    media_type_from_extension ext (image_extensions cfg) (video_extensions cfg) in
  let folder := path_join (get_creator_path cfg creator) media_type_folder in
  match mkdir_p o folder with
  | Ok o' => Ok (folder, o')
  | Raise e => Raise e
  end.

Definition get_output_path (cfg : config) (creator url : string) (o : os_state)
    : outcome (string * os_state) :=
  match get_media_folder cfg creator url o with
  | Ok (folder, o') =>
      Ok (path_join folder (safe_filename_from_url urlparse_path url), o')
  | Raise e => Raise e
  end.

Definition invalidate_folder_cache (s : state) (folder : string) : state :=
  set_folder_scan_cache s (delete folder (folder_scan_cache s)).

(** *** The steps of one download *)

(** [validate_and_correct_file(out_path, ..., apply_rename=True)] followed
    by [record_correction] under [str(out_path)] when the path changed: the
    corrected path and the state. *)
Definition correct_extension (cfg : config) (out_path : string) (s : state)
    : string * state :=
  let '(corrected_path, o') :=
    ExtensionHandler.validate_and_correct_file (os s) out_path
      (image_extensions cfg) (video_extensions cfg) None true in
  if bool_decide (corrected_path = out_path) then (corrected_path, set_os s o')
  else
    (corrected_path,
     set_tracker (set_os s o')
       (ExtensionCorrectionTracker.record_correction (tracker s) out_path
          (lower (path_suffix out_path)) (lower (path_suffix corrected_path)))).

(** [self.downloaded_extensions[ext] = self.downloaded_extensions.get(ext, 0) + 1] *)
Definition count_extension (out_path : string) (s : state) : state :=
  let ext := lower (path_suffix out_path) in
  set_downloaded_extensions s
    (<[ext := default 0 (downloaded_extensions s !! ext) + 1]>
       (downloaded_extensions s)).

(** The non-blocking and the blocking lock call on the file at [p]:
    [false] when the call raises [OSError]. *)
Definition lock_call (blocking : bool) (o : os_state) (p : string) : bool :=
  blocking || negb (bool_decide (p ∈ lock_busy o)).

(** The value of [lock_acquired] after the locking block. *)
Definition acquire_lock (cfg : config) (o : os_state) (p : string) : bool :=
  match locking with
  | NoLocking => false
  | Msvcrt | Fcntl =>
      match lock_policy cfg with
      | BLOCK => lock_call true o p
      | FAIL => lock_call false o p
      | BEST_EFFORT => lock_call false o p
      end
  end.

(** The branch that buffers the body in memory and writes it in one call:
    how it ended, the value of [out_path] at that point, the state. *)
Definition download_buffered (cfg : config) (resp : response) (out_path : string)
    (s : state) : outcome unit * string * state :=
  match read_body resp with
  | Raise e => (Raise e, out_path, s)
  | Ok buf =>
      match mkdir_p (os s) (path_parent out_path) with
      | Raise e => (Raise e, out_path, s)
      | Ok o1 =>
          match open_wb o1 out_path with
          | Raise e => (Raise e, out_path, set_os s o1)
          | Ok o2 =>
              let s2 := log (set_os s o2) [EvOpenWrite out_path] in
              match write_bytes o2 out_path buf with
              | Raise e => (Raise e, out_path, s2)
              | Ok o3 =>
                  let '(out_path', s4) := correct_extension cfg out_path (set_os s2 o3) in
                  (Ok tt, out_path', count_extension out_path' s4)
              end
          end
      end
  end.

(** The branch that streams the body to disk under the lock policy.  What
    follows the unlocking in the [finally] clause (extension correction and
    the extension count) runs however the [try] block ended. *)
Definition download_streamed (cfg : config) (resp : response) (out_path : string)
    (s : state) : outcome unit * string * state :=
  match mkdir_p (os s) (path_parent out_path) with
  | Raise e => (Raise e, out_path, s)
  | Ok o1 =>
      match open_wb o1 out_path with
      | Raise e => (Raise e, out_path, set_os s o1)
      | Ok o2 =>
          let s2 := log (set_os s o2) [EvOpenWrite out_path] in
          let lock_acquired := acquire_lock cfg o2 out_path in
          let '(r, o3) :=
            if bool_decide (lock_policy cfg = FAIL) && negb lock_acquired
            then (Raise (RuntimeError
                    "Failed to acquire lock for file and policy is 'fail'"), o2)
            else write_chunks o2 out_path (chunks resp) (body_failure resp) in
          let '(out_path', s4) := correct_extension cfg out_path (set_os s2 o3) in
          (r, out_path', count_extension out_path' s4)
      end
  end.

(** The [try] block of [download_files] for one item. *)
Definition try_download (cfg : config) (download_url out_path : string) (s : state)
    : outcome unit * string * state :=
  let '(evs, (r, net')) :=
    request_with_retries requests_get download_url (max_retries cfg) (net s) in
  let s1 := log (set_net s net') evs in
  match r with
  | Raise e => (Raise e, out_path, s1)
  | Ok resp =>
      match content_length resp with
      | Some n =>
          if n <=? memory_threshold_bytes cfg
          then download_buffered cfg resp out_path s1
          else download_streamed cfg resp out_path s1
      | None => download_streamed cfg resp out_path s1
      end
  end.

(** [if out_path.exists(): out_path.unlink()] with [OSError] swallowed. *)
Definition remove_partial (out_path : string) (s : state) : state :=
  if path_exists (os s) out_path then
    match unlink (os s) out_path with
    | Some o' => log (set_os s o') [EvUnlink out_path]
    | None => s
    end
  else s.

(** [self._retry_queue.add(...)] when the queue exists and is enabled. *)
Definition enqueue_failed (cfg : config) (it : ApiItem)
    (creator download_url out_path error_msg : string) (s : state) : state :=
  match retry_queue s with
  | Some q =>
      if enable_retry_queue cfg
      then set_retry_queue s
             (Some (RetryQueue.add q it creator download_url out_path error_msg))
      else s
  | None => s
  end.

(** (successful_downloads, images_downloaded, videos_downloaded) *)
Definition counters : Type := Z * Z * Z.

(** The body of the [for item in items] loop: [Raise] when an exception
    leaves [download_files]. *)
Definition download_item (cfg : config) (creator : string) (it : ApiItem)
    (c : counters) (s : state) : outcome counters * state :=
  match usable_url it with
  | None => (Ok c, s)
  | Some url =>
      let download_url := update_video_url urlparse_path url (video_extensions cfg) in
      match get_output_path cfg creator download_url (os s) with
      | Raise e => (Raise e, s)
      | Ok (out_path, o0) =>
          let s0 := set_os s o0 in
          if path_exists o0 out_path then (Ok c, s0)
          else
            match try_download cfg download_url out_path s0 with
            | (Ok _, out_path', s1) =>
                let '(successful_downloads, images_downloaded, videos_downloaded) := c in
                let media_type :=
                  media_type_from_extension (lower (path_suffix out_path'))
                    (image_extensions cfg) (video_extensions cfg) in
                let c' :=
                  (successful_downloads + 1,
                   if bool_decide (media_type = "Images")
                   then images_downloaded + 1 else images_downloaded,
                   if bool_decide (media_type = "Videos")
                   then videos_downloaded + 1 else videos_downloaded) in
                (Ok c', invalidate_folder_cache s1 (path_parent out_path'))
            | (Raise e, out_path', s1) =>
                let s2 := remove_partial out_path' s1 in
                if is_Exception e
                then (Ok c, enqueue_failed cfg it creator download_url out_path'
                              (exn_str e) s2)
                else (Raise e, s2)
            end
      end
  end.

Fixpoint download_loop (cfg : config) (creator : string) (items : list ApiItem)
    (c : counters) (s : state) : outcome counters * state :=
  match items with
  | [] => (Ok c, s)
  | it :: rest =>
      match download_item cfg creator it c s with
      | (Ok c', s') => download_loop cfg creator rest c' s'
      | (Raise e, s') => (Raise e, s')
      end
  end.

Definition download_files (cfg : config) (items : list ApiItem) (creator : string)
    (s : state) : outcome counters * state :=
  download_loop cfg creator items (0, 0, 0) s.

(** [urlparse(url)] raises on some malformed URLs ([ValueError], for
    instance on an unclosed bracket in the host): the exception, if any.
    [urlparse_path] is its result where it returns. *)
Variable urlparse_error : string -> option exn.

(** [_retry_download]: the download function handed to the retry queue.
    [update_video_url], which parses the URL, is called before the [try]
    block: what it raises leaves the function. *)
Definition _retry_download (cfg : config) (it : ApiItem) (creator out_path : string)
    (s : state) : outcome bool * state :=
  match usable_url it with
  | None => (Ok false, s)
  | Some url =>
    match urlparse_error url with
    | Some e => (Raise e, s)
    | None =>
      let download_url := update_video_url urlparse_path url (video_extensions cfg) in
      let '(evs, (r, net')) := request_with_retries requests_get download_url 1 (net s) in
      let s1 := log (set_net s net') evs in
      let attempt : outcome unit * state :=
        match r with
        | Raise e => (Raise e, s1)
        | Ok resp =>
            match mkdir_p (os s1) (path_parent out_path) with
            | Raise e => (Raise e, s1)
            | Ok o1 =>
                match open_wb o1 out_path with
                | Raise e => (Raise e, set_os s1 o1)
                | Ok o2 =>
                    let s2 := log (set_os s1 o2) [EvOpenWrite out_path] in
                    match write_chunks o2 out_path (chunks resp) (body_failure resp) with
                    | (Raise e, o3) => (Raise e, set_os s2 o3)
                    | (Ok _, o3) =>
                        (Ok tt, snd (correct_extension cfg out_path (set_os s2 o3)))
                    end
                end
            end
        end in
      match attempt with
      | (Ok _, s') => (Ok true, s')
      | (Raise e, s') =>
          if is_Exception e then (Ok false, remove_partial out_path s')
          else (Raise e, s')
      end
    end
  end.

End Downloader.

End MediaDownloader.

(** ** Repair manager (src/core/repair_manager.py) *)

(** Parsed JSON, as [json.load] returns it: a [dict] keeps its items in
    document order. *)
#[warnings="-register-all"]
Inductive json : Type :=
| JNull
| JBool (b : bool)
| JInt (n : Z)
| JFloat (x : float)
| JStr (s : string)
| JList (l : list json)
| JDict (items : list (string * json)).

(** [d[k]] on the items of a dict *)
Fixpoint json_get (k : string) (items : list (string * json)) : option json :=
  match items with
  | [] => None
  | (k', v) :: rest => if bool_decide (k' = k) then Some v else json_get k rest
  end.

Module RepairManager.

Definition REPORT_FILENAME : string := "InvalidVideos.json".

Definition build_download_url (filename : string) : string :=
  let media_api_id := path_stem filename in
  let file_extension := path_suffix filename in
  CIVITAI_IMAGE_API_BASE +:+ "/" +:+ CIVITAI_CDN_ID +:+ "/" +:+ media_api_id
  +:+ "/" +:+ CIVITAI_VIDEO_PARAMS +:+ "/" +:+ media_api_id +:+ file_extension.

(** [isinstance(v, list)] *)
Definition is_list (v : json) : bool :=
  match v with JList _ => true | _ => false end.

Section Repair.

Context {Net : Type}.
Variable requests_get : string -> Net -> outcome response * Net.
Variable urlparse_path : string -> string.
Variable locking : MediaDownloader.lock_module.
(** [json.load]: [None] when it raises [JSONDecodeError]. *)
Variable json_load : list byte -> option json.
(** [Path(p).resolve()] *)
Variable resolve : string -> string.

(** [load_report]: the items of ["creators"], each value a list. *)
Definition load_report (o : os_state) (report_path : string)
    : option (list (string * list json)) :=
  if negb (path_exists o report_path) then None
  else
    match nodes o !! report_path with
    | Some (RegFile data) =>
        if bool_decide (report_path ∈ read_denied o) then None
        else
          match json_load data with
          | Some (JDict data_dict) =>
              match json_get "generated_at" data_dict, json_get "creators" data_dict with
              | Some (JStr _), Some (JDict creators_dict) =>
                  if forallb (fun kv => is_list (snd kv)) creators_dict
                  then Some (omap (fun kv =>
                                     match snd kv with
                                     | JList l => Some (fst kv, l)
                                     | _ => None
                                     end) creators_dict)
                  else None
              | _, _ => None
              end
          | _ => None
          end
    | _ => None
    end.

(** [video_entry[k]] used as a string: a missing key raises. *)
Definition entry_str (video_entry : json) (k : string) : outcome string :=
  match video_entry with
  | JDict items =>
      match json_get k items with
      | Some (JStr s) => Ok s
      | Some _ => Raise (PlainException "TypeError")
      | None => Raise (PlainException "KeyError")
      end
  | _ => Raise (PlainException "TypeError")
  end.

(** The removal loop over one creator's entries. *)
Fixpoint remove_entries (entries : list json) (o : os_state) : outcome unit * os_state :=
  match entries with
  | [] => (Ok tt, o)
  | video_entry :: rest =>
      match entry_str video_entry "path" with
      | Raise e => (Raise e, o)
      | Ok video_path_str =>
          let video_path := resolve video_path_str in
          let o' :=
            if path_exists o video_path then
              match unlink o video_path with Some o1 => o1 | None => o end
            else o in
          remove_entries rest o'
      end
  end.

(** The download loop over one creator's entries: the number of entries
    counted as succeeded. *)
Fixpoint redownload_entries (cfg : MediaDownloader.config) (creator_name : string)
    (entries : list json) (total_succeeded : Z) (s : MediaDownloader.state (Net := Net))
    : outcome Z * MediaDownloader.state (Net := Net) :=
  match entries with
  | [] => (Ok total_succeeded, s)
  | video_entry :: rest =>
      match entry_str video_entry "filename" with
      | Raise e => (Raise e, s)
      | Ok filename =>
          let it := mkItem (Some (build_download_url filename)) in
          match MediaDownloader.download_files requests_get urlparse_path locking
                  cfg [it] creator_name s with
          | (Ok (total_downloaded, _, _), s') =>
              redownload_entries cfg creator_name rest
                (if 0 <? total_downloaded then total_succeeded + 1 else total_succeeded) s'
          | (Raise e, s') =>
              if is_Exception e
              then redownload_entries cfg creator_name rest total_succeeded s'
              else (Raise e, s')
          end
      end
  end.

(** The [for creator_name, invalid_videos in creators_data.items()] loop. *)
Fixpoint repair_creators (cfg : MediaDownloader.config)
    (creators_data : list (string * list json)) (total_succeeded : Z)
    (s : MediaDownloader.state (Net := Net))
    : outcome Z * MediaDownloader.state (Net := Net) :=
  match creators_data with
  | [] => (Ok total_succeeded, s)
  | (creator_name, invalid_videos) :: rest =>
      match remove_entries invalid_videos (MediaDownloader.os s) with
      | (Raise e, o') => (Raise e, MediaDownloader.set_os s o')
      | (Ok _, o') =>
          match redownload_entries cfg creator_name invalid_videos total_succeeded
                  (MediaDownloader.set_os s o') with
          | (Ok n, s') => repair_creators cfg rest n s'
          | (Raise e, s') => (Raise e, s')
          end
      end
  end.

Definition count_videos (creators_data : list (string * list json)) : Z :=
  foldl (fun n kv => n + Z.of_nat (length (snd kv))) 0 creators_data.

(** [repair_videos]: (total_attempted, total_succeeded).  [user_confirms] is
    the answer to the confirmation prompt, asked when [auto_yes] is false. *)
Definition repair_videos (report_path : string) (cfg : MediaDownloader.config)
    (auto_yes user_confirms : bool) (s : MediaDownloader.state (Net := Net))
    : outcome (Z * Z) * MediaDownloader.state (Net := Net) :=
  match load_report (MediaDownloader.os s) report_path with
  | None => (Ok (0, 0), s)
  | Some [] => (Ok (0, 0), s)
  | Some creators_data =>
      let total_videos := count_videos creators_data in
      if negb auto_yes && negb user_confirms then (Ok (0, 0), s)
      else
        match repair_creators cfg creators_data 0 s with
        | (Raise e, s') => (Raise e, s')
        | (Ok total_succeeded, s') =>
            if bool_decide (total_succeeded = total_videos) && (0 <? total_videos)
            then
              match unlink (MediaDownloader.os s') report_path with
              | Some o' => (Ok (total_videos, total_succeeded), MediaDownloader.set_os s' o')
              | None => (Ok (total_videos, total_succeeded), s')
              end
            else (Ok (total_videos, total_succeeded), s')
        end
  end.

End Repair.

End RepairManager.

(** * Predicates of the statements *)

(** The download function never succeeds: it returns [False] or raises an
    [Exception]. *)
Definition always_fails {Env : Type}
    (download_func : ApiItem -> string -> string -> Env -> outcome bool * Env) : Prop :=
  forall it cr p env,
    match fst (download_func it cr p env) with
    | Ok b => b = false
    | Raise e => is_Exception e = true
    end.

(** Two queue entries stand for the same download. *)
Definition same_download (a b : RetryQueue.FailedDownload) : Prop :=
  RetryQueue.item a = RetryQueue.item b /\ RetryQueue.creator a = RetryQueue.creator b
  /\ RetryQueue.url a = RetryQueue.url b /\ RetryQueue.out_path a = RetryQueue.out_path b.

(** The operating system's refusals are the same in both states. *)
Definition same_faults (o o' : os_state) : Prop :=
  read_denied o' = read_denied o /\ write_denied o' = write_denied o /\
  unlink_denied o' = unlink_denied o /\ write_fault o' = write_fault o /\
  lock_busy o' = lock_busy o.

(** [o'] is [o] with some directories created. *)
Definition grows (o o' : os_state) : Prop :=
  same_faults o o' /\
  (forall p x, nodes o !! p = Some x -> nodes o' !! p = Some x) /\
  (forall p, nodes o !! p = None ->
             nodes o' !! p = None \/ nodes o' !! p = Some Directory).

(** [p] is a regular file with content [data]. *)
Definition holds (p : string) (data : list byte) (o : os_state) : Prop :=
  nodes o !! p = Some (RegFile data).

(** From [o] to [o'] the operating system's refusals are unchanged and the
    file [p] is kept as it is. *)
Definition preserves (p : string) (data : list byte) (o o' : os_state) : Prop :=
  same_faults o o' /\ (holds p data o -> holds p data o').

(** The item has no usable URL, or the destination that [get_output_path]
    resolves for it exists. *)
Definition already_there (urlparse_path : string -> string)
    (cfg : MediaDownloader.config) (creator : string) (o : os_state) (it : ApiItem)
    : Prop :=
  match usable_url it with
  | None => True
  | Some url =>
      exists out_path o0,
        MediaDownloader.get_output_path urlparse_path cfg creator
          (update_video_url urlparse_path url (MediaDownloader.video_extensions cfg)) o
        = Ok (out_path, o0)
        /\ path_exists o out_path = true
  end.

(** No entry of the list names the file [p] as the one to delete. *)
Definition spares (resolve : string -> string) (p : string) (entries : list json) : Prop :=
  forall e path,
    e ∈ entries -> RepairManager.entry_str e "path" = Ok path -> resolve path <> p.

(** ** A concrete environment for the examples *)

(** The path of an absolute URL without query or fragment that names its
    scheme, as [urlparse] returns it. *)
Definition sample_urlparse_path (url : string) : string :=
  match String.index 0 "://" url with
  | Some i =>
      let rest := str_drop (i + 3) url in
      match find_char slash rest with
      | Some j => str_drop j rest
      | None => ""
      end
  | None => url
  end.

(** A web that serves fixed responses: each request for a listed URL gets
    its response, any other URL a connection error. *)
Fixpoint lookup_page (url : string) (pages : list (string * response))
    : outcome response :=
  match pages with
  | [] => Raise (RequestException "connection error")
  | (u, r) :: rest => if bool_decide (u = url) then Ok r else lookup_page url rest
  end.

Definition static_web (pages : list (string * response)) (url : string) (n : unit)
    : outcome response * unit :=
  (lookup_page url pages, n).

Definition png_bytes : list byte :=
  x89 :: bytes_of "PNG" ++ [x0d; x0a; x1a; x0a] ++ bytes_of "image data".

Definition serve (body : list byte) : response :=
  {| user_not_found := false; http_error := None;
     content_length := Some (Z.of_nat (length body));
     chunks := [body]; body_failure := None |}.

Definition empty_os : os_state :=
  {| nodes := ∅; read_denied := ∅; write_denied := ∅; unlink_denied := ∅;
     write_fault := ∅; lock_busy := ∅ |}.

Definition sample_config : MediaDownloader.config :=
  {| MediaDownloader.output_folder := "out";
     MediaDownloader.video_extensions := [".mp4"; ".webm"];
     MediaDownloader.image_extensions := [".jpg"; ".jpeg"; ".png"; ".gif"; ".webp"];
     MediaDownloader.download_timeout := 60;
     MediaDownloader.max_retries := 3;
     MediaDownloader.retry_backoff_sec := 2;
     MediaDownloader.rate_limit := false;
     MediaDownloader.memory_threshold_bytes := 2 * 1024 * 1024 * 1024;
     MediaDownloader.lock_policy := MediaDownloader.BEST_EFFORT;
     MediaDownloader.enable_retry_queue := true |}.

(** A PNG image published under a [.jpg] name. *)
Definition mislabeled_url : string := "https://image.civitai.com/cdn/pic.jpg".
Definition mislabeled_item : ApiItem := mkItem (Some mislabeled_url).
Definition mislabeled_web := static_web [(mislabeled_url, serve png_bytes)].

Definition after_mislabeled_download :=
  MediaDownloader.download_files mislabeled_web sample_urlparse_path
    MediaDownloader.Fcntl sample_config [mislabeled_item] "bob"
    (MediaDownloader.init sample_config empty_os tt).

(** A video that is served as it is named. *)
Definition clip_url : string :=
  "https://image.civitai.com/xG1nkqKTMzGDvpLrqFT7WA/clip/original-video=true,quality=100/clip.mp4".
Definition clip_item : ApiItem := mkItem (Some clip_url).
Definition mp4_bytes : list byte :=
  [x00; x00; x00; x18] ++ bytes_of "ftypisom" ++ bytes_of "video data".
Definition clip_web := static_web [(clip_url, serve mp4_bytes)].
Definition clip_path : string := "out/bob/Videos/clip.mp4".

(** A web on which every request fails. *)
Definition dead_web := static_web [].

(** A disk on which writing to the clip's path fails and the file, once
    created, cannot be removed. *)
Definition stubborn_os : os_state :=
  {| nodes := ∅; read_denied := ∅; write_denied := ∅;
     unlink_denied := {[clip_path]};
     write_fault := {[clip_path := OSError "no space left on device"]};
     lock_busy := ∅ |}.

(** A report that lists the clip of creator bob as invalid, and a decoder
    that knows this one document. *)
Definition report_text : list byte := bytes_of "report: bob/clip.mp4".
Definition report_json : json :=
  JDict [("generated_at", JStr "2025-01-01T00:00:00Z");
         ("creators",
          JDict [("bob", JList [JDict [("filename", JStr "clip.mp4");
                                       ("path", JStr clip_path);
                                       ("frames", JInt 0);
                                       ("duration", JFloat 0%float)]])])].
Definition sample_json_load (content : list byte) : option json :=
  if bool_decide (content = report_text) then Some report_json else None.

Definition repair_os (denied : gset string) : os_state :=
  {| nodes := {[ "InvalidVideos.json" := RegFile report_text;
                 "out" := Directory; "out/bob" := Directory;
                 "out/bob/Videos" := Directory;
                 clip_path := RegFile (bytes_of "truncated") ]};
     read_denied := ∅; write_denied := ∅; unlink_denied := denied;
     write_fault := ∅; lock_busy := ∅ |}.

Definition sample_repair (denied : gset string) :=
  RepairManager.repair_videos clip_web sample_urlparse_path MediaDownloader.Fcntl
    sample_json_load (fun p => p) "InvalidVideos.json" sample_config true false
    (MediaDownloader.init sample_config (repair_os denied) tt).

(** A report whose one entry names the report file itself as the file to
    delete, repaired on a web where every request fails. *)
Definition self_listing_json : json :=
  JDict [("generated_at", JStr "2025-01-01T00:00:00Z");
         ("creators",
          JDict [("bob", JList [JDict [("filename", JStr "gone.mp4");
                                       ("path", JStr "InvalidVideos.json");
                                       ("frames", JInt 0);
                                       ("duration", JFloat 0%float)]])])].

Definition self_listing_repair :=
  RepairManager.repair_videos dead_web sample_urlparse_path MediaDownloader.Fcntl
    (fun _ => Some self_listing_json) (fun p => p) "InvalidVideos.json" sample_config
    true false (MediaDownloader.init sample_config (repair_os ∅) tt).

(** The failing download of the clip on the dead web, step by step. *)
Definition dead_start := MediaDownloader.init sample_config empty_os tt.
Definition dead_dirs : os_state :=
  match MediaDownloader.get_output_path sample_urlparse_path sample_config "bob"
          clip_url empty_os with
  | Ok (_, o) => o
  | Raise _ => empty_os
  end.
Definition dead_try :=
  MediaDownloader.try_download dead_web MediaDownloader.Fcntl sample_config clip_url
    clip_path (MediaDownloader.set_os dead_start dead_dirs).

(** A folder with a PNG image under a [.jpg] name and a text file. *)
Definition images_os (extra : gmap string node) (denied : gset string) : os_state :=
  {| nodes := {[ "out" := Directory; "out/bob" := Directory;
                 "out/bob/Images" := Directory;
                 "out/bob/Images/pic.jpg" := RegFile png_bytes;
                 "out/bob/Images/notes.txt" := RegFile (bytes_of "plain text") ]} ∪ extra;
     read_denied := ∅; write_denied := ∅; unlink_denied := denied;
     write_fault := ∅; lock_busy := ∅ |}.

(** A download function that fails every time and counts its calls. *)
Definition failing_download (_ : ApiItem) (_ _ : string) (calls : nat)
    : outcome bool * nat :=
  (Ok false, S calls).

Definition sample_item : ApiItem := mkItem (Some "https://image.civitai.com/x/clip.mp4").

Definition sample_retry_config (N : Z) : RetryQueue.RetryQueueConfig :=
  RetryQueue.mkConfig N (float_of_Z 5) 60.

(** ** Correction summary (src/core/extension_tracker.py) *)

(** The separator of the summary keys: a space, the arrow U+2192 in UTF-8,
    a space. *)
Definition arrow : string :=
  String " " (String (ascii_of_nat 226) (String (ascii_of_nat 134)
    (String (ascii_of_nat 146) (String " " "")))).

Definition summary_key (v : string * string) : string := v.1 +:+ arrow +:+ v.2.

(** [summary[key] = summary.get(key, 0) + 1] *)
Definition summary_add (summary : gmap string Z) (v : string * string) : gmap string Z :=
  let key := summary_key v in
  <[key := default 0 (summary !! key) + 1]> summary.

(** [get_summary]: the loop over [self._corrections.values()]. *)
Definition get_summary (tr : ExtensionCorrectionTracker.corrections) : gmap string Z :=
  foldl summary_add ∅ (map_to_list tr).*2.

(** ** Writing the report (src/core/repair_manager.py) *)

(** [c.isspace()] on ASCII text *)
Definition is_space (c : ascii) : bool :=
  let n := nat_of_ascii c in
  ((9 <=? n)%nat && (n <=? 13)%nat) || ((28 <=? n)%nat && (n <=? 32)%nat).

Fixpoint lstrip (s : string) : string :=
  match s with
  | EmptyString => EmptyString
  | String c s' => if is_space c then lstrip s' else s
  end.

(** [s.strip()] *)
Definition strip (s : string) : string :=
  string_rev (lstrip (string_rev (lstrip s))).

(** The [while True] loop around [input()] of [save_report]: [responses]
    are the lines the user types, [None] stands for the [EOFError] that
    [input()] raises when there are no more. *)
Fixpoint ask_overwrite (responses : list string) : option bool :=
  match responses with
  | [] => None
  | r :: rest =>
      let response := lower (strip r) in
      if bool_decide (response ∈ ["yes"; "y"]) then Some true
      else if bool_decide (response ∈ ["no"; "n"]) then Some false
      else ask_overwrite rest
  end.

Section SaveReport.

(** [json.dump(report, f, indent=2)]: the chunks it writes to [f]. *)
Variable json_dump : json -> list (list byte).
(** [datetime.now(timezone.utc).isoformat().replace('+00:00', 'Z')] *)
Variable now : string.

(** The dict that [save_report] dumps. *)
Definition report_of (invalids : list (string * list json)) : json :=
  JDict [("generated_at", JStr now);
         ("creators", JDict (map (fun kv => (kv.1, JList kv.2)) invalids))].

(** [save_report]: [IOError] is [OSError]; any other exception leaves the
    function. *)
Definition save_report (o : os_state) (invalids : list (string * list json))
    (report_path : string) (auto_yes : bool) (responses : list string)
    : outcome bool * os_state :=
  let write : outcome bool * os_state :=
    match open_wb o report_path with
    | Raise (OSError _) => (Ok false, o)
    | Raise e => (Raise e, o)
    | Ok o1 =>
        match write_chunks o1 report_path (json_dump (report_of invalids)) None with
        | (Ok _, o2) => (Ok true, o2)
        | (Raise (OSError _), o2) => (Ok false, o2)
        | (Raise e, o2) => (Raise e, o2)
        end
    end in
  if path_exists o report_path && negb auto_yes then
    match ask_overwrite responses with
    | Some true => write
    | Some false => (Ok false, o)
    | None => (Raise (PlainException "EOFError"), o)
    end
  else write.

End SaveReport.

(** ** Matching files by base name (src/utilities/file_matcher.py) *)

Module FileMatcherUtil.

Definition extract_base_name (filename : string) : string :=
  lower (path_stem filename).

(** The test of the loop body of [find_file_by_base_name]. *)
Definition matches (o : os_state) (target_base : string) (valid_extensions : list string)
    (file_path : string) : bool :=
  is_file o file_path
  && bool_decide (extract_base_name (path_name file_path) = target_base)
  && bool_decide (lower (path_suffix file_path) ∈ map lower valid_extensions).

Definition find_file_by_base_name (o : os_state) (folder filename : string)
    (valid_extensions : list string) : option string :=
  if negb (path_exists o folder) || negb (is_dir o folder) then None
  else
    let target_base := extract_base_name filename in
    List.find (matches o target_base valid_extensions) (iterdir o folder).

Definition file_exists_ignoring_extension (o : os_state) (folder filename : string)
    (valid_extensions : list string) : bool :=
  match find_file_by_base_name o folder filename valid_extensions with
  | Some _ => true
  | None => false
  end.

End FileMatcherUtil.

(** ** Counting and filtering items (src/models/config.py,
       src/core/file_manager.py, src/core/processor.py) *)

Module FileManager.

Record MediaTypeConfig : Type := mkMediaTypes {
  images : bool;
  videos : bool;
  other : bool
}.

Definition to_dict (m : MediaTypeConfig) : list (string * bool) :=
  [("images", images m); ("videos", videos m); ("other", other m)].

(** [d.get(k, default)] *)
Fixpoint dict_get_default (k : string) (d : list (string * bool)) (dflt : bool) : bool :=
  match d with
  | [] => dflt
  | (k', v) :: d' => if bool_decide (k' = k) then v else dict_get_default k d' dflt
  end.

(** The dict [{"videos": _, "images": _, "other": _}] of
    [count_items_by_type]. *)
Record type_counts : Type := mkCounts {
  count_videos : Z;
  count_images : Z;
  count_other : Z
}.

Section Items.

Variable urlparse_path : string -> string.
Variable cfg : MediaDownloader.config.
(** [load_ignore_list]: the names listed in the creator's ignore.txt. *)
Variable load_ignore_list : os_state -> string -> gset string.

Definition media_type_of (url : string) : string :=
  media_type_from_extension (get_extension_from_url urlparse_path url)
    (MediaDownloader.image_extensions cfg) (MediaDownloader.video_extensions cfg).

Definition count_item (counts : type_counts) (item : ApiItem) : type_counts :=
  match usable_url item with
  | None => counts
  | Some url =>
      let media_type_folder := media_type_of url in
      if bool_decide (media_type_folder = "Videos")
      then mkCounts (count_videos counts + 1) (count_images counts) (count_other counts)
      else if bool_decide (media_type_folder = "Images")
      then mkCounts (count_videos counts) (count_images counts + 1) (count_other counts)
      else mkCounts (count_videos counts) (count_images counts) (count_other counts + 1)
  end.

Definition count_items_by_type (items : list ApiItem) : type_counts :=
  foldl count_item (mkCounts 0 0 0) items.

(** [CreatorProcessor._count_media_types]: (images_count, videos_count) *)
Definition _count_media_types (items : list ApiItem) : Z * Z :=
  foldl (fun c item =>
           match usable_url item with
           | None => c
           | Some url =>
               let media_type := media_type_of url in
               if bool_decide (media_type = "Images") then (c.1 + 1, c.2)
               else if bool_decide (media_type = "Videos") then (c.1, c.2 + 1)
               else c
           end) (0, 0) items.

Definition filter_items_by_media_type (items : list ApiItem)
    (media_config : MediaTypeConfig) : list ApiItem :=
  let media_dict := to_dict media_config in
  foldl (fun filtered_items item =>
           match usable_url item with
           | None => filtered_items
           | Some url =>
               let media_type_key := lower (media_type_of url) in
               if dict_get_default media_type_key media_dict false
               then (filtered_items ++ [item])%list
               else filtered_items
           end) [] items.

(** [items_by_folder.setdefault(folder, []).append(entry)] on a dict given
    by its items in insertion order. *)
Fixpoint group_add (folder : string) (entry : string * ApiItem)
    (groups : list (string * list (string * ApiItem)))
    : list (string * list (string * ApiItem)) :=
  match groups with
  | [] => [(folder, [entry])]
  | (f, entries) :: rest =>
      if bool_decide (f = folder) then (f, (entries ++ [entry])%list) :: rest
      else (f, entries) :: group_add folder entry rest
  end.

(** The first loop of [filter_existing_files]. *)
Definition group_items (items : list ApiItem) (creator : string)
    (ignore_enabled : bool) (ignored_files : gset string)
    : list (string * list (string * ApiItem)) :=
  foldl (fun items_by_folder item =>
           match item_url item with
           | None => items_by_folder
           | Some url =>
               let filename := safe_filename_from_url urlparse_path url in
               if ignore_enabled && bool_decide (filename ∈ ignored_files)
               then items_by_folder
               else
                 let media_folder :=
                   path_join (MediaDownloader.get_creator_path cfg creator)
                     (media_type_of url) in
                 group_add media_folder (filename, item) items_by_folder
           end) [] items.

(** The scan of one folder: the base names of its regular files with a
    valid extension. *)
Definition scan_bases (o : os_state) (folder_path : string)
    (valid_exts_lower : list string) : gset string :=
  if path_exists o folder_path && is_dir o folder_path
  then foldl (fun existing_bases file_path =>
                if negb (is_file o file_path) then existing_bases
                else if bool_decide (lower (path_suffix file_path) ∈ valid_exts_lower)
                then existing_bases
                       ∪ {[FileMatcherUtil.extract_base_name (path_name file_path)]}
                else existing_bases) ∅ (iterdir o folder_path)
  else ∅.

(** [filter_existing_files]: the items to download and the folder scan
    cache afterwards. *)
Definition filter_existing_files (items : list ApiItem) (creator : string)
    (ignore_enabled : bool) (o : os_state) (cache : gmap string (gset string))
    : list ApiItem * gmap string (gset string) :=
  let ignored_files : gset string :=
    if ignore_enabled then load_ignore_list o creator else ∅ in
  let all_extensions :=
    (MediaDownloader.image_extensions cfg ++ MediaDownloader.video_extensions cfg)%list in
  let items_by_folder := group_items items creator ignore_enabled ignored_files in
  let valid_exts_lower := map lower all_extensions in
  foldl (fun '(result, cache) '(folder_path_str, entries) =>
           let '(existing_bases, cache') :=
             match cache !! folder_path_str with
             | Some bases => (bases, cache)
             | None =>
                 let bases := scan_bases o folder_path_str valid_exts_lower in
                 (bases, <[folder_path_str := bases]> cache)
             end in
           (foldl (fun result '(filename, item) =>
                     if bool_decide (FileMatcherUtil.extract_base_name filename
                                     ∈ existing_bases)
                     then result else (result ++ [item])%list)
              result entries,
            cache'))
    ([], cache) items_by_folder.

End Items.

End FileManager.

(** ** Further predicates of the statements *)

(** [c] does not occur in [s]. *)
Fixpoint no_char (c : ascii) (s : string) : Prop :=
  match s with
  | EmptyString => True
  | String d s' => d <> c /\ no_char c s'
  end.

Section Answers.

Context {Net : Type}.
Variable requests_get : string -> Net -> outcome response * Net.

(** What the first [n] calls of [requests.get] on [url] give, one after the
    other. *)
Fixpoint answers (n : nat) (url : string) (net : Net) : list (outcome response) :=
  match n with
  | O => []
  | S n' => let '(r, net1) := requests_get url net in r :: answers n' url net1
  end.

End Answers.

(** What one turn of the loop of [request_with_retries] makes of the answer
    of [requests.get]: the user-not-found check, then [raise_for_status]. *)
Definition verdict (r : outcome response) : outcome response :=
  match r with
  | Raise e => Raise e
  | Ok resp =>
      if user_not_found resp then Raise (UserNotFoundError "unknown")
      else match http_error resp with
           | Some m => Raise (RequestException m)
           | None => Ok resp
           end
  end.

(** The answers after which the loop tries again, attempts permitting: an
    [Exception] other than [UserNotFoundError]. *)
Definition retriable (r : outcome response) : bool :=
  match verdict r with
  | Ok _ => false
  | Raise (UserNotFoundError _) => false
  | Raise e => is_Exception e
  end.

(** A server that times out [k] times and then serves [body]; its state
    counts the requests. *)
Definition flaky_web (k : nat) (body : list byte) (_ : string) (n : nat)
    : outcome response * nat :=
  if (n <? k)%nat then (Raise (RequestException "timed out"), S n)
  else (Ok (serve body), S n).

(** The download function fails as many times as [left] says of its state
    (returning [False] or raising an [Exception]) and succeeds from then
    on. *)
Definition fails_times {Env : Type}
    (download_func : ApiItem -> string -> string -> Env -> outcome bool * Env)
    (left : Env -> nat) : Prop :=
  forall it cr p env,
    let r := download_func it cr p env in
    match left env with
    | O => fst r = Ok true
    | S j =>
        match fst r with
        | Ok b => b = false
        | Raise e => is_Exception e = true
        end
        /\ left (snd r) = j
    end.

(** A download function that fails as many times as its state says. *)
Definition flaky_download (_ : ApiItem) (_ _ : string) (left : nat)
    : outcome bool * nat :=
  match left with
  | O => (Ok true, O)
  | S j => (Ok false, j)
  end.

(** The totals of [get_stats] added up. *)
Definition stats_total (s : RetryQueue.stats) : Z :=
  RetryQueue.pending s + RetryQueue.successful s + RetryQueue.failed s.

(** A file extension as the tables have them: a dot followed by at least one
    character, none of them a dot or a slash, all in lower case. *)
Definition wf_ext (ext : string) : bool :=
  match ext with
  | String c e =>
      bool_decide (c = dot) && negb (bool_decide (e = ""))
      && bool_decide (find_char dot e = None) && bool_decide (find_char slash e = None)
      && bool_decide (lower ext = ext)
  | EmptyString => false
  end.

(** One item moves the counters by at most one download, of at most one
    kind. *)
Definition counted (c c' : MediaDownloader.counters) (k : Z) : Prop :=
  let '(n, i, v) := c in
  let '(n', i', v') := c' in
  n <= n' /\ n' <= n + k /\ i <= i' /\ v <= v' /\ (i' - i) + (v' - v) <= n' - n.

(** The HTTP requests among the events. *)
Definition is_get (ev : event) : bool :=
  match ev with EvGet _ => true | _ => false end.

(** The three folders of a creator. *)
Definition media_folders (cfg : MediaDownloader.config) (creator : string) : list string :=
  map (path_join (path_join (MediaDownloader.output_folder cfg) creator))
    ["Images"; "Videos"; "Other"].

(** Every regular file of [o'] is a file of [o] with the same content, or
    lies directly in one of the [folders]. *)
Definition confined (folders : list string) (o o' : os_state) : Prop :=
  forall p data,
    nodes o' !! p = Some (RegFile data) ->
    nodes o !! p = Some (RegFile data) \/ path_parent p ∈ folders.

(** Whether a media type is enabled, read off the fields of the
    configuration. *)
Definition enabled (m : FileManager.MediaTypeConfig) (media_type : string) : bool :=
  if bool_decide (media_type = "Images") then FileManager.images m
  else if bool_decide (media_type = "Videos") then FileManager.videos m
  else FileManager.other m.

(** The items that [filter_items_by_media_type] is to keep. *)
Definition wanted (urlparse_path : string -> string) (cfg : MediaDownloader.config)
    (m : FileManager.MediaTypeConfig) (item : ApiItem) : bool :=
  match usable_url item with
  | Some url => enabled m (FileManager.media_type_of urlparse_path cfg url)
  | None => false
  end.

(** What one turn, or any number of turns, does to the books. *)
Definition accounted (q q' : RetryQueue.t) (tr : list RetryQueue.FailedDownload) : Prop :=
  RetryQueue.config q' = RetryQueue.config q
  /\ RetryQueue.stop_event q' = RetryQueue.stop_event q
  /\ Z.of_nat (length (RetryQueue.queue q')) + RetryQueue.successful_retries q'
       + Z.of_nat (length (RetryQueue.permanently_failed q'))
     = Z.of_nat (length (RetryQueue.queue q)) + RetryQueue.successful_retries q
       + Z.of_nat (length (RetryQueue.permanently_failed q))
  /\ RetryQueue.successful_retries q <= RetryQueue.successful_retries q'
  /\ exists l,
       RetryQueue.permanently_failed q' = RetryQueue.permanently_failed q ++ l
       /\ Forall (fun f => RetryQueue.max_retries (RetryQueue.config q) <= RetryQueue.retry_count f) l
       /\ (RetryQueue.successful_retries q' - RetryQueue.successful_retries q) + Z.of_nat (length l)
          <= Z.of_nat (length tr).

(** The entry belongs to the group of the folder. *)
Definition in_groups (groups : list (string * list (string * ApiItem)))
    (folder : string) (entry : string * ApiItem) : Prop :=
  exists entries, (folder, entries) ∈ groups /\ entry ∈ entries.

(** The base names a folder is taken to hold: those of the cached scan if
    there is one, else those of a scan now. *)
Definition bases_of (cfg : MediaDownloader.config) (o : os_state)
    (cache : gmap string (gset string)) (folder : string) : gset string :=
  match cache !! folder with
  | Some bases => bases
  | None =>
      FileManager.scan_bases o folder
        (map lower (MediaDownloader.image_extensions cfg
                    ++ MediaDownloader.video_extensions cfg)%list)
  end.

(** Nothing is lost from [o] to [o']: every content that a regular file had
    is the content of a regular file afterwards, the directories are the
    same, and so are the operating system's refusals. *)
Definition content_kept (o o' : os_state) : Prop :=
  (forall p data, nodes o !! p = Some (RegFile data) ->
                  exists p', nodes o' !! p' = Some (RegFile data))
  /\ (forall p, nodes o !! p = Some Directory <-> nodes o' !! p = Some Directory)
  /\ same_faults o o'.

(** A single path component that [Path(p) / name] appends as it is: not
    empty, not ["."], without a slash. *)
Definition plain_component (name : string) : bool :=
  negb (bool_decide (name = "")) && negb (bool_decide (name = "."))
  && bool_decide (find_char slash name = None).

(** The pieces of a path between its slashes. *)
Fixpoint components (p : string) : list string :=
  match p with
  | EmptyString => [EmptyString]
  | String c p' =>
      if bool_decide (c = slash) then EmptyString :: components p'
      else match components p' with
           | h :: t => String c h :: t
           | [] => [String c EmptyString]
           end
  end.

(** A path as [str(Path(...))] gives it, to which [/] appends by writing a
    slash and the name: relative or absolute, every component plain, and
    neither ["."] nor the root itself. *)
Definition normal_path (p : string) : bool :=
  match components p with
  | first :: rest =>
      ((bool_decide (first = "") && negb (bool_decide (rest = [])))
       || plain_component first)
      && forallb plain_component rest
  | [] => false
  end.

(** * Properties *)

(** ** File-system lemmas *)

Lemma same_faults_refl o : same_faults o o.
Proof. repeat split. Qed.

Lemma same_faults_trans o1 o2 o3 :
  same_faults o1 o2 -> same_faults o2 o3 -> same_faults o1 o3.
Proof. intros (?&?&?&?&?) (?&?&?&?&?). repeat split; congruence. Qed.

Lemma same_faults_set_nodes o m : same_faults o (set_nodes o m).
Proof. repeat split. Qed.

Lemma grows_refl o : grows o o.
Proof. split; [apply same_faults_refl|]. split; auto. Qed.

Lemma grows_trans o1 o2 o3 : grows o1 o2 -> grows o2 o3 -> grows o1 o3.
Proof.
  intros (F1 & K1 & N1) (F2 & K2 & N2).
  split; [eapply same_faults_trans; eassumption|]. split; [auto|].
  intros p Hp. destruct (N1 p Hp) as [H|H]; [auto|]. right. auto.
Qed.

Lemma grows_files o o' p data :
  grows o o' -> (nodes o' !! p = Some (RegFile data) <-> nodes o !! p = Some (RegFile data)).
Proof.
  intros (_ & K & N). split; [|apply K].
  intros H. destruct (nodes o !! p) as [x|] eqn:Hp.
  - apply K in Hp. congruence.
  - destruct (N p Hp); congruence.
Qed.

Lemma grows_exists o o' p : grows o o' -> path_exists o p = true -> path_exists o' p = true.
Proof.
  intros (_ & K & _). unfold path_exists. rewrite !bool_decide_eq_true.
  intros [x Hx]. exists x. auto.
Qed.

Lemma mkdir_one_raise e l : foldl mkdir_one (Raise e) l = Raise e.
Proof. induction l as [|d l IH]; [reflexivity|exact IH]. Qed.

Lemma mkdir_one_grows o d o1 : mkdir_one (Ok o) d = Ok o1 -> grows o o1.
Proof.
  unfold mkdir_one. destruct (nodes o !! d) as [[data|]|] eqn:Hd; try discriminate.
  - intros [= <-]. apply grows_refl.
  - case_bool_decide; [discriminate|]. intros [= <-].
    split; [apply same_faults_set_nodes|]. cbn. split.
    + intros p x Hp. rewrite lookup_insert_ne; [exact Hp|congruence].
    + intros p Hp. destruct (decide (d = p)) as [->|Hne].
      * right. apply lookup_insert_eq.
      * left. rewrite lookup_insert_ne by exact Hne. exact Hp.
Qed.

Lemma mkdir_fold_grows l o o1 : foldl mkdir_one (Ok o) l = Ok o1 -> grows o o1.
Proof.
  revert o. induction l as [|d l IH]; intros o.
  - intros [= <-]. apply grows_refl.
  - cbn [foldl]. destruct (mkdir_one (Ok o) d) as [o2|e] eqn:H2.
    + intros H. eapply grows_trans; [eapply mkdir_one_grows; exact H2|exact (IH _ H)].
    + rewrite mkdir_one_raise. discriminate.
Qed.

Lemma mkdir_p_grows o p o1 : mkdir_p o p = Ok o1 -> grows o o1.
Proof. apply mkdir_fold_grows. Qed.

(** Creating directories succeeds all the more when some of them exist. *)
Lemma mkdir_one_mono o o' d o1 :
  grows o o' -> mkdir_one (Ok o) d = Ok o1 ->
  exists o1', mkdir_one (Ok o') d = Ok o1' /\ grows o1 o1'.
Proof.
  intros Hg. pose proof Hg as (F & K & N). unfold mkdir_one.
  destruct (nodes o !! d) as [[data|]|] eqn:Hd; try discriminate.
  - intros [= <-]. rewrite (K _ _ Hd). eauto.
  - case_bool_decide as Hw; [discriminate|]. intros [= <-].
    destruct (N d Hd) as [Hn|Hn]; rewrite Hn.
    + destruct F as (_ & Fw & _). rewrite Fw.
      rewrite bool_decide_eq_false_2 by exact Hw. eexists. split; [reflexivity|].
      split; [|cbn; split].
      * destruct Hg as ((?&?&?&?&?) & _). repeat split; cbn; assumption.
      * intros p x. destruct (decide (d = p)) as [->|Hne].
        -- rewrite !lookup_insert_eq. auto.
        -- rewrite !lookup_insert_ne by exact Hne. auto.
      * intros p. destruct (decide (d = p)) as [->|Hne].
        -- rewrite !lookup_insert_eq. discriminate.
        -- rewrite !lookup_insert_ne by exact Hne. auto.
    + exists o'. split; [reflexivity|].
      split; [|cbn; split].
      * destruct Hg as ((?&?&?&?&?) & _). repeat split; cbn; assumption.
      * intros p x. destruct (decide (d = p)) as [->|Hne].
        -- rewrite lookup_insert_eq. congruence.
        -- rewrite lookup_insert_ne by exact Hne. auto.
      * intros p. destruct (decide (d = p)) as [->|Hne].
        -- rewrite lookup_insert_eq. discriminate.
        -- rewrite lookup_insert_ne by exact Hne. auto.
Qed.

Lemma mkdir_fold_mono l o o' o1 :
  grows o o' -> foldl mkdir_one (Ok o) l = Ok o1 ->
  exists o1', foldl mkdir_one (Ok o') l = Ok o1' /\ grows o1 o1'.
Proof.
  revert o o'. induction l as [|d l IH]; intros o o' Hg.
  - intros [= <-]. eauto.
  - cbn [foldl]. destruct (mkdir_one (Ok o) d) as [o2|e] eqn:H2.
    + destruct (mkdir_one_mono _ _ _ _ Hg H2) as (o2' & -> & Hg2). eauto.
    + rewrite mkdir_one_raise. discriminate.
Qed.

Lemma mkdir_p_mono o o' p o1 :
  grows o o' -> mkdir_p o p = Ok o1 -> exists o1', mkdir_p o' p = Ok o1' /\ grows o1 o1'.
Proof. apply mkdir_fold_mono. Qed.

(** ** Retry queue *)

Section RetryQueueProofs.

Import RetryQueue.
Context {Env : Type}.
Variable download_func : ApiItem -> string -> string -> Env -> outcome bool * Env.

Lemma worker_idle (n : nat) (q : t) (env : Env) :
  queue q = [] -> _worker_loop download_func n q env = ([], (Ok q, env)).
Proof.
  revert q env. induction n as [|n IH]; intros q env Hq; [reflexivity|].
  cbn [_worker_loop]. destruct (stop_event q); [reflexivity|].
  unfold worker_turn, _get_next_item. rewrite Hq.
  rewrite (IH q env Hq). reflexivity.
Qed.

(** One failing attempt on a queue that holds a single entry. *)
Lemma process_failing (f : FailedDownload) (q : t) (env : Env) :
  always_fails download_func ->
  (exists f' env',
    same_download f f' /\ retry_count f' = retry_count f + 1 /\
    _process_item download_func f q env =
      (Ok (if max_retries (config q) <=? retry_count f + 1
           then mkQueue (config q) (queue q) (successful_retries q)
                  (permanently_failed q ++ [f']) (is_running q) (stop_event q)
           else set_queue q (queue q ++ [f'])), env')).
Proof.
  intros Hf. unfold _process_item.
  specialize (Hf (item f) (creator f) (out_path f) env).
  destruct (download_func (item f) (creator f) (out_path f) env) as [r env'].
  cbn [fst] in Hf. destruct r as [b|e].
  - subst b. exists (set_retry f (retry_count f + 1)), env'.
    split; [repeat split|]. split; [reflexivity|].
    cbn. destruct (max_retries (config q) <=? retry_count f + 1); reflexivity.
  - rewrite Hf.
    exists (set_retry (set_error f (exn_str e)) (retry_count f + 1)), env'.
    split; [repeat split|]. split; [reflexivity|].
    cbn. destruct (max_retries (config q) <=? retry_count f + 1); reflexivity.
Qed.

(** From a queue holding one entry with retry count [c], the worker makes
    [max 1 (N - c)] attempts and then files the entry as permanently failed. *)
Lemma worker_drains (m : nat) :
  always_fails download_func ->
  forall (f : FailedDownload) (q : t) (env : Env) (n : nat),
    queue q = [f] -> stop_event q = false ->
    m = Z.to_nat (max_retries (config q) - 1 - retry_count f) ->
    (S m <= n)%nat ->
    exists f' env',
      same_download f f' /\
      retry_count f' = Z.max (max_retries (config q)) (retry_count f + 1) /\
      Forall (same_download f) (fst (_worker_loop download_func n q env)) /\
      length (fst (_worker_loop download_func n q env)) = S m /\
      snd (_worker_loop download_func n q env) =
        (Ok (mkQueue (config q) [] (successful_retries q)
               (permanently_failed q ++ [f']) (is_running q) false), env').
Proof.
  intros Hf. induction m as [|m IH]; intros f q env n Hq Hs Hm Hn.
  - destruct n as [|n]; [lia|].
    cbn [_worker_loop]. rewrite Hs. unfold worker_turn, _get_next_item. rewrite Hq.
    destruct (process_failing f (set_queue q nil) env Hf) as (f' & env' & Hsame & Hrc & Hp).
    rewrite Hp. cbn [config set_queue].
    assert (Hle : (max_retries (config q) <=? retry_count f + 1) = true) by (apply Z.leb_le; lia).
    rewrite Hle. rewrite worker_idle by reflexivity.
    exists f', env'. cbn. rewrite Hs. repeat split; try apply Hsame.
    + lia.
    + constructor; [|constructor]. repeat split.
  - destruct n as [|n]; [lia|].
    cbn [_worker_loop]. rewrite Hs. unfold worker_turn, _get_next_item. rewrite Hq.
    destruct (process_failing f (set_queue q nil) env Hf) as (f1 & env1 & Hsame & Hrc & Hp).
    rewrite Hp. cbn [config set_queue queue].
    assert (Hle : (max_retries (config q) <=? retry_count f + 1) = false) by (apply Z.leb_gt; lia).
    rewrite Hle. cbn [app].
    match goal with |- context [_worker_loop _ n ?q0 _] => set (q1 := q0) end.
    destruct (IH f1 q1 env1 n) as (f' & env' & Hsame' & Hrc' & Hall & Hlen & Hres);
      [reflexivity|exact Hs|cbn; lia|lia|].
    destruct (_worker_loop download_func n q1 env1) as [tr r].
    cbn [fst snd] in *. exists f', env'.
    destruct Hsame as (?&?&?&?), Hsame' as (?&?&?&?).
    repeat split; try congruence.
    + rewrite Hrc'. subst q1. cbn. lia.
    + constructor; [repeat split|].
      eapply Forall_impl; [exact Hall|]. intros x (?&?&?&?). repeat split; congruence.
    + cbn. lia.
    + rewrite Hres. reflexivity.
Qed.

(** C1 (amended).  An item added to a fresh retry queue with
    [max_retries = N] enters with [retry_count = 1]; with a download function
    that always fails the worker makes exactly [max 1 (N - 1)] download
    attempts on it (for [N >= 2]: [N - 1], which with the failed download
    that caused [add] makes [N] in all), then moves it to the permanently
    failed list with [retry_count = max N 2]; from then on [get_stats]
    reports [failed = 1], [pending = 0], and however long the worker keeps
    running the item is not attempted again. *)
Theorem retry_queue_gives_up (cfg : RetryQueueConfig) (it : ApiItem)
    (cr u out err : string) (env : Env) (n : nat) :
  always_fails download_func ->
  (Z.to_nat (Z.max 1 (max_retries cfg - 1)) <= n)%nat ->
  exists (q' : t) (f' : FailedDownload) (env' : Env),
    let run := _worker_loop download_func n (add (init cfg) it cr u out err) env in
    snd run = (Ok q', env') /\
    length (fst run) = Z.to_nat (Z.max 1 (max_retries cfg - 1)) /\
    Forall (fun a => item a = it /\ creator a = cr /\ out_path a = out) (fst run) /\
    permanently_failed q' = [f'] /\
    (item f' = it /\ creator f' = cr /\ url f' = u /\ out_path f' = out) /\
    retry_count f' = Z.max (max_retries cfg) 2 /\
    get_stats q' = {| pending := 0; successful := 0; failed := 1 |}.
Proof.
  intros Hf Hn.
  set (f0 := mkFailed it cr u out 1 err).
  destruct (worker_drains (Z.to_nat (max_retries cfg - 1 - 1)) Hf f0
              (add (init cfg) it cr u out err) env n)
    as (f' & env' & Hsame & Hrc & Hall & Hlen & Hres);
    [reflexivity|reflexivity|reflexivity|cbn in *; lia|].
  eexists _, f', env'. cbn zeta. split; [exact Hres|].
  destruct Hsame as (Hi & Hc & Hu & Ho). cbn in Hi, Hc, Hu, Ho.
  repeat split; try congruence.
  - rewrite Hlen. cbn. lia.
  - eapply Forall_impl; [exact Hall|]. intros a (?&?&?&?). cbn in *. repeat split; congruence.
  - rewrite Hrc. cbn. lia.
Qed.

End RetryQueueProofs.

(** C1, at [max_retries = 4] with seven worker turns: three attempts. *)
Lemma retry_queue_gives_up_witness :
  exists (q' : RetryQueue.t) (f' : RetryQueue.FailedDownload) (env' : nat),
    let run := RetryQueue._worker_loop failing_download 7
                 (RetryQueue.add (RetryQueue.init (sample_retry_config 4)) sample_item
                    "bob" "https://image.civitai.com/x/clip.mp4" "out/bob/Videos/clip.mp4"
                    "timeout") O in
    snd run = (Ok q', env') /\
    length (fst run) = Z.to_nat (Z.max 1 (4 - 1)) /\
    Forall (fun a => RetryQueue.item a = sample_item /\ RetryQueue.creator a = "bob"
                     /\ RetryQueue.out_path a = "out/bob/Videos/clip.mp4") (fst run) /\
    RetryQueue.permanently_failed q' = [f'] /\
    (RetryQueue.item f' = sample_item /\ RetryQueue.creator f' = "bob"
     /\ RetryQueue.url f' = "https://image.civitai.com/x/clip.mp4"
     /\ RetryQueue.out_path f' = "out/bob/Videos/clip.mp4") /\
    RetryQueue.retry_count f' = Z.max 4 2 /\
    RetryQueue.get_stats q' = {| RetryQueue.pending := 0; RetryQueue.successful := 0;
                                RetryQueue.failed := 1 |}.
Proof.
  apply (retry_queue_gives_up failing_download (sample_retry_config 4)).
  - intros it cr p env. reflexivity.
  - vm_compute. lia.
Defined.

(** C1 as stated fails: with [max_retries = 3] the item is permanently failed
    after two attempts by the queue, not three, however long the worker runs. *)
Lemma retry_queue_attempts_counterexample :
  let run := RetryQueue._worker_loop failing_download 10
               (RetryQueue.add (RetryQueue.init (sample_retry_config 3)) sample_item
                  "bob" "https://image.civitai.com/x/clip.mp4" "out/bob/Videos/clip.mp4"
                  "timeout") O in
  length (fst run) = 2%nat /\ length (fst run) <> 3%nat /\ snd (snd run) = 2%nat /\
  exists q', fst (snd run) = Ok q' /\
    RetryQueue.get_stats q' = {| RetryQueue.pending := 0; RetryQueue.successful := 0;
                                RetryQueue.failed := 1 |}.
Proof.
  cbv zeta. split; [reflexivity|]. split; [vm_compute; lia|]. split; [reflexivity|].
  eexists. split; reflexivity.
Qed.

(** ** Video validity *)

(** C2.  On a probe result (frames, duration, codec) [validate_video]
    decides in this order: a codec that is one of the image codecs webp,
    png, jpeg, mjpeg, gif, bmp is invalid; otherwise vp9 is valid whatever
    the duration and the frame count; otherwise a duration [<= 0] is
    invalid; otherwise a frame count [<= 1] is invalid; otherwise the file
    is valid.  The frame count and the duration are returned as probed.  The
    image codecs of the code are exactly these six names, and each of them
    is invalid whatever the frame count and the duration, also where every
    later rule would say valid.  In particular, for a codec such as h264:
    duration 5.0 with 1 frame is invalid, with 2 frames valid; duration 0 is
    valid for vp9 and invalid for h264. *)
Theorem validate_video_decision_order :
  (forall (get_video_info : os_state -> string -> option VideoValidator.video_info)
          (o : os_state) (video_path : string) (frames : Z) (duration : float)
          (codec_name : string),
      get_video_info o video_path = Some (frames, duration, codec_name) ->
      exists is_valid : bool,
        VideoValidator.validate_video get_video_info o video_path
          = (is_valid, frames, duration) /\
        (codec_name ∈ ["webp"; "png"; "jpeg"; "mjpeg"; "gif"; "bmp"] ->
           is_valid = false) /\
        (codec_name ∉ ["webp"; "png"; "jpeg"; "mjpeg"; "gif"; "bmp"] ->
           codec_name = "vp9" -> is_valid = true) /\
        (codec_name ∉ ["webp"; "png"; "jpeg"; "mjpeg"; "gif"; "bmp"] ->
           codec_name <> "vp9" ->
           PrimFloat.leb duration 0%float = true -> is_valid = false) /\
        (codec_name ∉ ["webp"; "png"; "jpeg"; "mjpeg"; "gif"; "bmp"] ->
           codec_name <> "vp9" ->
           PrimFloat.leb duration 0%float = false -> frames <= 1 -> is_valid = false) /\
        (codec_name ∉ ["webp"; "png"; "jpeg"; "mjpeg"; "gif"; "bmp"] ->
           codec_name <> "vp9" ->
           PrimFloat.leb duration 0%float = false -> 1 < frames -> is_valid = true)) /\
  (forall codec_name,
      codec_name ∈ VideoValidator.IMAGE_CODECS
      <-> codec_name ∈ ["webp"; "png"; "jpeg"; "mjpeg"; "gif"; "bmp"]) /\
  (forall (frames : Z) (duration : float),
      VideoValidator.validate_info (Some (frames, duration, "webp"))
        = (false, frames, duration) /\
      VideoValidator.validate_info (Some (frames, duration, "png"))
        = (false, frames, duration) /\
      VideoValidator.validate_info (Some (frames, duration, "jpeg"))
        = (false, frames, duration) /\
      VideoValidator.validate_info (Some (frames, duration, "mjpeg"))
        = (false, frames, duration) /\
      VideoValidator.validate_info (Some (frames, duration, "gif"))
        = (false, frames, duration) /\
      VideoValidator.validate_info (Some (frames, duration, "bmp"))
        = (false, frames, duration)) /\
  VideoValidator.validate_info (Some (250, 10%float, "png")) = (false, 250, 10%float) /\
  VideoValidator.validate_info (Some (1, 5%float, "h264")) = (false, 1, 5%float) /\
  VideoValidator.validate_info (Some (2, 5%float, "h264")) = (true, 2, 5%float) /\
  (forall frames, VideoValidator.validate_info (Some (frames, 0%float, "vp9"))
                  = (true, frames, 0%float)) /\
  (forall frames, VideoValidator.validate_info (Some (frames, 0%float, "h264"))
                  = (false, frames, 0%float)).
Proof.
  split; [|split; [intros codec_name; reflexivity|repeat split; intros; reflexivity]].
  intros gvi o p frames duration codec Hinfo.
  unfold VideoValidator.validate_video, VideoValidator.validate_info. rewrite Hinfo.
  change VideoValidator.IMAGE_CODECS with ["webp"; "png"; "jpeg"; "mjpeg"; "gif"; "bmp"].
  case_bool_decide as Himg.
  { exists false. split; [reflexivity|]. repeat split; intros; try reflexivity; contradiction. }
  case_bool_decide as Hvp9.
  { exists true. split; [reflexivity|]. repeat split; intros; try reflexivity; contradiction. }
  destruct (PrimFloat.leb duration 0) eqn:Hdur.
  { exists false. split; [reflexivity|]. repeat split; intros; try reflexivity; try contradiction; discriminate. }
  destruct (frames <=? 1) eqn:Hfr.
  - apply Z.leb_le in Hfr.
    exists false. split; [reflexivity|]. repeat split; intros; try reflexivity; try contradiction; try discriminate; lia.
  - apply Z.leb_gt in Hfr.
    exists true. split; [reflexivity|]. repeat split; intros; try reflexivity; try contradiction; try discriminate; lia.
Qed.

(** C2, for a probe that reports two frames of h264 over five seconds, and
    for one that reports 250 frames of png over ten seconds. *)
Lemma validate_video_decision_order_witness :
  (exists is_valid : bool,
     VideoValidator.validate_video (fun _ _ => Some (2, 5%float, "h264")) empty_os
       "out/bob/Videos/clip.mp4" = (is_valid, 2, 5%float)
     /\ is_valid = true)
  /\ (exists is_valid : bool,
        VideoValidator.validate_video (fun _ _ => Some (250, 10%float, "png")) empty_os
          "out/bob/Videos/still.mp4" = (is_valid, 250, 10%float)
        /\ is_valid = false).
Proof.
  split.
  - destruct (proj1 validate_video_decision_order
                (fun _ _ => Some (2, 5%float, "h264")) empty_os "out/bob/Videos/clip.mp4"
                2 5%float "h264" eq_refl)
      as (v & Hv & _ & _ & _ & _ & Hvalid).
    exists v. split; [exact Hv|]. apply Hvalid.
    + apply (proj1 (bool_decide_eq_false _)). reflexivity.
    + discriminate.
    + reflexivity.
    + lia.
  - destruct (proj1 validate_video_decision_order
                (fun _ _ => Some (250, 10%float, "png")) empty_os "out/bob/Videos/still.mp4"
                250 10%float "png" eq_refl)
      as (v & Hv & Himage & _).
    exists v. split; [exact Hv|]. apply Himage.
    apply (proj1 (bool_decide_eq_true _)). reflexivity.
Defined.

(** ** Format sniffer *)

Import ExtensionHandler.

Lemma slice_take_header (l : list byte) : slice 4 8 (take 512 l) = slice 4 8 l.
Proof.
  unfold slice. change 512%nat with (4 + 508)%nat.
  rewrite <- take_drop_commute, take_take. reflexivity.
Qed.

(** The [ftyp] branch falls through when bytes 4 to 7 are not "ftyp". *)
Lemma ftyp_check_none (header : list byte) :
  slice 4 8 header <> bytes_of "ftyp" -> ftyp_check header = None.
Proof.
  intros H. unfold ftyp_check. rewrite (bool_decide_eq_false_2 _ H).
  rewrite andb_false_r. reflexivity.
Qed.

Ltac table_cases H :=
  apply list_elem_of_In in H; cbn [In SIGNATURES RIFF_SIGNATURES] in H;
  repeat (destruct H as [H|H]; [injection H as <- <-|]); [..|contradiction].

Lemma signature_with_trailing (sig trailing : list byte) (f : format) :
  (sig, f) ∈ SIGNATURES ->
  slice 4 8 (sig ++ trailing) <> bytes_of "ftyp" \/ (4 < length sig)%nat ->
  detect_content (sig ++ trailing) = Some f.
Proof.
  intros Hin Hcond. unfold detect_content.
  assert (Hft : ftyp_check (take 512 (sig ++ trailing)) = None
                \/ (4 < length sig)%nat).
  { destruct Hcond as [Hne|Hlen]; [left|right; exact Hlen].
    apply ftyp_check_none. rewrite slice_take_header. exact Hne. }
  clear Hcond. revert Hft.
  table_cases Hin.
  all: repeat match goal with
       | |- context [bytes_of ?s] =>
           let v := eval vm_compute in (bytes_of s) in change (bytes_of s) with v
       end.
  all: cbn [app length take].
  all: intros Hft; unfold detect_header.
  all: destruct Hft as [Hft|Hlen];
    [rewrite Hft; reflexivity
    |first [ exfalso; cbn in Hlen; lia
           | rewrite ftyp_check_none by (cbn; discriminate); reflexivity
           | reflexivity ]].
Qed.

Lemma riff_with_payload (form : list byte) (f : format) (s1 s2 s3 s4 b : byte)
    (trailing : list byte) :
  (form, f) ∈ RIFF_SIGNATURES ->
  detect_content (bytes_of "RIFF" ++ [s1; s2; s3; s4] ++ form ++ b :: trailing) = Some f.
Proof.
  intros Hin. unfold detect_content.
  table_cases Hin.
  all: repeat match goal with
       | |- context [bytes_of ?s] =>
           let v := eval vm_compute in (bytes_of s) in change (bytes_of s) with v
       end.
  all: cbn [app length take]; reflexivity.
Qed.

(** C3 (amended).  Every entry of the flat signature table is detected from
    a file that consists of exactly its magic bytes, and bytes appended to
    such a file do not change the result unless they put "ftyp" at offsets 4
    to 7 behind a signature of at most four bytes: the RIFF and ftyp checks
    are applied before the flat table, so what they return wins.  A RIFF
    envelope (four size bytes after "RIFF", then the form type) followed by
    at least one more byte is detected as the form type's entry of the RIFF
    table. *)
Theorem detect_format_signatures :
  (forall sig f, (sig, f) ∈ SIGNATURES -> detect_content sig = Some f) /\
  (forall sig f trailing,
      (sig, f) ∈ SIGNATURES ->
      slice 4 8 (sig ++ trailing) <> bytes_of "ftyp" \/ (4 < length sig)%nat ->
      detect_content (sig ++ trailing) = Some f) /\
  (forall form f s1 s2 s3 s4 b trailing,
      (form, f) ∈ RIFF_SIGNATURES ->
      detect_content (bytes_of "RIFF" ++ [s1; s2; s3; s4] ++ form ++ b :: trailing)
      = Some f) /\
  (forall header f, riff_check header = Some f -> detect_header header = Some f) /\
  (forall header f,
      riff_check header = None -> ftyp_check header = Some f ->
      detect_header header = Some f) /\
  (forall header,
      header <> [] -> riff_check header = None -> ftyp_check header = None ->
      detect_header header = match_signatures header SIGNATURES) /\
  (forall o file_path content,
      nodes o !! file_path = Some (RegFile content) -> file_path ∉ read_denied o ->
      detect_format o file_path = detect_content content).
Proof.
  split; [|split; [|split; [|split; [|split; [|split]]]]].
  - intros sig f Hin. table_cases Hin; reflexivity.
  - intros. by apply signature_with_trailing.
  - intros. by apply riff_with_payload.
  - intros header f H. unfold detect_header. rewrite H.
    destruct header; [discriminate H|reflexivity].
  - intros header f H1 H2. unfold detect_header. rewrite H1, H2.
    destruct header; [discriminate H2|reflexivity].
  - intros header Hne H1 H2. unfold detect_header. rewrite H1, H2.
    destruct header; [contradiction|reflexivity].
  - intros o p content Hn Hr. unfold detect_format, path_exists, read_head, detect_content.
    rewrite Hn. rewrite bool_decide_eq_true_2 by eauto. cbn [negb].
    rewrite bool_decide_eq_false_2 by exact Hr. reflexivity.
Qed.

(** C3 (amended), for the PNG signature followed by other bytes. *)
Lemma detect_format_signatures_witness :
  ExtensionHandler.detect_content png_bytes = Some ("image", "PNG", ".png").
Proof.
  apply (proj1 (proj2 detect_format_signatures)
           ((x89 :: bytes_of "PNG" ++ [x0d; x0a; x1a; x0a])%list)
           ("image", "PNG", ".png") (bytes_of "image data")).
  - apply list_elem_of_In. right. left. reflexivity.
  - right. vm_compute. lia.
Defined.

(** C3 as stated fails: a file that consists of the BMP magic "BM" is
    detected as BMP, and appending bytes to it changes the result (the ftyp
    check, applied first, then reports MP4). *)
Lemma detect_format_trailing_counterexample :
  detect_content (bytes_of "BM") = Some ("image", "BMP", ".bmp") /\
  detect_content (bytes_of "BM" ++ [x00; x00] ++ bytes_of "ftypisom")
  = Some ("video", "MP4", ".mp4") /\
  detect_content (bytes_of "BM" ++ [x00; x00] ++ bytes_of "ftypisom")
  <> detect_content (bytes_of "BM").
Proof.
  split; [reflexivity|]. split; [reflexivity|].
  intros H. vm_compute in H. discriminate H.
Qed.

(** The twelve bytes of a minimal RIFF/WAVE envelope are not detected; one
    more byte makes them a WAV file. *)
Example detect_riff_minimal :
  detect_content (bytes_of "RIFF" ++ [x00; x00; x00; x00] ++ bytes_of "WAVE") = None /\
  detect_content (bytes_of "RIFF" ++ [x00; x00; x00; x00] ++ bytes_of "WAVE" ++ [x00])
  = Some ("audio", "WAV", ".wav").
Proof. split; reflexivity. Qed.

(** ** Extension correction *)

Section ValidateAndCorrect.

Import ExtensionHandler.

Variables (o : os_state) (file_path : string).
Variables (image_extensions video_extensions : list string).
Variable audio_extensions : option (list string).

Local Abbreviation correct_ext :=
  (get_correct_extension o file_path image_extensions video_extensions audio_extensions).

Lemma get_correct_extension_undetected :
  detect_format o file_path = None -> correct_ext = None.
Proof. unfold get_correct_extension. intros ->. reflexivity. Qed.

Ltac unchanged_case :=
  repeat split; intros; try reflexivity; try discriminate;
  try (exfalso; cbn in *; congruence); try (split; intros; reflexivity).

(** C7.  [validate_and_correct_file] returns its input path and leaves the
    file system as it is whenever sniffing fails, or the current extension
    (lower-cased) is the sniffed canonical one, or no configured correct
    extension is determined, or [apply_rename] is false.  When it comes to
    renaming, it returns the original path, again without touching the file
    system, if another file exists at the target name or the rename is
    refused by the operating system.  It returns a path other than its input
    only after a successful rename of the file to that path, the input path
    with its suffix replaced by the correct extension. *)
Theorem validate_and_correct_file_paths (apply_rename : bool) :
  let r := validate_and_correct_file o file_path image_extensions video_extensions
             audio_extensions apply_rename in
  (detect_format o file_path = None -> r = (file_path, o)) /\
  (forall media_type format_name detected_ext,
      detect_format o file_path = Some (media_type, format_name, detected_ext) ->
      lower (path_suffix file_path) = detected_ext -> r = (file_path, o)) /\
  (correct_ext = None -> r = (file_path, o)) /\
  (apply_rename = false -> r = (file_path, o)) /\
  (forall ext,
      correct_ext = Some ext ->
      let new_path := with_suffix file_path ext in
      (path_exists o new_path = true -> new_path <> file_path -> r = (file_path, o)) /\
      (rename o file_path new_path = None -> r = (file_path, o))) /\
  (fst r <> file_path ->
   exists ext o',
     correct_ext = Some ext /\ apply_rename = true /\
     rename o file_path (with_suffix file_path ext) = Some o' /\
     r = (with_suffix file_path ext, o')).
Proof.
  cbn zeta. unfold validate_and_correct_file.
  pose proof get_correct_extension_undetected as Hund.
  destruct (detect_format o file_path) as [[[mt fn] dext]|] eqn:Hdet.
  2: { rewrite Hund by reflexivity. unchanged_case. }
  clear Hund.
  case_bool_decide as Hcur; [unchanged_case|].
  destruct correct_ext as [ext|] eqn:Hce; [|unchanged_case].
  destruct (bool_decide (ext = "") || bool_decide (lower (path_suffix file_path) = ext));
    [unchanged_case|].
  destruct apply_rename; cbn [negb]; [|unchanged_case].
  destruct (path_exists o (with_suffix file_path ext)
            && negb (bool_decide (with_suffix file_path ext = file_path))) eqn:Hex;
    [unchanged_case|].
  destruct (rename o file_path (with_suffix file_path ext)) as [o'|] eqn:Hren;
    [|unchanged_case].
  repeat split; intros; try discriminate; try congruence.
  - exfalso. injection H as <-.
    match goal with Hx : path_exists _ _ = true |- _ => rewrite Hx in Hex end.
    cbn in Hex. rewrite bool_decide_eq_false_2 in Hex by assumption. discriminate.
  - exists ext, o'. repeat split. exact Hren.
Qed.

End ValidateAndCorrect.

(** C7, for the PNG image named [pic.jpg]. *)
Lemma validate_and_correct_file_paths_witness :
  exists ext o',
    ExtensionHandler.get_correct_extension (images_os ∅ ∅) "out/bob/Images/pic.jpg"
      [".jpg"; ".png"] [".mp4"] None = Some ext
    /\ rename (images_os ∅ ∅) "out/bob/Images/pic.jpg"
         (with_suffix "out/bob/Images/pic.jpg" ext) = Some o'
    /\ ExtensionHandler.validate_and_correct_file (images_os ∅ ∅) "out/bob/Images/pic.jpg"
         [".jpg"; ".png"] [".mp4"] None true
       = (with_suffix "out/bob/Images/pic.jpg" ext, o').
Proof.
  destruct (proj2 (proj2 (proj2 (proj2 (proj2
              (validate_and_correct_file_paths (images_os ∅ ∅) "out/bob/Images/pic.jpg"
                 [".jpg"; ".png"] [".mp4"] None true))))))
    as (ext & o' & Hext & _ & Hren & Hr).
  - vm_compute. discriminate.
  - exists ext, o'. auto.
Defined.

(** ** Downloads that find their file in place *)

Section SkipExisting.

Import MediaDownloader.

Context {Net : Type}.
Variable requests_get : string -> Net -> outcome response * Net.
Variable urlparse_path : string -> string.
Variable locking : lock_module.
Variable cfg : config.
Variable creator : string.

Local Abbreviation download_item := (download_item requests_get urlparse_path locking).
Local Abbreviation download_loop := (download_loop requests_get urlparse_path locking).
Local Abbreviation download_files := (download_files requests_get urlparse_path locking).
Local Abbreviation state := (state (Net := Net)).

Lemma get_output_path_grows url o out_path o0 :
  get_output_path urlparse_path cfg creator url o = Ok (out_path, o0) -> grows o o0.
Proof.
  unfold get_output_path, get_media_folder.
  destruct (mkdir_p o _) as [o1|e] eqn:Hm; [|discriminate].
  intros [= _ <-]. eapply mkdir_p_grows. exact Hm.
Qed.

Lemma get_output_path_mono url o o' out_path o0 :
  grows o o' ->
  get_output_path urlparse_path cfg creator url o = Ok (out_path, o0) ->
  exists o0', get_output_path urlparse_path cfg creator url o' = Ok (out_path, o0').
Proof.
  intros Hg. unfold get_output_path, get_media_folder.
  destruct (mkdir_p o _) as [o1|e] eqn:Hm; [|discriminate].
  intros [= <- <-]. destruct (mkdir_p_mono _ _ _ _ Hg Hm) as (o1' & -> & _). eauto.
Qed.

Lemma already_there_grows o o' it :
  grows o o' -> already_there urlparse_path cfg creator o it ->
  already_there urlparse_path cfg creator o' it.
Proof.
  intros Hg. unfold already_there. destruct (usable_url it) as [url|]; [|auto].
  intros (out_path & o0 & Hp & Hex).
  destruct (get_output_path_mono _ _ _ _ _ Hg Hp) as (o0' & Hp').
  exists out_path, o0'. split; [exact Hp'|]. eapply grows_exists; eassumption.
Qed.

Lemma download_item_skips (it : ApiItem) (c : counters) (s : state) :
  already_there urlparse_path cfg creator (os s) it ->
  exists o', download_item cfg creator it c s = (Ok c, set_os s o') /\ grows (os s) o'.
Proof.
  unfold already_there, MediaDownloader.download_item.
  destruct (usable_url it) as [url|].
  - intros (out_path & o0 & Hp & Hex). rewrite Hp.
    pose proof (get_output_path_grows _ _ _ _ Hp) as Hg.
    rewrite (grows_exists _ _ _ Hg Hex). eauto.
  - intros _. exists (os s). split; [destruct s; reflexivity|apply grows_refl].
Qed.

Lemma download_loop_skips (items : list ApiItem) (c : counters) (s : state) :
  Forall (already_there urlparse_path cfg creator (os s)) items ->
  exists o', download_loop cfg creator items c s = (Ok c, set_os s o') /\ grows (os s) o'.
Proof.
  revert s. induction items as [|it items IH]; intros s Hall.
  - exists (os s). split; [destruct s; reflexivity|apply grows_refl].
  - inversion Hall as [|? ? Hit Hrest]; subst.
    cbn [MediaDownloader.download_loop].
    destruct (download_item_skips it c s Hit) as (o1 & -> & Hg1).
    destruct (IH (set_os s o1)) as (o2 & -> & Hg2).
    { eapply Forall_impl; [exact Hrest|]. intros x. apply already_there_grows. exact Hg1. }
    exists o2. split; [reflexivity|]. eapply grows_trans; eassumption.
Qed.

(** C4.  An item whose resolved destination path exists is passed over: no
    request is made and no file is opened for writing (the trace of events
    does not grow, the network is untouched), no regular file changes, the
    counters stay as they are, and the loop goes on with the next item.
    Hence a call of [download_files] on items whose destinations all exist,
    as they do after a first call as long as its output paths are still
    there, downloads and writes nothing and returns (0, 0, 0). *)
Theorem download_files_skips_existing :
  (forall (it : ApiItem) (rest : list ApiItem) (c : counters) (s : state)
          (url out_path : string) (o0 : os_state),
      usable_url it = Some url ->
      get_output_path urlparse_path cfg creator
        (update_video_url urlparse_path url (video_extensions cfg)) (os s)
      = Ok (out_path, o0) ->
      path_exists (os s) out_path = true ->
      exists s',
        download_item cfg creator it c s = (Ok c, s') /\
        download_loop cfg creator (it :: rest) c s = download_loop cfg creator rest c s' /\
        trace s' = trace s /\ net s' = net s /\ tracker s' = tracker s /\
        retry_queue s' = retry_queue s /\
        (forall p data, nodes (os s') !! p = Some (RegFile data)
                        <-> nodes (os s) !! p = Some (RegFile data))) /\
  (forall (items : list ApiItem) (s : state),
      Forall (already_there urlparse_path cfg creator (os s)) items ->
      exists s',
        download_files cfg items creator s = (Ok (0, 0, 0), s') /\
        trace s' = trace s /\ net s' = net s /\ tracker s' = tracker s /\
        retry_queue s' = retry_queue s /\
        (forall p data, nodes (os s') !! p = Some (RegFile data)
                        <-> nodes (os s) !! p = Some (RegFile data))).
Proof.
  split.
  - intros it rest c s url out_path o0 Hurl Hp Hex.
    destruct (download_item_skips it c s) as (o' & Hd & Hg).
    { unfold already_there. rewrite Hurl. eauto. }
    exists (set_os s o'). split; [exact Hd|].
    split; [cbn [MediaDownloader.download_loop]; rewrite Hd; reflexivity|].
    repeat split; try apply (grows_files _ _ _ _ Hg).
  - intros items s Hall.
    destruct (download_loop_skips items (0, 0, 0) s Hall) as (o' & Hd & Hg).
    exists (set_os s o'). split; [exact Hd|].
    repeat split; try apply (grows_files _ _ _ _ Hg).
Qed.

End SkipExisting.

(** C4, for a second call on the clip that a first call has downloaded. *)
Lemma download_files_skips_existing_witness :
  let first :=
    MediaDownloader.download_files clip_web sample_urlparse_path MediaDownloader.Fcntl
      sample_config [clip_item] "bob" (MediaDownloader.init sample_config empty_os tt) in
  exists s',
    MediaDownloader.download_files clip_web sample_urlparse_path MediaDownloader.Fcntl
      sample_config [clip_item] "bob" (snd first) = (Ok (0, 0, 0), s')
    /\ MediaDownloader.trace s' = MediaDownloader.trace (snd first)
    /\ MediaDownloader.net s' = MediaDownloader.net (snd first)
    /\ MediaDownloader.tracker s' = MediaDownloader.tracker (snd first)
    /\ MediaDownloader.retry_queue s' = MediaDownloader.retry_queue (snd first)
    /\ (forall p data,
           nodes (MediaDownloader.os s') !! p = Some (RegFile data)
           <-> nodes (MediaDownloader.os (snd first)) !! p = Some (RegFile data)).
Proof.
  cbv zeta.
  apply (proj2 (download_files_skips_existing clip_web sample_urlparse_path
                  MediaDownloader.Fcntl sample_config "bob")).
  repeat constructor. unfold already_there. cbn [usable_url clip_item item_url].
  eexists _, _. split; vm_compute; reflexivity.
Defined.

(** ** What a correction does to the file system *)

Lemma validate_and_correct_file_cases (o : os_state) (p : string)
    (img vid : list string) (aud : option (list string)) (b : bool) :
  let r := ExtensionHandler.validate_and_correct_file o p img vid aud b in
  r = (p, o) \/
  exists ext o',
    (path_exists o (with_suffix p ext) = false \/ with_suffix p ext = p) /\
    rename o p (with_suffix p ext) = Some o' /\
    r = (with_suffix p ext, o').
Proof.
  cbn zeta. unfold ExtensionHandler.validate_and_correct_file.
  destruct (ExtensionHandler.detect_format o p) as [[[mt fn] dext]|]; [|by left].
  case_bool_decide; [by left|].
  destruct (ExtensionHandler.get_correct_extension o p img vid aud) as [ext|]; [|by left].
  destruct (_ || _)%bool; [by left|].
  destruct (negb b); [by left|].
  destruct (path_exists o (with_suffix p ext)
            && negb (bool_decide (with_suffix p ext = p))) eqn:Hex; [by left|].
  destruct (rename o p (with_suffix p ext)) as [o'|] eqn:Hren; [|by left].
  right. exists ext, o'. split; [|split; [exact Hren|reflexivity]].
  apply andb_false_iff in Hex as [Hex|Hex]; [by left|right].
  apply negb_false_iff, bool_decide_eq_true in Hex. exact Hex.
Qed.

Lemma rename_nodes (o o' : os_state) (p q : string) :
  rename o p q = Some o' ->
  exists data, nodes o !! p = Some (RegFile data) /\
               o' = set_nodes o (<[q := RegFile data]> (delete p (nodes o))).
Proof.
  unfold rename. destruct (nodes o !! p) as [[data|]|]; try discriminate.
  match goal with |- context [if ?b then _ else _] => destruct b end; [discriminate|].
  intros [= <-]. eauto.
Qed.

Lemma unlink_nodes (o o' : os_state) (p : string) :
  unlink o p = Some o' ->
  (p ∉ unlink_denied o) /\ o' = set_nodes o (delete p (nodes o)).
Proof.
  unfold unlink. destruct (nodes o !! p) as [[data|]|]; try discriminate.
  case_bool_decide; [discriminate|]. intros [= <-]. auto.
Qed.

Section FailedDownloads.

Import MediaDownloader.

Context {Net : Type}.
Variable requests_get : string -> Net -> outcome response * Net.
Variable urlparse_path : string -> string.
Variable locking : lock_module.
Variable cfg : config.
Variable creator : string.

Local Abbreviation download_item := (download_item requests_get urlparse_path locking).
Local Abbreviation download_loop := (download_loop requests_get urlparse_path locking).
Local Abbreviation try_download := (try_download requests_get locking).
Local Abbreviation state := (state (Net := Net)).

(** After the correction step the file is at the returned path: if that is
    not the path it was written to, nothing is left at the latter. *)
Lemma correct_extension_moves (out out' : string) (s s' : state) :
  correct_extension cfg out s = (out', s') ->
  out' = out \/ nodes (os s') !! out = None.
Proof.
  unfold correct_extension.
  destruct (validate_and_correct_file_cases (os s) out (image_extensions cfg)
              (video_extensions cfg) None true) as [Hr|(ext & o' & _ & Hren & Hr)];
    cbn zeta in Hr; rewrite Hr.
  - rewrite bool_decide_eq_true_2 by reflexivity. intros [= <- _]. by left.
  - apply rename_nodes in Hren as (data & _ & ->).
    case_bool_decide as Heq.
    + intros [= <- _]. left. exact Heq.
    + intros [= <- <-]. right. cbn.
      rewrite lookup_insert_ne by exact Heq. apply lookup_delete_eq.
Qed.

Lemma count_extension_os (p : string) (s : state) : os (count_extension p s) = os s.
Proof. reflexivity. Qed.

Lemma try_download_moves (durl out out' : string) (s s1 : state) (r : outcome unit) :
  try_download cfg durl out s = (r, out', s1) ->
  out' = out \/ nodes (os s1) !! out = None.
Proof.
  unfold MediaDownloader.try_download.
  destruct (request_with_retries _ _ _ _) as [evs [rq net']].
  destruct rq as [resp|e]; [|intros [= _ <- _]; by left].
  assert (Hb : forall s0, download_buffered cfg resp out s0 = (r, out', s1) ->
                          out' = out \/ nodes (os s1) !! out = None).
  { intros s0. unfold download_buffered.
    destruct (read_body resp); [|intros [= _ <- _]; by left].
    destruct (mkdir_p _ _); [|intros [= _ <- _]; by left].
    destruct (open_wb _ _); [|intros [= _ <- _]; by left].
    destruct (write_bytes _ _ _); [|intros [= _ <- _]; by left].
    destruct (correct_extension _ _ _) as [p' s4] eqn:Hc.
    intros [= _ <- <-]. rewrite count_extension_os.
    eapply correct_extension_moves. exact Hc. }
  assert (Hs : forall s0, download_streamed locking cfg resp out s0 = (r, out', s1) ->
                          out' = out \/ nodes (os s1) !! out = None).
  { intros s0. unfold download_streamed.
    destruct (mkdir_p _ _); [|intros [= _ <- _]; by left].
    destruct (open_wb _ _); [|intros [= _ <- _]; by left].
    match goal with |- context [if ?b then _ else _] => destruct b end.
    - destruct (correct_extension _ _ _) as [p' s4] eqn:Hc.
      intros [= _ <- <-]. rewrite count_extension_os.
      eapply correct_extension_moves. exact Hc.
    - destruct (write_chunks _ _ _ _) as [rw o3].
      destruct (correct_extension _ _ _) as [p' s4] eqn:Hc.
      intros [= _ <- <-]. rewrite count_extension_os.
      eapply correct_extension_moves. exact Hc. }
  destruct (content_length resp) as [n|]; [|apply Hs].
  destruct (n <=? memory_threshold_bytes cfg); [apply Hb|apply Hs].
Qed.

(** The clean-up of the exception handlers: unless the operating system
    refuses the removal, no regular file is left at the path. *)
Lemma remove_partial_removes (p : string) (s : state) :
  p ∉ unlink_denied (os s) -> is_file (os (remove_partial p s)) p = false.
Proof.
  intros Hd. unfold remove_partial, path_exists, is_file, unlink.
  destruct (nodes (os s) !! p) as [[data|]|] eqn:Hp.
  - rewrite bool_decide_eq_true_2 by eauto.
    rewrite bool_decide_eq_false_2 by exact Hd. cbn.
    rewrite lookup_delete_eq. reflexivity.
  - rewrite bool_decide_eq_true_2 by eauto. rewrite Hp. reflexivity.
  - rewrite bool_decide_eq_false_2 by (intros [? ?]; discriminate). rewrite Hp. reflexivity.
Qed.

Lemma remove_partial_absent (p q : string) (s : state) :
  nodes (os s) !! q = None -> nodes (os (remove_partial p s)) !! q = None.
Proof.
  intros Hq. unfold remove_partial.
  destruct (path_exists (os s) p); [|exact Hq].
  destruct (unlink (os s) p) as [o'|] eqn:Hu; [|exact Hq].
  apply unlink_nodes in Hu as (_ & ->). cbn.
  destruct (decide (p = q)) as [->|Hne].
  - apply lookup_delete_eq.
  - rewrite lookup_delete_ne by exact Hne. exact Hq.
Qed.

Lemma remove_partial_retry_queue (p : string) (s : state) :
  retry_queue (remove_partial p s) = retry_queue s.
Proof.
  unfold remove_partial. destruct (path_exists (os s) p); [|reflexivity].
  destruct (unlink (os s) p); reflexivity.
Qed.


End FailedDownloads.



(** ** Files that a download leaves alone *)

Section Frame.

Variables (p : string) (data : list byte).

Local Abbreviation kept := (holds p data).
Local Abbreviation keeps := (preserves p data).

Lemma preserves_refl o : keeps o o.
Proof. split; [apply same_faults_refl|auto]. Qed.

Lemma preserves_trans o1 o2 o3 : keeps o1 o2 -> keeps o2 o3 -> keeps o1 o3.
Proof.
  intros [F1 H1] [F2 H2]. split; [eapply same_faults_trans; eassumption|auto].
Qed.

Lemma grows_preserves o o' : grows o o' -> keeps o o'.
Proof. intros (F & K & _). split; [exact F|]. unfold holds. auto. Qed.

Lemma set_nodes_preserves o q (v : option node) :
  q <> p ->
  keeps o (set_nodes o (match v with
                            | Some x => <[q := x]> (nodes o)
                            | None => delete q (nodes o)
                            end)).
Proof.
  intros Hne. split; [apply same_faults_set_nodes|]. unfold holds. cbn.
  destruct v; [rewrite lookup_insert_ne by exact Hne|rewrite lookup_delete_ne by exact Hne]; auto.
Qed.

Lemma open_wb_preserves o q o' : open_wb o q = Ok o' -> q <> p -> keeps o o'.
Proof.
  unfold open_wb. repeat (match goal with |- context [if ?b then _ else _] => destruct b end;
                          try discriminate).
  intros [= <-] Hne. apply (set_nodes_preserves o q (Some (RegFile [])) Hne).
Qed.

Lemma write_bytes_preserves o q d o' :
  write_bytes o q d = Ok o' -> q <> p -> keeps o o'.
Proof.
  unfold write_bytes. destruct (write_fault o !! q); [discriminate|].
  destruct (nodes o !! q) as [[old|]|]; try discriminate.
  intros [= <-] Hne. apply (set_nodes_preserves o q (Some (RegFile (old ++ d))) Hne).
Qed.

Lemma write_chunks_preserves cs o q fail r o' :
  write_chunks o q cs fail = (r, o') -> q <> p -> keeps o o'.
Proof.
  revert o. induction cs as [|c cs IH]; intros o; cbn [write_chunks].
  - intros [= _ <-] _. apply preserves_refl.
  - destruct c as [|b c]; [apply IH|].
    destruct (write_bytes o q (b :: c)) as [o1|e] eqn:Hw.
    + intros H Hne. eapply preserves_trans; [eapply write_bytes_preserves; eassumption|].
      eapply IH; eassumption.
    + intros [= _ <-] _. apply preserves_refl.
Qed.

Lemma unlink_preserves o q o' : unlink o q = Some o' -> q <> p -> keeps o o'.
Proof.
  intros Hu Hne. apply unlink_nodes in Hu as (_ & ->).
  apply (set_nodes_preserves o q None Hne).
Qed.

(** A rename whose target is free, or is the source itself. *)
Lemma rename_preserves o a b o' :
  rename o a b = Some o' -> a <> p ->
  path_exists o b = false \/ b = a ->
  kept o -> keeps o o' /\ b <> p.
Proof.
  intros Hr Ha Hb Hp. apply rename_nodes in Hr as (d & _ & ->).
  assert (Hbp : b <> p).
  { destruct Hb as [Hb| ->]; [|exact Ha]. intros ->.
    unfold path_exists, holds in *. rewrite Hp in Hb.
    rewrite bool_decide_eq_true_2 in Hb by eauto. discriminate. }
  split; [|exact Hbp]. split; [apply same_faults_set_nodes|].
  unfold holds. cbn. rewrite lookup_insert_ne by exact Hbp.
  rewrite lookup_delete_ne by exact Ha. auto.
Qed.

End Frame.

Section DownloadFrame.

Import MediaDownloader.

Context {Net : Type}.
Variable requests_get : string -> Net -> outcome response * Net.
Variable urlparse_path : string -> string.
Variable locking : lock_module.
Variable cfg : config.

Variables (p : string) (data : list byte).

Local Abbreviation state := (state (Net := Net)).
Local Abbreviation kept := (holds p data).
Local Abbreviation keeps := (preserves p data).

Lemma correct_extension_preserves (out out' : string) (s s' : state) :
  correct_extension cfg out s = (out', s') -> out <> p -> kept (os s) ->
  keeps (os s) (os s') /\ out' <> p.
Proof.
  unfold correct_extension. intros Hc Hne Hp.
  destruct (validate_and_correct_file_cases (os s) out (image_extensions cfg)
              (video_extensions cfg) None true) as [Hr|(ext & o' & Hfree & Hren & Hr)];
    cbn zeta in Hr; rewrite Hr in Hc.
  - rewrite bool_decide_eq_true_2 in Hc by reflexivity. injection Hc as <- <-.
    split; [apply preserves_refl|exact Hne].
  - destruct (rename_preserves p data _ _ _ _ Hren Hne Hfree Hp) as [Hpres Hbp].
    case_bool_decide; injection Hc as <- <-; split; assumption.
Qed.

Lemma remove_partial_preserves (q : string) (s : state) :
  q <> p -> keeps (os s) (os (remove_partial q s)).
Proof.
  intros Hne. unfold remove_partial.
  destruct (path_exists (os s) q); [|apply preserves_refl].
  destruct (unlink (os s) q) as [o'|] eqn:Hu; [|apply preserves_refl].
  cbn. eapply unlink_preserves; eassumption.
Qed.

Lemma try_download_preserves (durl out out' : string) (s s1 : state) (r : outcome unit) :
  try_download requests_get locking cfg durl out s = (r, out', s1) ->
  out <> p -> kept (os s) ->
  keeps (os s) (os s1) /\ out' <> p.
Proof.
  unfold MediaDownloader.try_download. intros Ht Hne Hp.
  destruct (request_with_retries _ _ _ _) as [evs [rq net']].
  destruct rq as [resp|e];
    [|injection Ht as _ <- <-; split; [apply preserves_refl|exact Hne]].
  set (s0 := log (set_net s net') evs) in Ht.
  assert (Hp0 : kept (os s0)) by exact Hp.
  change (os s) with (os s0). clearbody s0.
  assert (Hfin : forall o3 (sx ex : state),
            keeps (os s0) o3 ->
            correct_extension cfg out (set_os sx o3) = (out', ex) ->
            keeps (os s0) (os (count_extension out' ex)) /\ out' <> p).
  { intros o3 sx ex Hpr Hc.
    destruct (correct_extension_preserves _ _ _ _ Hc Hne) as [Hpr2 Hout'].
    - apply Hpr. exact Hp0.
    - split; [|exact Hout']. eapply preserves_trans; [exact Hpr|exact Hpr2]. }
  assert (Hb : download_buffered cfg resp out s0 = (r, out', s1) ->
               keeps (os s0) (os s1) /\ out' <> p).
  { unfold download_buffered.
    destruct (read_body resp);
      [|intros [= _ <- <-]; split; [apply preserves_refl|exact Hne]].
    destruct (mkdir_p _ _) as [o1|] eqn:Hm;
      [|intros [= _ <- <-]; split; [apply preserves_refl|exact Hne]].
    pose proof (grows_preserves p data _ _ (mkdir_p_grows _ _ _ Hm)) as H1.
    destruct (open_wb _ _) as [o2|] eqn:Ho;
      [|intros [= _ <- <-]; split; [exact H1|exact Hne]].
    pose proof (preserves_trans p data _ _ _ H1 (open_wb_preserves p data _ _ _ Ho Hne)) as H2.
    destruct (write_bytes _ _ _) as [o3|] eqn:Hw;
      [|intros [= _ <- <-]; split; [exact H2|exact Hne]].
    pose proof (preserves_trans p data _ _ _ H2
                  (write_bytes_preserves p data _ _ _ _ Hw Hne)) as H3.
    destruct (correct_extension _ _ _) as [p' s4] eqn:Hc.
    intros [= _ <- <-]. eapply Hfin; eassumption. }
  assert (Hs : download_streamed locking cfg resp out s0 = (r, out', s1) ->
               keeps (os s0) (os s1) /\ out' <> p).
  { unfold download_streamed.
    destruct (mkdir_p _ _) as [o1|] eqn:Hm;
      [|intros [= _ <- <-]; split; [apply preserves_refl|exact Hne]].
    pose proof (grows_preserves p data _ _ (mkdir_p_grows _ _ _ Hm)) as H1.
    destruct (open_wb _ _) as [o2|] eqn:Ho;
      [|intros [= _ <- <-]; split; [exact H1|exact Hne]].
    pose proof (preserves_trans p data _ _ _ H1 (open_wb_preserves p data _ _ _ Ho Hne)) as H2.
    match goal with |- context [if ?b then _ else _] => destruct b end.
    - destruct (correct_extension _ _ _) as [p' s4] eqn:Hc.
      intros [= _ <- <-]. eapply Hfin; eassumption.
    - destruct (write_chunks _ _ _ _) as [rw o3] eqn:Hw.
      pose proof (preserves_trans p data _ _ _ H2
                    (write_chunks_preserves p data _ _ _ _ _ _ Hw Hne)) as H3.
      destruct (correct_extension _ _ _) as [p' s4] eqn:Hc.
      intros [= _ <- <-]. eapply Hfin; eassumption. }
  destruct (content_length resp) as [n|]; [|exact (Hs Ht)].
  destruct (n <=? memory_threshold_bytes cfg); [exact (Hb Ht)|exact (Hs Ht)].
Qed.

Lemma enqueue_failed_os it cr u out msg (s : state) :
  os (enqueue_failed cfg it cr u out msg s) = os s.
Proof.
  unfold enqueue_failed. destruct (retry_queue s); [|reflexivity].
  destruct (enable_retry_queue cfg); reflexivity.
Qed.

(** A download never changes or removes a regular file that was there
    before it started. *)
Lemma download_item_preserves creator it c (s s' : state) r :
  download_item requests_get urlparse_path locking cfg creator it c s = (r, s') ->
  kept (os s) -> keeps (os s) (os s').
Proof.
  unfold MediaDownloader.download_item. intros Hd Hp.
  destruct (usable_url it) as [url|]; [|injection Hd as _ <-; apply preserves_refl].
  destruct (get_output_path _ _ _ _ _) as [[out o0]|e] eqn:Hout;
    [|injection Hd as _ <-; apply preserves_refl].
  assert (H0 : keeps (os s) o0).
  { apply grows_preserves. revert Hout. unfold get_output_path, get_media_folder.
    destruct (mkdir_p _ _) as [o1|] eqn:Hm; [|discriminate].
    intros [= _ <-]. eapply mkdir_p_grows. exact Hm. }
  destruct (path_exists o0 out) eqn:Hex; [injection Hd as _ <-; exact H0|].
  assert (Hne : out <> p).
  { intros ->. destruct H0 as [_ H0]. specialize (H0 Hp).
    unfold path_exists, holds in *. rewrite H0 in Hex.
    rewrite bool_decide_eq_true_2 in Hex by eauto. discriminate. }
  destruct (try_download _ _ _ _ _ _) as [[rt out'] s1] eqn:Ht.
  destruct (try_download_preserves _ _ _ _ _ _ Ht Hne) as [H1 Hout'].
  { apply H0. exact Hp. }
  pose proof (preserves_trans p data _ _ _ H0 H1) as H01.
  destruct rt as [[]|e].
  - destruct c as [[? ?] ?]. injection Hd as _ <-. exact H01.
  - pose proof (remove_partial_preserves out' s1 Hout') as H2.
    pose proof (preserves_trans p data _ _ _ H01 H2) as H02.
    destruct (is_Exception e); injection Hd as _ <-; [|exact H02].
    rewrite enqueue_failed_os. exact H02.
Qed.

Lemma download_loop_preserves creator items c (s s' : state) r :
  download_loop requests_get urlparse_path locking cfg creator items c s = (r, s') ->
  kept (os s) -> keeps (os s) (os s').
Proof.
  revert c s. induction items as [|it items IH]; intros c s; cbn [MediaDownloader.download_loop].
  - intros [= _ <-] _. apply preserves_refl.
  - destruct (download_item _ _ _ _ _ _ _ _) as [[c1|e] s1] eqn:Hi; intros Hd Hp.
    + pose proof (download_item_preserves _ _ _ _ _ _ Hi Hp) as H1.
      eapply preserves_trans; [exact H1|]. eapply IH; [exact Hd|]. apply H1. exact Hp.
    + injection Hd as _ <-. eapply download_item_preserves; eassumption.
Qed.

End DownloadFrame.

(** ** Repair *)

Section RepairProofs.

Import RepairManager.

Context {Net : Type}.
Variable requests_get : string -> Net -> outcome response * Net.
Variable urlparse_path : string -> string.
Variable locking : MediaDownloader.lock_module.
Variable json_load : list byte -> option json.
Variable resolve : string -> string.
Variable cfg : MediaDownloader.config.

Variables (p : string) (data : list byte).

Local Abbreviation state := (MediaDownloader.state (Net := Net)).
Local Abbreviation repair_videos :=
  (repair_videos requests_get urlparse_path locking json_load resolve).

Lemma remove_entries_preserves entries o r o' :
  spares resolve p entries -> remove_entries resolve entries o = (r, o') -> preserves p data o o'.
Proof.
  revert o. induction entries as [|e entries IH]; intros o Hs; cbn [remove_entries].
  - intros [= _ <-]. apply preserves_refl.
  - destruct (entry_str e "path") as [path|ex] eqn:He;
      [|intros [= _ <-]; apply preserves_refl].
    assert (Hne : resolve path <> p) by (eapply Hs; [left|exact He]).
    assert (Hs' : spares resolve p entries) by (intros e' path' Hin; apply Hs; right; exact Hin).
    intros Hr. eapply preserves_trans; [|eapply IH; [exact Hs'|exact Hr]].
    destruct (path_exists o (resolve path)); [|apply preserves_refl].
    destruct (unlink o (resolve path)) as [o1|] eqn:Hu; [|apply preserves_refl].
    eapply unlink_preserves; eassumption.
Qed.

Lemma redownload_entries_preserves creator entries n (s s' : state) r :
  redownload_entries requests_get urlparse_path locking cfg creator entries n s = (r, s') ->
  holds p data (MediaDownloader.os s) ->
  preserves p data (MediaDownloader.os s) (MediaDownloader.os s').
Proof.
  revert n s. induction entries as [|e entries IH]; intros n s; cbn [redownload_entries].
  - intros [= _ <-] _. apply preserves_refl.
  - destruct (entry_str e "filename") as [filename|ex];
      [|intros [= _ <-] _; apply preserves_refl].
    destruct (MediaDownloader.download_files _ _ _ _ _ _ _) as [rd s1] eqn:Hd.
    intros Hr Hp.
    pose proof (download_loop_preserves _ _ _ _ _ _ _ _ _ _ _ _ Hd Hp) as H1.
    assert (Hp1 : holds p data (MediaDownloader.os s1)) by (apply H1; exact Hp).
    destruct rd as [[[total ?] ?]|ex].
    + eapply preserves_trans; [exact H1|]. eapply IH; eassumption.
    + destruct (is_Exception ex).
      * eapply preserves_trans; [exact H1|]. eapply IH; eassumption.
      * injection Hr as _ <-. exact H1.
Qed.

Lemma repair_creators_preserves creators_data n (s s' : state) r :
  Forall (fun kv => spares resolve p (snd kv)) creators_data ->
  repair_creators requests_get urlparse_path locking resolve cfg creators_data n s = (r, s') ->
  holds p data (MediaDownloader.os s) ->
  preserves p data (MediaDownloader.os s) (MediaDownloader.os s').
Proof.
  revert n s. induction creators_data as [|[creator entries] rest IH]; intros n s Hall;
    cbn [repair_creators].
  - intros [= _ <-] _. apply preserves_refl.
  - inversion Hall as [|? ? Hsp Hrest]; subst. cbn [snd] in Hsp.
    destruct (remove_entries resolve entries (MediaDownloader.os s)) as [rr o1] eqn:Hrm.
    pose proof (remove_entries_preserves _ _ _ _ Hsp Hrm) as H1.
    destruct rr as [[]|ex]; [|intros [= _ <-] _; exact H1].
    destruct (redownload_entries _ _ _ _ _ _ _ _) as [rd s2] eqn:Hrd.
    intros Hr Hp.
    assert (Hp1 : holds p data o1) by (apply H1; exact Hp).
    pose proof (redownload_entries_preserves _ _ _ _ _ _ Hrd Hp1) as H2.
    pose proof (preserves_trans p data _ _ _ H1 H2) as H12.
    destruct rd as [n2|ex]; [|injection Hr as _ <-; exact H12].
    eapply preserves_trans; [exact H12|]. eapply IH; [exact Hrest|exact Hr|].
    apply H12. exact Hp.
Qed.

Lemma load_report_is_file o report_path creators_data :
  load_report json_load o report_path = Some creators_data ->
  exists content, nodes o !! report_path = Some (RegFile content).
Proof.
  unfold load_report. destruct (negb (path_exists o report_path)); [discriminate|].
  destruct (nodes o !! report_path) as [[content|]|]; try discriminate. eauto.
Qed.

End RepairProofs.

Section RepairCleanup.

Import RepairManager.

Context {Net : Type}.
Variable requests_get : string -> Net -> outcome response * Net.
Variable urlparse_path : string -> string.
Variable locking : MediaDownloader.lock_module.
Variable json_load : list byte -> option json.
Variable resolve : string -> string.
Variable cfg : MediaDownloader.config.


End RepairCleanup.



(** ** The tracker *)

Section TrackerLemmas.

Import ExtensionCorrectionTracker.

Lemma get_correction_record (tr : corrections) (p old new : string) :
  get_correction (record tr p old new) p = Some (old, new).
Proof. apply lookup_insert_eq. Qed.

Lemma get_correction_record_other (tr : corrections) (p q old new : string) :
  p <> q -> get_correction (record tr p old new) q = get_correction tr q.
Proof. intros H. unfold get_correction, record. by rewrite lookup_insert_ne. Qed.

(** A second record for the same path replaces the first. *)
Lemma record_overwrites (tr : corrections) (p old1 new1 old2 new2 : string) :
  record (record tr p old1 new1) p old2 new2 = record tr p old2 new2.
Proof. apply insert_insert_eq. Qed.

(** Records for distinct paths end up in the map whichever comes first. *)
Lemma record_distinct_paths (tr : corrections) (p q o1 n1 o2 n2 : string) :
  p <> q ->
  record (record tr p o1 n1) q o2 n2 = record (record tr q o2 n2) p o1 n1 /\
  get_correction (record (record tr p o1 n1) q o2 n2) p = Some (o1, n1) /\
  get_correction (record (record tr p o1 n1) q o2 n2) q = Some (o2, n2).
Proof.
  intros H. split; [apply insert_insert_ne; congruence|]. split.
  - rewrite get_correction_record_other by congruence. apply get_correction_record.
  - apply get_correction_record.
Qed.

End TrackerLemmas.

(** ** Scans and recorded corrections *)

Section ScanLemmas.

Import VideoValidator.

Variable get_video_info : os_state -> string -> option video_info.

(** The incorrect-extension counter goes up by one exactly for a visited
    path that has an entry in the tracker when the file is visited. *)
Lemma scan_file_incorrect_count media_type apply_corrections image_extensions
    video_extensions (a : scan_acc) (video_file : string) :
  incorrect_count (scan_file get_video_info media_type apply_corrections
                     image_extensions video_extensions a video_file)
  = match ExtensionCorrectionTracker.get_correction (scan_tracker a) video_file with
    | Some _ => incorrect_count a + 1
    | None => incorrect_count a
    end.
Proof.
  unfold scan_file.
  destruct (if bool_decide (media_type = "Images") then _ else _) as [[v f] d].
  destruct image_extensions as [[|e es]|]; try reflexivity.
  destruct apply_corrections; [|reflexivity].
  destruct (ExtensionHandler.validate_and_correct_file _ _ _ _ _ _) as [cp o'].
  case_bool_decide; reflexivity.
Qed.

End ScanLemmas.

Section RecordedKey.

Import MediaDownloader.
Context {Net : Type}.

(** The correction made after a download is recorded under the path the
    file was written to, which no longer exists once the file is renamed. *)
Lemma correct_extension_records_old_path (cfg : config) (out out' : string)
    (s s' : state (Net := Net)) :
  correct_extension cfg out s = (out', s') -> out' <> out ->
  tracker s' = ExtensionCorrectionTracker.record (tracker s) out
                 (lower (path_suffix out)) (lower (path_suffix out'))
  /\ nodes (os s') !! out = None.
Proof.
  intros Hc Hne. split.
  - revert Hc. unfold correct_extension.
    destruct (ExtensionHandler.validate_and_correct_file _ _ _ _ _ _) as [cp o'].
    case_bool_decide as Heq; intros [= <- <-]; [contradiction|reflexivity].
  - destruct (correct_extension_moves _ _ _ _ _ Hc) as [?|?]; [contradiction|assumption].
Qed.

End RecordedKey.

(** C6.  The scan counts a visited file as having an incorrect extension
    exactly when the tracker holds an entry for the path it visits.  The
    downloader, however, records a correction under the path the file had
    before the rename, where nothing is left: after the download of a PNG
    image published as [pic.jpg] the file is [pic.png], the tracker's only
    entry is for [pic.jpg], and a scan of the folder visits [pic.png], finds
    no entry and leaves the counter at 0. *)
Theorem download_correction_not_found_by_scan :
  (forall get_video_info media_type apply_corrections image_extensions video_extensions
          (a : VideoValidator.scan_acc) (video_file : string),
      VideoValidator.incorrect_count
        (VideoValidator.scan_file get_video_info media_type apply_corrections
           image_extensions video_extensions a video_file)
      = match ExtensionCorrectionTracker.get_correction
                (VideoValidator.scan_tracker a) video_file with
        | Some _ => VideoValidator.incorrect_count a + 1
        | None => VideoValidator.incorrect_count a
        end) /\
  (forall (Net : Type) (cfg : MediaDownloader.config) (out out' : string)
          (s s' : MediaDownloader.state (Net := Net)),
      MediaDownloader.correct_extension cfg out s = (out', s') -> out' <> out ->
      MediaDownloader.tracker s'
      = ExtensionCorrectionTracker.record (MediaDownloader.tracker s) out
          (lower (path_suffix out)) (lower (path_suffix out'))
      /\ nodes (MediaDownloader.os s') !! out = None) /\
  let s1 := snd after_mislabeled_download in
  let sc := VideoValidator.scan_creator_images (fun _ _ => None)
              (MediaDownloader.os s1) (MediaDownloader.tracker s1) "out/bob"
              (MediaDownloader.image_extensions sample_config)
              (Some (MediaDownloader.video_extensions sample_config)) false in
  fst after_mislabeled_download = Ok (1, 1, 0) /\
  is_file (MediaDownloader.os s1) "out/bob/Images/pic.png" = true /\
  path_exists (MediaDownloader.os s1) "out/bob/Images/pic.jpg" = false /\
  ExtensionCorrectionTracker.get_correction (MediaDownloader.tracker s1)
    "out/bob/Images/pic.jpg" = Some (".jpg", ".png") /\
  ExtensionCorrectionTracker.get_correction (MediaDownloader.tracker s1)
    "out/bob/Images/pic.png" = None /\
  VideoValidator.scan_results sc !! "pic.png" = Some (true, 1, 0%float) /\
  VideoValidator.incorrect_count sc = 0.
Proof.
  split; [intros; apply scan_file_incorrect_count|].
  split; [intros Net cfg out out' s s'; apply correct_extension_records_old_path|].
  cbv zeta. repeat split; vm_compute; reflexivity.
Qed.

(** ** Image validation *)

Lemma validate_image_cases (o : os_state) (image_path : string) :
  VideoValidator.validate_image o image_path
  = match ExtensionHandler.detect_format o image_path with
    | Some (media_type, _, _) => (bool_decide (media_type = "image"), 1, 0%float)
    | None => (false, 0, 0%float)
    end.
Proof.
  unfold VideoValidator.validate_image, ExtensionHandler.detect_format, read_head,
    path_exists, is_file.
  destruct (nodes o !! image_path) as [[content|]|] eqn:Hn.
  - rewrite bool_decide_eq_true_2 by eauto. reflexivity.
  - rewrite bool_decide_eq_true_2 by eauto. reflexivity.
  - rewrite bool_decide_eq_false_2 by (intros [? ?]; discriminate). reflexivity.
Qed.

(** C8.  [validate_image] always returns duration 0 and is valid exactly
    when the sniffer reports the media kind image, but the frame count is 1
    only for a file the sniffer recognises: for a missing path, a directory
    or a file of unknown content it is 0, as for the text file and the
    missing path below. *)
Theorem validate_image_frame_count :
  (forall o image_path,
      let '(is_valid, frames, duration) := VideoValidator.validate_image o image_path in
      duration = 0%float /\
      (is_valid = true <->
       exists format_name ext,
         ExtensionHandler.detect_format o image_path = Some ("image", format_name, ext)) /\
      (frames = 1 <-> ExtensionHandler.detect_format o image_path <> None) /\
      (frames = 0 <-> ExtensionHandler.detect_format o image_path = None)) /\
  VideoValidator.validate_image (images_os ∅ ∅) "out/bob/Images/notes.txt"
  = (false, 0, 0%float) /\
  VideoValidator.validate_image (images_os ∅ ∅) "out/bob/Images/missing.png"
  = (false, 0, 0%float) /\
  VideoValidator.validate_image (images_os ∅ ∅) "out/bob/Images/pic.jpg"
  = (true, 1, 0%float).
Proof.
  split; [|repeat split; vm_compute; reflexivity].
  intros o p. rewrite validate_image_cases.
  destruct (ExtensionHandler.detect_format o p) as [[[mt fn] ext]|].
  - split; [reflexivity|]. split; [|split].
    + rewrite bool_decide_eq_true. split.
      * intros ->. eauto.
      * intros (fn' & ext' & [= -> _ _]). reflexivity.
    + split; [discriminate|reflexivity].
    + split; [intros; lia|discriminate].
  - split; [reflexivity|]. split; [|split].
    + split; [discriminate|intros (? & ? & ?); discriminate].
    + split; [intros; lia|contradiction].
    + split; reflexivity.
Qed.

(** ** Examples *)

Example path_suffix_ex : path_suffix "out/bob/Images/a.b.JPG" = ".JPG".
Proof. reflexivity. Qed.

Example with_suffix_ex : with_suffix "out/bob/Images/pic.jpg" ".png" = "out/bob/Images/pic.png".
Proof. reflexivity. Qed.

Example path_parent_ex : path_parent "out/bob/Images/pic.jpg" = "out/bob/Images".
Proof. reflexivity. Qed.

Example splitext_ex : splitext "/cdn/.hidden" = ("/cdn/.hidden", "")
                      /\ splitext "/cdn/a.tar.GZ" = ("/cdn/a.tar", ".GZ").
Proof. split; reflexivity. Qed.

(** A PNG image named [pic.jpg] is renamed to [pic.png]; not when a file of
    that name exists, and not when the operating system refuses. *)
Example correct_renames :
  fst (ExtensionHandler.validate_and_correct_file (images_os ∅ ∅) "out/bob/Images/pic.jpg"
         [".jpg"; ".png"] [".mp4"] None true) = "out/bob/Images/pic.png"
  /\ fst (ExtensionHandler.validate_and_correct_file (images_os ∅ ∅) "out/bob/Images/pic.jpg"
            [".jpg"; ".png"] [".mp4"] None false) = "out/bob/Images/pic.jpg"
  /\ fst (ExtensionHandler.validate_and_correct_file
            (images_os {["out/bob/Images/pic.png" := RegFile []]} ∅)
            "out/bob/Images/pic.jpg" [".jpg"; ".png"] [".mp4"] None true)
     = "out/bob/Images/pic.jpg"
  /\ fst (ExtensionHandler.validate_and_correct_file
            (images_os ∅ {["out/bob/Images/pic.jpg"]})
            "out/bob/Images/pic.jpg" [".jpg"; ".png"] [".mp4"] None true)
     = "out/bob/Images/pic.jpg"
  /\ fst (ExtensionHandler.validate_and_correct_file (images_os ∅ ∅) "out/bob/Images/pic.jpg"
            [".jpg"; ".gif"] [".mp4"] None true) = "out/bob/Images/pic.jpg".
Proof. repeat split; vm_compute; reflexivity. Qed.

(** A second call for a file that is in place requests and writes nothing;
    after a correction the first call's output path is gone, and a second
    call downloads the file again. *)
Example download_twice :
  let run web it s :=
    MediaDownloader.download_files web sample_urlparse_path MediaDownloader.Fcntl
      sample_config [it] "bob" s in
  let first := run clip_web clip_item (MediaDownloader.init sample_config empty_os tt) in
  let second := run clip_web clip_item (snd first) in
  let again := run mislabeled_web mislabeled_item (snd after_mislabeled_download) in
  fst first = Ok (1, 0, 1) /\ fst second = Ok (0, 0, 0) /\
  MediaDownloader.trace (snd first) = [EvGet clip_url; EvOpenWrite clip_path] /\
  MediaDownloader.trace (snd second) = MediaDownloader.trace (snd first) /\
  MediaDownloader.os (snd second) = MediaDownloader.os (snd first) /\
  fst again = Ok (1, 1, 0) /\
  MediaDownloader.trace (snd again)
  = [EvGet mislabeled_url; EvOpenWrite "out/bob/Images/pic.jpg";
     EvGet mislabeled_url; EvOpenWrite "out/bob/Images/pic.jpg"].
Proof. cbv zeta. repeat split; vm_compute; reflexivity. Qed.

(** A report whose creators have no entries is left in place. *)
Example repair_without_entries :
  let load (_ : list byte) :=
    Some (JDict [("generated_at", JStr "2025-01-01T00:00:00Z");
                 ("creators", JDict [("bob", JList [])])]) in
  let r := RepairManager.repair_videos clip_web sample_urlparse_path MediaDownloader.Fcntl
             load (fun p => p) "InvalidVideos.json" sample_config true false
             (MediaDownloader.init sample_config (repair_os ∅) tt) in
  fst r = Ok (0, 0)
  /\ path_exists (MediaDownloader.os (snd r)) "InvalidVideos.json" = true.
Proof. cbv zeta. split; vm_compute; reflexivity. Qed.

(** * Further properties *)

(** ** Strings and paths *)

Lemma append_nil_l (b : string) : "" +:+ b = b.
Proof. reflexivity. Qed.

Lemma append_cons x (a b : string) : String x a +:+ b = String x (a +:+ b).
Proof. reflexivity. Qed.

Ltac str_simpl := rewrite ?append_nil_l, ?append_cons; simpl.

Lemma app_assoc_str (a b c : string) : (a +:+ b) +:+ c = a +:+ (b +:+ c).
Proof. induction a as [|x a IH]; str_simpl; [reflexivity|by rewrite IH]. Qed.

Lemma app_nil_r_str (a : string) : a +:+ "" = a.
Proof. induction a as [|x a IH]; str_simpl; [reflexivity|by rewrite IH]. Qed.

Lemma length_app_str (a b : string) :
  String.length (a +:+ b) = (String.length a + String.length b)%nat.
Proof. induction a as [|x a IH]; str_simpl; [reflexivity|by rewrite IH]. Qed.

Lemma no_char_app c a b : no_char c (a +:+ b) <-> no_char c a /\ no_char c b.
Proof. induction a as [|x a IH]; str_simpl; [tauto|]. rewrite IH. tauto. Qed.

Lemma string_rev_acc_app s acc : string_rev_acc s acc = string_rev s +:+ acc.
Proof.
  unfold string_rev. revert acc. induction s as [|x s IH]; intros acc; cbn; [reflexivity|].
  rewrite IH. rewrite (IH (String x "")). rewrite app_assoc_str. reflexivity.
Qed.

Lemma string_rev_cons x s : string_rev (String x s) = string_rev s +:+ String x "".
Proof. unfold string_rev at 1. cbn. apply string_rev_acc_app. Qed.

Lemma string_rev_app a b : string_rev (a +:+ b) = string_rev b +:+ string_rev a.
Proof.
  induction a as [|x a IH]; str_simpl.
  - change (string_rev "") with "". by rewrite app_nil_r_str.
  - rewrite !string_rev_cons, IH, app_assoc_str. reflexivity.
Qed.

Lemma length_string_rev s : String.length (string_rev s) = String.length s.
Proof.
  induction s as [|x s IH]; [reflexivity|].
  rewrite string_rev_cons, length_app_str, IH. cbn. lia.
Qed.

Lemma no_char_rev c s : no_char c (string_rev s) <-> no_char c s.
Proof.
  induction s as [|x s IH]; [reflexivity|].
  rewrite string_rev_cons, no_char_app, IH. cbn. tauto.
Qed.

Lemma find_char_none c s : find_char c s = None <-> no_char c s.
Proof.
  induction s as [|x s IH]; cbn; [tauto|].
  case_bool_decide as Hx.
  - split; [discriminate|]. intros [? _]. contradiction.
  - destruct (find_char c s).
    + split; [discriminate|]. intros [_ H]. apply IH in H. discriminate.
    + split; [|reflexivity]. intros _. split; [exact Hx|]. by apply IH.
Qed.

Lemma find_char_hit c a b :
  no_char c a -> find_char c (a +:+ String c b) = Some (String.length a).
Proof.
  induction a as [|x a IH]; str_simpl.
  - intros _. by rewrite bool_decide_eq_true_2.
  - intros [Hx Ha]. rewrite bool_decide_eq_false_2 by exact Hx. by rewrite IH.
Qed.

Lemma rfind_char_none c s : rfind_char c s = None <-> no_char c s.
Proof.
  unfold rfind_char. destruct (find_char c (string_rev s)) eqn:H.
  - split; [discriminate|]. intros Hn. apply no_char_rev, find_char_none in Hn. congruence.
  - split; [|reflexivity]. intros _. apply no_char_rev, find_char_none. exact H.
Qed.

(** The last occurrence of [c]. *)
Lemma rfind_char_hit c a b :
  no_char c b -> rfind_char c (a +:+ String c b) = Some (String.length a).
Proof.
  intros Hb. unfold rfind_char.
  rewrite string_rev_app, string_rev_cons, app_assoc_str. str_simpl.
  rewrite find_char_hit by (by apply no_char_rev).
  rewrite length_string_rev, length_app_str. cbn. f_equal. lia.
Qed.

(** A string either lacks [c] or splits at its last occurrence. *)
Lemma split_last c s :
  no_char c s \/ exists a b, s = a +:+ String c b /\ no_char c b.
Proof.
  induction s as [|x s IH]; [by left|].
  destruct IH as [Hn|(a & b & -> & Hb)].
  - destruct (decide (x = c)) as [->|Hx].
    + right. exists "", s. split; [reflexivity|exact Hn].
    + left. split; assumption.
  - right. exists (String x a), b. split; [reflexivity|exact Hb].
Qed.

Lemma substring_0_app a b : String.substring 0 (String.length a) (a +:+ b) = a.
Proof. induction a as [|x a IH]; str_simpl; [by destruct b|by rewrite IH]. Qed.

Lemma substring_all s : String.substring 0 (String.length s) s = s.
Proof. induction s as [|x s IH]; cbn; [reflexivity|by rewrite IH]. Qed.

Lemma substring_skip a b n :
  String.substring (String.length a) n (a +:+ b) = String.substring 0 n b.
Proof. induction a as [|x a IH]; str_simpl; [reflexivity|exact IH]. Qed.

Lemma str_take_app a b : str_take (String.length a) (a +:+ b) = a.
Proof. apply substring_0_app. Qed.

Lemma str_drop_app a b : str_drop (String.length a) (a +:+ b) = b.
Proof.
  unfold str_drop. rewrite substring_skip, length_app_str.
  replace (String.length a + String.length b - String.length a)%nat
    with (String.length b) by lia.
  apply substring_all.
Qed.

(** *** Paths *)

Lemma path_name_join d n : no_char slash n -> path_name (d +:+ String slash n) = n.
Proof.
  intros Hn. unfold path_name. rewrite rfind_char_hit by exact Hn.
  change (String slash n) with (String slash "" +:+ n). rewrite <- app_assoc_str.
  replace (S (String.length d)) with (String.length (d +:+ String slash ""))
    by (rewrite length_app_str; cbn; lia).
  apply str_drop_app.
Qed.

Lemma path_name_plain n : no_char slash n -> path_name n = n.
Proof. intros Hn. unfold path_name. by rewrite (proj2 (rfind_char_none _ _) Hn). Qed.

Lemma path_parent_join d n :
  d <> "" -> no_char slash n -> path_parent (d +:+ String slash n) = d.
Proof.
  intros Hd Hn. unfold path_parent. rewrite rfind_char_hit by exact Hn.
  destruct (String.length d) eqn:Hl; [by destruct d|].
  rewrite <- Hl. apply str_take_app.
Qed.

Lemma path_join_eq p n : path_join p n = p +:+ String slash n.
Proof. reflexivity. Qed.

(** *** Suffixes *)

Lemma str_take_len_sub (a b : string) :
  str_take (String.length (a +:+ b) - String.length b) (a +:+ b) = a.
Proof.
  rewrite length_app_str.
  replace (String.length a + String.length b - String.length b)%nat
    with (String.length a) by lia.
  apply str_take_app.
Qed.

(** A name is its stem followed by its suffix, and the stem of a non-empty
    name is not empty. *)
Lemma name_stem_suffix (name : string) :
  no_char slash name -> name <> "" ->
  exists stem, name = stem +:+ path_suffix name /\ stem <> ""
               /\ no_char slash stem.
Proof.
  intros Hs Hne. unfold path_suffix. rewrite (path_name_plain name Hs).
  destruct (split_last dot name) as [Hn|(a & b & -> & Hb)].
  - rewrite (proj2 (rfind_char_none _ _) Hn). exists name.
    rewrite app_nil_r_str. auto.
  - rewrite rfind_char_hit by exact Hb.
    destruct ((0 <? String.length a)%nat
              && (String.length a <? String.length (a +:+ String dot b) - 1)%nat) eqn:Hc.
    + exists a. rewrite str_drop_app. split; [reflexivity|].
      apply andb_true_iff in Hc as [Ha _]. apply Nat.ltb_lt in Ha.
      split; [by destruct a; [simpl in Ha; lia|]|].
      apply no_char_app in Hs. tauto.
    + exists (a +:+ String dot b). rewrite app_nil_r_str. auto.
Qed.

Lemma path_suffix_name (p : string) : path_suffix p = path_suffix (path_name p).
Proof.
  unfold path_suffix.
  destruct (split_last slash p) as [Hn|(a & b & -> & Hb)].
  - by rewrite !(path_name_plain p Hn).
  - rewrite (path_name_join a b Hb). by rewrite (path_name_plain b Hb).
Qed.

Lemma path_suffix_stem_ext (stem e : string) :
  stem <> "" -> no_char slash stem -> e <> "" -> no_char dot e -> no_char slash e ->
  path_suffix (stem +:+ String dot e) = String dot e.
Proof.
  intros Hst Hss He Hde Hse. unfold path_suffix.
  rewrite path_name_plain.
  2: { apply no_char_app. split; [exact Hss|]. split; [discriminate|exact Hse]. }
  rewrite rfind_char_hit by exact Hde.
  rewrite length_app_str. simpl.
  replace (0 <? String.length stem)%nat with true
    by (symmetry; apply Nat.ltb_lt; destruct stem; [contradiction|simpl; lia]).
  replace (String.length stem <? String.length stem + S (String.length e) - 1)%nat with true
    by (symmetry; apply Nat.ltb_lt; destruct e; [contradiction|simpl; lia]).
  simpl. apply str_drop_app.
Qed.

Lemma wf_ext_spec (ext : string) :
  wf_ext ext = true ->
  exists e, ext = String dot e /\ e <> "" /\ no_char dot e /\ no_char slash e
            /\ lower ext = ext.
Proof.
  destruct ext as [|c e]; [discriminate|]. unfold wf_ext.
  rewrite !andb_true_iff, negb_true_iff, !bool_decide_eq_true, bool_decide_eq_false.
  intros ((((-> & He) & Hd) & Hs) & Hl). exists e.
  repeat split; try assumption; by apply find_char_none.
Qed.

(** Replacing the suffix: the new path has the new suffix, in the same
    directory. *)
Lemma with_suffix_spec (p ext : string) :
  path_name p <> "" -> wf_ext ext = true ->
  path_suffix (with_suffix p ext) = ext
  /\ lower (path_suffix (with_suffix p ext)) = ext
  /\ path_parent (with_suffix p ext) = path_parent p.
Proof.
  intros Hne Hwf. destruct (wf_ext_spec ext Hwf) as (e & -> & He & Hde & Hse & Hl).
  assert (Hgoal : exists pre stem,
             with_suffix p (String dot e) = pre +:+ stem +:+ String dot e
             /\ stem <> "" /\ no_char slash stem
             /\ path_name (pre +:+ stem +:+ String dot e) = stem +:+ String dot e
             /\ path_parent (pre +:+ stem +:+ String dot e) = path_parent p).
  { unfold with_suffix. rewrite path_suffix_name.
    destruct (split_last slash p) as [Hn|(a & b & -> & Hb)].
    - rewrite (path_name_plain p Hn) in *.
      destruct (name_stem_suffix p Hn Hne) as (stem & Hp & Hst & Hss).
      exists "", stem. set (suf := path_suffix p) in *. clearbody suf. subst p.
      rewrite str_take_len_sub. str_simpl.
      assert (Hns : no_char slash (stem +:+ String dot e)).
      { apply no_char_app. split; [exact Hss|]. split; [discriminate|exact Hse]. }
      repeat split; try assumption.
      + by apply path_name_plain.
      + unfold path_parent.
        rewrite (proj2 (rfind_char_none _ _) Hns), (proj2 (rfind_char_none _ _) Hn).
        reflexivity.
    - rewrite (path_name_join a b Hb) in *.
      destruct (name_stem_suffix b Hb Hne) as (stem & Hp & Hst & Hss).
      exists (a +:+ String slash ""), stem.
      assert (Hns : no_char slash (stem +:+ String dot e)).
      { apply no_char_app. split; [exact Hss|]. split; [discriminate|exact Hse]. }
      set (suf := path_suffix b) in *. clearbody suf. subst b.
      replace (a +:+ String slash (stem +:+ suf))
        with ((a +:+ String slash "" +:+ stem) +:+ suf)
        by (rewrite !app_assoc_str; reflexivity).
      rewrite str_take_len_sub. rewrite !app_assoc_str. str_simpl.
      repeat split; try assumption.
      + by apply path_name_join.
      + unfold path_parent. rewrite !rfind_char_hit by assumption.
        rewrite !str_take_app. reflexivity. }
  destruct Hgoal as (pre & stem & -> & Hst & Hss & Hname & Hpar).
  rewrite path_suffix_name, Hname.
  rewrite (path_suffix_stem_ext stem e Hst Hss He Hde Hse).
  auto.
Qed.

(** ** HTTP requests *)

Lemma request_loop_bounds {Net} (requests_get : string -> Net -> outcome response * Net)
    (n : nat) (attempt N : Z) (url : string) (net : Net) :
  let '(tr, (r, net')) := request_loop requests_get n attempt N url net in
  tr = replicate (length tr) (EvGet url)
  /\ (length tr <= n)%nat
  /\ (n = O -> r = Raise (PlainException "Request failed") /\ net' = net)
  /\ (n <> O -> (1 <= length tr)%nat)
  /\ (forall resp, r = Ok resp -> user_not_found resp = false /\ http_error resp = None).
Proof.
  revert attempt net. induction n as [|n IH]; intros attempt net; simpl.
  - repeat split; try done; lia.
  - destruct (requests_get url net) as [r net1].
    assert (Hone : forall (x : outcome response),
      (forall resp, x = Ok resp -> user_not_found resp = false /\ http_error resp = None) ->
      [EvGet url] = replicate (length [EvGet url]) (EvGet url)
      /\ (length [EvGet url] <= S n)%nat
      /\ (S n = O -> x = Raise (PlainException "Request failed") /\ net1 = net)
      /\ (S n <> O -> (1 <= length [EvGet url])%nat)
      /\ (forall resp, x = Ok resp -> user_not_found resp = false /\ http_error resp = None)).
    { intros x Hx. simpl. repeat split; try done; try lia; by apply Hx. }
    assert (Hretry : forall e,
      let '(tr, (r0, net')) :=
        (if is_Exception e && (attempt <? N)
         then let '(tr, res) := request_loop requests_get n (attempt + 1) N url net1 in
              (EvGet url :: tr, res)
         else ([EvGet url], (Raise e, net1))) in
      tr = replicate (length tr) (EvGet url)
      /\ (length tr <= S n)%nat
      /\ (S n = O -> r0 = Raise (PlainException "Request failed") /\ net' = net)
      /\ (S n <> O -> (1 <= length tr)%nat)
      /\ (forall resp, r0 = Ok resp -> user_not_found resp = false /\ http_error resp = None)).
    { intros e. destruct (is_Exception e && (attempt <? N)).
      - specialize (IH (attempt + 1) net1).
        destruct (request_loop requests_get n (attempt + 1) N url net1) as [tr [r0 net']].
        destruct IH as (Htr & Hlen & _ & _ & Hok).
        simpl. repeat split; try done; try lia.
        + by rewrite <- Htr.
        + by apply Hok.
        + by apply Hok.
      - apply Hone. discriminate. }
    destruct r as [resp|e].
    + destruct (user_not_found resp) eqn:Hu.
      * apply Hone. discriminate.
      * destruct (http_error resp) as [m|] eqn:Hh.
        -- apply (Hretry (RequestException m)).
        -- apply Hone. intros ? [= <-]. done.
    + destruct e; try apply Hone; try discriminate.
      * apply (Hretry (OSError msg)).
      * apply (Hretry (RuntimeError msg)).
      * apply (Hretry (RequestException msg)).
      * apply (Hretry (PlainException msg)).
Qed.

(** X1 (request_with_retries): whatever the server does, the call makes at
    most max_retries requests, all of them for the given URL, and at least
    one when max_retries is positive; with max_retries <= 0 it makes no
    request at all and raises Exception("Request failed"); and a response it
    returns is never a user-not-found body and never an HTTP error status. *)
Theorem request_with_retries_bounds {Net}
    (requests_get : string -> Net -> outcome response * Net)
    (url : string) (max_retries : Z) (net : Net) :
  let '(tr, (r, net')) := request_with_retries requests_get url max_retries net in
  tr = replicate (length tr) (EvGet url)
  /\ Z.of_nat (length tr) <= Z.max 0 max_retries
  /\ (max_retries <= 0 ->
      tr = [] /\ r = Raise (PlainException "Request failed") /\ net' = net)
  /\ (0 < max_retries -> (1 <= length tr)%nat)
  /\ (forall resp, r = Ok resp -> user_not_found resp = false /\ http_error resp = None).
Proof.
  unfold request_with_retries.
  pose proof (request_loop_bounds requests_get (Z.to_nat max_retries) 1 max_retries url net) as H.
  destruct (request_loop requests_get (Z.to_nat max_retries) 1 max_retries url net)
    as [tr [r net']].
  destruct H as (Htr & Hlen & H0 & H1 & Hok).
  split; [exact Htr|]. split; [lia|]. split; [|split; [|exact Hok]].
  - intros Hle. assert (Hn : Z.to_nat max_retries = O) by lia.
    destruct (H0 Hn) as [-> ->]. split; [|done].
    destruct tr; [done|]. simpl in Hlen. lia.
  - intros Hpos. apply H1. lia.
Qed.

Lemma request_loop_stops {Net} (requests_get : string -> Net -> outcome response * Net)
    (url : string) (N : Z) (k : nat) :
  forall (n : nat) (attempt : Z) (net : Net) (rs : list (outcome response))
         (r : outcome response),
  (k < n)%nat ->
  attempt + Z.of_nat k <= N ->
  answers requests_get (S k) url net = rs ++ [r] ->
  forallb retriable rs = true ->
  retriable r = false \/ attempt + Z.of_nat k = N ->
  let res := request_loop requests_get n attempt N url net in
  res.1 = replicate (S k) (EvGet url) /\ res.2.1 = verdict r.
Proof.
  induction k as [|k IH]; intros n attempt net rs r Hn Hle Hans Hrs Hlast.
  - destruct n as [|n]; [lia|]. simpl in *.
    destruct (requests_get url net) as [r0 net1].
    destruct rs as [|? [|]]; simplify_eq/=.
    change (match r with
            | Ok resp => if user_not_found resp then Raise (UserNotFoundError "unknown")
                         else match http_error resp with
                              | Some m => Raise (RequestException m)
                              | None => Ok resp
                              end
            | Raise e => Raise e
            end) with (verdict r).
    unfold retriable in Hlast.
    destruct (verdict r) as [resp|e]; [done|].
    destruct e; try done;
      (destruct Hlast as [Hl|Hl];
       [simpl in Hl; try discriminate; done
       |replace (attempt <? N) with false by (symmetry; apply Z.ltb_ge; lia);
        rewrite andb_false_r; done]).
  - destruct n as [|n]; [lia|]. simpl in Hans |- *.
    destruct (requests_get url net) as [r0 net1] eqn:Hget.
    destruct rs as [|r1 rs]; [destruct k; simplify_eq/=; destruct (requests_get url net1); done|].
    simpl in Hans. injection Hans as <- Hans.
    simpl in Hrs. apply andb_true_iff in Hrs as [Hr0 Hrs].
    change (match r0 with
            | Ok resp => if user_not_found resp then Raise (UserNotFoundError "unknown")
                         else match http_error resp with
                              | Some m => Raise (RequestException m)
                              | None => Ok resp
                              end
            | Raise e => Raise e
            end) with (verdict r0).
    unfold retriable in Hr0.
    specialize (IH n (attempt + 1) net1 rs r ltac:(lia) ltac:(lia) Hans Hrs
                  ltac:(destruct Hlast; [by left|right; lia])).
    simpl in IH.
    destruct (verdict r0) as [resp|e]; [done|].
    assert (Hlt : (attempt <? N) = true) by (apply Z.ltb_lt; lia).
    destruct e; try done; simpl in Hr0; rewrite ?Hr0, Hlt; simpl;
      destruct (request_loop requests_get n (attempt + 1) N url net1) as [tr res];
      simpl in *; destruct IH as [-> ->]; done.
Qed.

(** X2 (request_with_retries): the loop stops at the first answer that is
    not retriable, or at attempt max_retries.  If the first k answers of the
    server raise an Exception other than UserNotFoundError (or carry an HTTP
    error status), and answer k+1 <= max_retries is a good response, a
    user-not-found body or a KeyboardInterrupt, or is number max_retries,
    then exactly k+1 requests are made and the outcome is that of answer
    k+1: in particular user-not-found is never retried. *)
Theorem request_with_retries_stops {Net}
    (requests_get : string -> Net -> outcome response * Net)
    (url : string) (max_retries : Z) (net : Net) (k : nat)
    (rs : list (outcome response)) (r : outcome response) :
  Z.of_nat (S k) <= max_retries ->
  answers requests_get (S k) url net = rs ++ [r] ->
  forallb retriable rs = true ->
  retriable r = false \/ Z.of_nat (S k) = max_retries ->
  let res := request_with_retries requests_get url max_retries net in
  res.1 = replicate (S k) (EvGet url) /\ res.2.1 = verdict r.
Proof.
  intros Hle Hans Hrs Hlast. unfold request_with_retries.
  apply (request_loop_stops requests_get url max_retries k _ 1 net rs r);
    [lia|lia|exact Hans|exact Hrs|].
  destruct Hlast as [Hl|Hl]; [by left|right; lia].
Qed.

(** The server times out twice and then serves the image: three requests,
    and the response is returned. *)
Lemma request_with_retries_stops_witness :
  let res := request_with_retries (flaky_web 2 png_bytes) "https://example.com/a.png" 3 O in
  res.1 = replicate 3 (EvGet "https://example.com/a.png")
  /\ res.2.1 = verdict (Ok (serve png_bytes)).
Proof.
  apply (request_with_retries_stops (flaky_web 2 png_bytes) "https://example.com/a.png"
           3 O 2 [Raise (RequestException "timed out"); Raise (RequestException "timed out")]
           (Ok (serve png_bytes))).
  - lia.
  - reflexivity.
  - reflexivity.
  - left. reflexivity.
Defined.

(** ** Retry queue: accounting, order, success *)

Section RetryQueueAccounting.

Import RetryQueue.
Context {Env : Type}.
Variable download_func : ApiItem -> string -> string -> Env -> outcome bool * Env.

Lemma accounted_refl (q : t) : accounted q q [].
Proof.
  repeat split; try lia. exists []. rewrite app_nil_r. repeat split; [constructor|simpl; lia].
Qed.

Lemma accounted_trans (q1 q2 q3 : t) (tr1 tr2 : list FailedDownload) :
  accounted q1 q2 tr1 -> accounted q2 q3 tr2 -> accounted q1 q3 (tr1 ++ tr2).
Proof.
  intros (Hc1 & Hs1 & Ht1 & Hm1 & l1 & Hp1 & Hf1 & Hn1)
         (Hc2 & Hs2 & Ht2 & Hm2 & l2 & Hp2 & Hf2 & Hn2).
  repeat split; try congruence; try lia.
  exists (l1 ++ l2). repeat split.
  - rewrite Hp2, Hp1, app_assoc. reflexivity.
  - apply Forall_app. split; [exact Hf1|]. rewrite <- Hc1. exact Hf2.
  - rewrite !length_app. lia.
Qed.

Lemma worker_turn_accounted (q q' : t) (env env' : Env) (tr : list FailedDownload) :
  worker_turn download_func q env = (tr, (Ok q', env')) -> accounted q q' tr.
Proof.
  unfold worker_turn, _get_next_item.
  destruct (queue q) as [|f rest] eqn:Hq.
  - intros [= <- <- <-]. apply accounted_refl.
  - unfold _process_item. cbn [config set_queue queue successful_retries permanently_failed
                                is_running stop_event].
    destruct (download_func (item f) (creator f) (out_path f) env) as [r env1].
    assert (Hfail : forall f1 : FailedDownload,
      (if max_retries (config q) <=? retry_count (set_retry f1 (retry_count f1 + 1))
       then (Ok {| config := config q; queue := rest;
                   successful_retries := successful_retries q;
                   permanently_failed :=
                     permanently_failed q ++ [set_retry f1 (retry_count f1 + 1)];
                   is_running := is_running q; stop_event := stop_event q |}, env1)
       else (Ok (set_queue (set_queue q rest)
                   (rest ++ [set_retry f1 (retry_count f1 + 1)])), env1))
      = (Ok q', env') -> accounted q q' [f]).
    { intros f1. destruct (max_retries (config q) <=? _) eqn:Hle; intros [= <- <-].
      - repeat split; cbn; rewrite ?Hq, ?length_app; cbn; try lia.
        exists [set_retry f1 (retry_count f1 + 1)]. repeat split; cbn; try lia.
        constructor; [|constructor]. apply Z.leb_le in Hle. exact Hle.
      - repeat split; cbn; rewrite ?Hq, ?length_app; cbn; try lia.
        exists []. rewrite app_nil_r. repeat split; cbn; [constructor|lia]. }
    destruct r as [[|]|e].
    + intros [= <- <- <-]. repeat split; cbn; rewrite ?Hq; cbn; try lia.
      exists []. rewrite app_nil_r. repeat split; cbn; [constructor|lia].
    + intros [= <- H]. revert H. apply (Hfail f).
    + destruct (is_Exception e); [|discriminate].
      intros [= <- H]. revert H. apply (Hfail (set_error f (exn_str e))).
Qed.

Lemma worker_loop_accounted (n : nat) :
  forall (q q' : t) (env env' : Env) (tr : list FailedDownload),
    _worker_loop download_func n q env = (tr, (Ok q', env')) -> accounted q q' tr.
Proof.
  induction n as [|n IH]; intros q q' env env' tr; cbn [_worker_loop].
  - intros [= <- <- <-]. apply accounted_refl.
  - destruct (stop_event q); [intros [= <- <- <-]; apply accounted_refl|].
    destruct (worker_turn download_func q env) as [tr1 [[q1|e] env1]] eqn:Hturn;
      [|discriminate].
    destruct (_worker_loop download_func n q1 env1) as [tr2 r2] eqn:Hloop.
    intros [= <- ->].
    eapply accounted_trans; [exact (worker_turn_accounted _ _ _ _ _ Hturn)|].
    exact (IH _ _ _ _ _ Hloop).
Qed.

(** X3 (RetryQueue._worker_loop, _process_item, get_stats): the worker loses
    and invents no item.  Whatever the download function does, as long as
    the worker returns normally the sum pending + successful + failed of
    get_stats is the same after any number of turns as before; the
    successful count never decreases; entries are only ever appended to the
    permanently failed list, each with retry_count >= max_retries; and the
    successes and permanent failures that were added are at most as many as
    the download attempts made. *)
Theorem retry_queue_accounts_for_every_item (n : nat) (q q' : t) (env env' : Env)
    (tr : list FailedDownload) :
  _worker_loop download_func n q env = (tr, (Ok q', env')) ->
  stats_total (get_stats q') = stats_total (get_stats q)
  /\ successful (get_stats q) <= successful (get_stats q')
  /\ failed (get_stats q) <= failed (get_stats q')
  /\ (successful (get_stats q') - successful (get_stats q))
     + (failed (get_stats q') - failed (get_stats q)) <= Z.of_nat (length tr)
  /\ exists l,
       permanently_failed q' = permanently_failed q ++ l
       /\ Forall (fun f => max_retries (config q) <= retry_count f) l.
Proof.
  intros H. apply worker_loop_accounted in H.
  destruct H as (Hc & Hs & Ht & Hm & l & Hp & Hf & Hn).
  unfold stats_total, get_stats. cbn. rewrite Hp, length_app in *.
  repeat split; try lia. exists l. split; [reflexivity|exact Hf].
Qed.

(** One failing pass over the queue. *)
Lemma worker_pass (l1 : list FailedDownload) :
  always_fails download_func ->
  forall (l2 : list FailedDownload) (q : t) (env : Env),
    queue q = l1 ++ l2 -> stop_event q = false ->
    Forall (fun f => retry_count f + 1 < max_retries (config q)) l1 ->
    exists l1' env',
      _worker_loop download_func (length l1) q env
        = (l1, (Ok (set_queue q (l2 ++ l1')), env'))
      /\ Forall2 (fun f f' => same_download f f' /\ retry_count f' = retry_count f + 1)
           l1 l1'.
Proof.
  intros Hf. induction l1 as [|f l1 IH]; intros l2 q env Hq Hs Hall.
  - exists [], env. split; [|constructor]. cbn. rewrite app_nil_r.
    destruct q; cbn in *. subst. reflexivity.
  - cbn [length _worker_loop]. rewrite Hs. unfold worker_turn, _get_next_item. rewrite Hq.
    cbn [app].
    destruct (process_failing download_func f (set_queue q (l1 ++ l2)) env Hf)
      as (f' & env1 & Hsame & Hrc & Hp).
    rewrite Hp. cbn [config set_queue queue].
    apply Forall_cons in Hall as [Hlt Hall].
    assert (Hle : (max_retries (config q) <=? retry_count f + 1) = false)
      by (apply Z.leb_gt; lia).
    rewrite Hle.
    match goal with |- context [_worker_loop _ _ ?q0 _] => set (q1 := q0) end.
    destruct (IH (l2 ++ [f']) q1 env1) as (l1' & env' & Hrun & Hrel).
    { subst q1. cbn. rewrite app_assoc. reflexivity. }
    { exact Hs. }
    { exact Hall. }
    rewrite Hrun. exists (f' :: l1'), env'. split.
    + rewrite <- (app_assoc l2 [f'] l1'). reflexivity.
    + constructor; [split; assumption|exact Hrel].
Qed.

(** X4 (RetryQueue._worker_loop, _process_item): failed retries go round in
    turn.  With a download function that keeps failing and a queue whose
    entries all have at least two tries left, one pass (as many turns as
    there are entries) attempts the entries exactly once each in queue
    order, and leaves the same downloads queued in the same order, each
    with retry_count one higher; nothing is filed as successful or
    permanently failed. *)
Theorem retry_queue_round_robin (q : t) (env : Env) :
  always_fails download_func ->
  stop_event q = false ->
  Forall (fun f => retry_count f + 1 < max_retries (config q)) (queue q) ->
  exists q' env',
    _worker_loop download_func (length (queue q)) q env = (queue q, (Ok q', env'))
    /\ Forall2 (fun f f' => same_download f f' /\ retry_count f' = retry_count f + 1)
         (queue q) (queue q')
    /\ successful_retries q' = successful_retries q
    /\ permanently_failed q' = permanently_failed q.
Proof.
  intros Hf Hs Hall.
  destruct (worker_pass (queue q) Hf [] q env) as (l' & env' & Hrun & Hrel);
    [by rewrite app_nil_r|exact Hs|exact Hall|].
  exists (set_queue q ([] ++ l')), env'. split; [exact Hrun|]. cbn. auto.
Qed.

(** A failing attempt, read off one call of the download function. *)
Lemma process_item_fails (f : FailedDownload) (q : t) (env : Env)
    (r : outcome bool) (env1 : Env) :
  download_func (item f) (creator f) (out_path f) env = (r, env1) ->
  match r with
  | Ok b => b = false
  | Raise e => is_Exception e = true
  end ->
  exists f',
    retry_count f' = retry_count f + 1 /\
    _process_item download_func f q env =
      (Ok (if max_retries (config q) <=? retry_count f + 1
           then mkQueue (config q) (queue q) (successful_retries q)
                  (permanently_failed q ++ [f']) (is_running q) (stop_event q)
           else set_queue q (queue q ++ [f'])), env1).
Proof.
  intros Hcall Hr. unfold _process_item. rewrite Hcall. destruct r as [b|e].
  - subst b. exists (set_retry f (retry_count f + 1)). split; [reflexivity|].
    cbn. destruct (max_retries (config q) <=? retry_count f + 1); reflexivity.
  - rewrite Hr. exists (set_retry (set_error f (exn_str e)) (retry_count f + 1)).
    split; [reflexivity|].
    cbn. destruct (max_retries (config q) <=? retry_count f + 1); reflexivity.
Qed.

(** From a queue holding one entry, with [k] failures to come. *)
Lemma worker_succeeds (left : Env -> nat) (k : nat) :
  fails_times download_func left ->
  forall (f : FailedDownload) (q : t) (env : Env) (n : nat),
    queue q = [f] -> stop_event q = false -> left env = k ->
    (k = O \/ retry_count f + Z.of_nat k < max_retries (config q)) ->
    (k < n)%nat ->
    exists env',
      length (fst (_worker_loop download_func n q env)) = S k
      /\ snd (_worker_loop download_func n q env)
         = (Ok (mkQueue (config q) [] (successful_retries q + 1)
                  (permanently_failed q) (is_running q) false), env').
Proof.
  intros Hf. induction k as [|k IH]; intros f q env n Hq Hs Hk Hb Hn.
  - destruct n as [|n]; [lia|].
    cbn [_worker_loop]. rewrite Hs. unfold worker_turn, _get_next_item. rewrite Hq.
    unfold _process_item.
    specialize (Hf (item f) (creator f) (out_path f) env). rewrite Hk in Hf. cbn zeta in Hf.
    destruct (download_func (item f) (creator f) (out_path f) env) as [r env1].
    cbn [fst] in Hf. subst r. cbn [config set_queue queue successful_retries
                                     permanently_failed is_running stop_event].
    rewrite worker_idle by reflexivity. exists env1. cbn. rewrite Hs. split; reflexivity.
  - destruct n as [|n]; [lia|].
    destruct Hb as [Hb|Hb]; [discriminate|].
    cbn [_worker_loop]. rewrite Hs. unfold worker_turn, _get_next_item. rewrite Hq.
    specialize (Hf (item f) (creator f) (out_path f) env). rewrite Hk in Hf. cbn zeta in Hf.
    destruct (download_func (item f) (creator f) (out_path f) env) as [r env1] eqn:Hcall.
    cbn [fst snd] in Hf. destruct Hf as [Hr Hleft].
    destruct (process_item_fails f (set_queue q []) env r env1 Hcall Hr)
      as (f1 & Hrc & Hp).
    rewrite Hp. cbn [config set_queue queue].
    replace (max_retries (config q) <=? retry_count f + 1) with false
      by (symmetry; apply Z.leb_gt; lia).
    cbn [app]. change (set_queue (set_queue q []) [f1]) with (set_queue q [f1]).
    destruct (IH f1 (set_queue q [f1]) env1 n) as (env' & Hlen & Hres);
      [reflexivity|exact Hs|exact Hleft|right; cbn; lia|lia|].
    destruct (_worker_loop download_func n (set_queue q [f1]) env1) as [tr res].
    cbn [fst snd] in *. exists env'. split; [cbn; lia|]. rewrite Hres. reflexivity.
Qed.

(** X5 (RetryQueue.add, _worker_loop, _process_item): a download that fails
    k more times and then succeeds is recovered by the queue exactly when
    the retry budget allows it.  If k = 0, or k + 2 <= max_retries, an item
    added to a fresh queue is attempted k + 1 times and then counted as a
    successful retry: get_stats reports pending 0, successful 1, failed 0. *)
Theorem retry_succeeds_within_budget (left : Env -> nat) (cfg : RetryQueueConfig)
    (it : ApiItem) (cr u out err : string) (env : Env) (n : nat) :
  fails_times download_func left ->
  left env = O \/ Z.of_nat (left env) + 2 <= max_retries cfg ->
  (left env < n)%nat ->
  let run := _worker_loop download_func n (add (init cfg) it cr u out err) env in
  length (fst run) = S (left env)
  /\ exists q' env',
       snd run = (Ok q', env')
       /\ get_stats q' = {| pending := 0; successful := 1; failed := 0 |}.
Proof.
  intros Hf Hb Hn.
  destruct (worker_succeeds left (left env) Hf
              (mkFailed it cr u out 1 err) (add (init cfg) it cr u out err) env n)
    as (env' & Hlen & Hres); [reflexivity|reflexivity|reflexivity| |exact Hn|].
  { destruct Hb as [Hb|Hb]; [by left|right; cbn; lia]. }
  cbv zeta. split; [exact Hlen|]. eexists _, env'. split; [exact Hres|reflexivity].
Qed.

End RetryQueueAccounting.

(** Two entries that keep failing, at [max_retries = 4], over five turns. *)
Lemma retry_queue_accounts_for_every_item_witness :
  let q := RetryQueue.add (RetryQueue.add (RetryQueue.init (sample_retry_config 4))
             sample_item "bob" "u1" "out/bob/Videos/a.mp4" "timeout")
             sample_item "bob" "u2" "out/bob/Videos/b.mp4" "timeout" in
  let run := RetryQueue._worker_loop failing_download 5 q O in
  exists q',
    stats_total (RetryQueue.get_stats q') = stats_total (RetryQueue.get_stats q)
    /\ RetryQueue.successful (RetryQueue.get_stats q)
       <= RetryQueue.successful (RetryQueue.get_stats q')
    /\ RetryQueue.failed (RetryQueue.get_stats q) <= RetryQueue.failed (RetryQueue.get_stats q')
    /\ (RetryQueue.successful (RetryQueue.get_stats q')
        - RetryQueue.successful (RetryQueue.get_stats q))
       + (RetryQueue.failed (RetryQueue.get_stats q')
          - RetryQueue.failed (RetryQueue.get_stats q)) <= Z.of_nat (length (fst run))
    /\ exists l,
         RetryQueue.permanently_failed q' = RetryQueue.permanently_failed q ++ l
         /\ Forall (fun f => RetryQueue.max_retries (RetryQueue.config q)
                             <= RetryQueue.retry_count f) l.
Proof.
  cbv zeta. eexists.
  eapply (retry_queue_accounts_for_every_item failing_download 5 _ _ O).
  vm_compute. reflexivity.
Defined.

(** The two entries once round: both attempted, both back in the queue. *)
Lemma retry_queue_round_robin_witness :
  let q := RetryQueue.add (RetryQueue.add (RetryQueue.init (sample_retry_config 4))
             sample_item "bob" "u1" "out/bob/Videos/a.mp4" "timeout")
             sample_item "bob" "u2" "out/bob/Videos/b.mp4" "timeout" in
  exists q' env',
    RetryQueue._worker_loop failing_download (length (RetryQueue.queue q)) q O
      = (RetryQueue.queue q, (Ok q', env'))
    /\ Forall2 (fun f f' => same_download f f'
                  /\ RetryQueue.retry_count f' = RetryQueue.retry_count f + 1)
         (RetryQueue.queue q) (RetryQueue.queue q')
    /\ RetryQueue.successful_retries q' = RetryQueue.successful_retries q
    /\ RetryQueue.permanently_failed q' = RetryQueue.permanently_failed q.
Proof.
  cbv zeta. apply (retry_queue_round_robin failing_download).
  - intros it cr p env. reflexivity.
  - reflexivity.
  - repeat constructor.
Defined.

(** Two more failures with [max_retries = 4]: the third attempt succeeds. *)
Lemma retry_succeeds_within_budget_witness :
  let run := RetryQueue._worker_loop flaky_download 5
               (RetryQueue.add (RetryQueue.init (sample_retry_config 4)) sample_item
                  "bob" "u1" "out/bob/Videos/a.mp4" "timeout") 2%nat in
  length (fst run) = 3%nat
  /\ exists q' env',
       snd run = (Ok q', env')
       /\ RetryQueue.get_stats q'
          = {| RetryQueue.pending := 0; RetryQueue.successful := 1;
               RetryQueue.failed := 0 |}.
Proof.
  apply (retry_succeeds_within_budget flaky_download (fun n => n) (sample_retry_config 4)
           sample_item "bob" "u1" "out/bob/Videos/a.mp4" "timeout" 2%nat 5).
  - intros it cr p [|j]; cbn; auto.
  - right. cbn. lia.
  - lia.
Defined.

(** ** File names and URLs *)

Lemma str_map_length (f : ascii -> ascii) (s : string) :
  String.length (str_map f s) = String.length s.
Proof. induction s as [|c s IH]; simpl; [reflexivity|by rewrite IH]. Qed.

Lemma str_map_no_char (f : ascii -> ascii) (c : ascii) (s : string) :
  (forall d, f d <> c) -> no_char c (str_map f s).
Proof. intros Hf. induction s as [|d s IH]; simpl; [exact I|split; [apply Hf|exact IH]]. Qed.

Lemma safe_filename_no_char (urlparse_path : string -> string) (url : string) (c : ascii) :
  c ∈ unsafe_chars -> no_char c (safe_filename_from_url urlparse_path url).
Proof.
  intros Hc. unfold safe_filename_from_url. apply str_map_no_char. intros d.
  case_bool_decide as Hd.
  - intros <-. revert Hc. unfold unsafe_chars, double_quote. vm_compute.
    intros Hc. repeat (apply elem_of_cons in Hc as [Hc|Hc]; [discriminate|]).
    by apply elem_of_nil in Hc.
  - intros ->. contradiction.
Qed.

Lemma safe_filename_nonempty (urlparse_path : string -> string) (url : string) :
  safe_filename_from_url urlparse_path url <> "".
Proof.
  unfold safe_filename_from_url. intros H.
  apply (f_equal String.length) in H. rewrite str_map_length in H.
  case_bool_decide as Hb; [discriminate|].
  destruct (basename (urlparse_path url)); [contradiction|discriminate].
Qed.

(** X6 (safe_filename_from_url): whatever the URL and whatever path the URL
    parser finds in it, the file name is not empty and contains none of the
    characters < > : double quote / \ | ? *, so it names a single path
    component. *)
Theorem safe_filename_is_safe (urlparse_path : string -> string) (url : string) :
  safe_filename_from_url urlparse_path url <> ""
  /\ forall c, c ∈ unsafe_chars -> no_char c (safe_filename_from_url urlparse_path url).
Proof.
  split; [apply safe_filename_nonempty|]. intros c. apply safe_filename_no_char.
Qed.

Lemma prefix_app (n b : string) : String.prefix n (n +:+ b) = true.
Proof.
  induction n as [|c n IH]; str_simpl; [by destruct b|].
  destruct (ascii_dec c c); [exact IH|contradiction].
Qed.

Lemma str_contains_here (n b : string) : str_contains n (n +:+ b) = true.
Proof.
  pose proof (prefix_app n b) as H.
  destruct (n +:+ b); simpl; simpl in H; rewrite H; reflexivity.
Qed.

Lemma str_contains_app_r (n a b : string) :
  str_contains n b = true -> str_contains n (a +:+ b) = true.
Proof.
  intros Hb. induction a as [|c a IH]; str_simpl; [exact Hb|].
  rewrite IH. apply orb_true_r.
Qed.

(** The URLs with the video parameters in them. *)
Lemma has_video_params (a b : string) :
  let u := a +:+ CIVITAI_VIDEO_PARAMS +:+ b in
  str_contains "original-video=true" u = true /\ str_contains "quality=100" u = true.
Proof.
  cbv zeta. split; apply str_contains_app_r.
  - apply (str_contains_here "original-video=true" (",quality=100" +:+ b)).
  - apply (str_contains_app_r _ "original-video=true,").
    apply (str_contains_here "quality=100" b).
Qed.

Lemma update_video_url_fixed (urlparse_path : string -> string) (u : string)
    (video_extensions : list string) :
  str_contains "original-video=true" u = true -> str_contains "quality=100" u = true ->
  update_video_url urlparse_path u video_extensions = u.
Proof.
  intros H1 H2. unfold update_video_url. rewrite H1, H2. cbn [orb andb].
  destruct (negb _); [reflexivity|]. destruct (negb _); reflexivity.
Qed.

Lemma update_video_url_result (urlparse_path : string -> string) (url : string)
    (video_extensions : list string) :
  let u := update_video_url urlparse_path url video_extensions in
  u = url
  \/ (str_contains "original-video=true" u = true /\ str_contains "quality=100" u = true).
Proof.
  cbv zeta. unfold update_video_url.
  destruct (negb (ExtensionHandler.str_in _ video_extensions)); [by left|].
  destruct (negb (str_contains "civitai.com" url)); [by left|].
  destruct ((str_contains "original-video=true" url || str_contains "original=true" url)
            && str_contains "quality=100" url); [by left|].
  right.
  match goal with
  |- str_contains _ (?b +:+ ?s1 +:+ ?c +:+ ?s2 +:+ ?i +:+ ?s3 +:+ _ +:+ ?r) = _ /\ _ =>
    destruct (has_video_params (b +:+ s1 +:+ c +:+ s2 +:+ i +:+ s3) r) as [Ha Hb]
  end.
  rewrite !app_assoc_str in Ha, Hb. split; assumption.
Qed.

(** X7 (update_video_url, build_download_url): rewriting a URL for video
    download is idempotent, for any URL and any extension list, and the
    download URL that the repair builds from a file name is already in its
    final form: update_video_url, applied to it by download_files, returns
    it unchanged. *)
Theorem update_video_url_idempotent (urlparse_path : string -> string)
    (video_extensions : list string) :
  (forall url,
     update_video_url urlparse_path
       (update_video_url urlparse_path url video_extensions) video_extensions
     = update_video_url urlparse_path url video_extensions)
  /\ (forall filename,
        update_video_url urlparse_path (RepairManager.build_download_url filename)
          video_extensions
        = RepairManager.build_download_url filename).
Proof.
  split.
  - intros url.
    destruct (update_video_url_result urlparse_path url video_extensions) as [H|[H1 H2]].
    + rewrite !H. reflexivity.
    + apply update_video_url_fixed; assumption.
  - intros filename. unfold RepairManager.build_download_url.
    match goal with
    |- update_video_url _ (?b +:+ ?s1 +:+ ?c +:+ ?s2 +:+ ?i +:+ ?s3 +:+ _ +:+ ?r) _ = _ =>
      destruct (has_video_params (b +:+ s1 +:+ c +:+ s2 +:+ i +:+ s3) r) as [Ha Hb]
    end.
    rewrite !app_assoc_str in Ha, Hb.
    apply update_video_url_fixed; assumption.
Qed.

(** ** Format sniffer: what is detected, and from how much *)

Section SnifferFacts.

Import ExtensionHandler.

Lemma dict_get_in {V} (k : list byte) (d : list (list byte * V)) (v : V) :
  dict_get k d = Some v -> (k, v) ∈ d.
Proof.
  induction d as [|[k' v'] d IH]; simpl; [discriminate|].
  case_bool_decide as Hk.
  - intros [= <-]. subst k'. apply elem_of_cons. by left.
  - intros H. apply elem_of_cons. right. by apply IH.
Qed.

Lemma match_signatures_in (h : list byte) (sigs : list (list byte * format)) (f : format) :
  match_signatures h sigs = Some f ->
  exists magic_sig, (magic_sig, f) ∈ sigs /\ startswith h magic_sig = true.
Proof.
  induction sigs as [|[m f'] sigs IH]; simpl; [discriminate|].
  destruct (startswith h m) eqn:Hs.
  - intros [= <-]. exists m. split; [apply elem_of_cons; by left|exact Hs].
  - intros H. destruct (IH H) as (m' & Hin & Hm').
    exists m'. split; [apply elem_of_cons; by right|exact Hm'].
Qed.

Lemma ftyp_check_in (h : list byte) (f : format) :
  ftyp_check h = Some f -> f ∈ (SIGNATURES).*2.
Proof.
  unfold ftyp_check. destruct (_ && _); [|discriminate].
  destruct (_ || _).
  { intros [= <-]. apply list_elem_of_In. vm_compute. tauto. }
  destruct (startswith _ (bytes_of "qt")).
  { intros [= <-]. apply list_elem_of_In. vm_compute. tauto. }
  destruct (startswith _ (bytes_of "heic")); [|discriminate].
  intros [= <-]. apply list_elem_of_In. vm_compute. tauto.
Qed.

Lemma detect_header_in (h : list byte) (f : format) :
  detect_header h = Some f -> f ∈ (SIGNATURES ++ RIFF_SIGNATURES).*2.
Proof.
  unfold detect_header. destruct h as [|b h]; [discriminate|].
  rewrite fmap_app, elem_of_app.
  destruct (riff_check (b :: h)) as [f'|] eqn:Hr.
  - intros [= <-]. right. unfold riff_check in Hr.
    destruct (_ && _); [|discriminate].
    apply dict_get_in in Hr. apply list_elem_of_fmap. exists (slice 8 12 (b :: h), f'). by split.
  - destruct (ftyp_check (b :: h)) as [f'|] eqn:Hf.
    + intros [= <-]. left. by apply (ftyp_check_in (b :: h)).
    + intros H. left. apply match_signatures_in in H as (m & Hin & _).
      apply list_elem_of_fmap. exists (m, f). by split.
Qed.

Lemma detect_format_header (o : os_state) (p : string) (f : format) :
  detect_format o p = Some f ->
  exists data, nodes o !! p = Some (RegFile data) /\ (p ∉ read_denied o)
               /\ detect_header (take 512 data) = Some f.
Proof.
  unfold detect_format, read_head. destruct (negb _); [discriminate|].
  destruct (nodes o !! p) as [[data|]|]; try discriminate.
  case_bool_decide; [discriminate|]. intros Hd. eauto.
Qed.

(** X8 (detect_format, detect_media_type): the sniffer never reports
    anything but an entry of its two tables.  Every format detect_format
    returns is the value of a SIGNATURES or RIFF_SIGNATURES entry (the three
    tuples of the ftyp branch are values of SIGNATURES), so the media kind
    detect_media_type returns is "image", "video" or "audio", and nothing is
    detected for a path that is not a readable regular file. *)
Theorem detect_format_from_tables (o : os_state) (p : string) (f : format) :
  detect_format o p = Some f ->
  f ∈ (SIGNATURES ++ RIFF_SIGNATURES).*2
  /\ detect_media_type o p = Some f.1.1
  /\ f.1.1 ∈ ["image"; "video"; "audio"]
  /\ is_file o p = true /\ (p ∉ read_denied o).
Proof.
  intros H. destruct (detect_format_header o p f H) as (data & Hn & Hr & Hd).
  pose proof (detect_header_in _ _ Hd) as Hin.
  split; [exact Hin|]. split; [|split; [|split; [|exact Hr]]].
  - unfold detect_media_type. rewrite H. by destruct f as [[? ?] ?].
  - apply list_elem_of_In in Hin. apply list_elem_of_In.
    vm_compute in Hin. vm_compute.
    repeat (destruct Hin as [<-|Hin]; [tauto|]). contradiction.
  - unfold is_file. by rewrite Hn.
Qed.

(** X9 (detect_format): the verdict depends on the first 13 bytes of the
    file only, although 512 are read: sniffing a header and sniffing its
    first 13 bytes give the same result, so two files that agree on their
    first 13 bytes are detected alike. *)
Theorem detect_header_13_bytes (h : list byte) :
  detect_header (take 13 h) = detect_header h.
Proof.
  do 13 (destruct h as [|? h]; [reflexivity|]).
  cbn [take]. rewrite take_0.
  unfold detect_header, riff_check, ftyp_check, slice. cbn -[bytes_of SIGNATURES RIFF_SIGNATURES match_signatures startswith dict_get bool_decide].
  reflexivity.
Qed.

End SnifferFacts.

(** ** Extension correction *)

Section CorrectionFacts.

Import ExtensionHandler.

(** The extensions of the tables and of the format variants are well
    formed. *)
Lemma table_extensions_wf :
  Forall (fun f : format =>
            wf_ext f.2 = true
            /\ match variants_of f.1.2 format_variants with
               | Some vs => Forall (fun v => wf_ext v = true) vs
               | None => True
               end)
    (SIGNATURES ++ RIFF_SIGNATURES).*2.
Proof.
  apply Forall_forall. intros f Hf. apply list_elem_of_In in Hf.
  vm_compute in Hf.
  repeat (destruct Hf as [<-|Hf];
          [split; [vm_compute; reflexivity|vm_compute; repeat constructor]|]).
  contradiction.
Qed.

Lemma first_in_some (cands all : list string) (v : string) :
  first_in cands all = Some v -> v ∈ cands /\ v ∈ all.
Proof.
  unfold first_in. intros H. apply find_some in H as [Hin Hb].
  split; [by apply list_elem_of_In|].
  unfold str_in in Hb. by apply bool_decide_eq_true in Hb.
Qed.

Lemma get_correct_extension_some (o : os_state) (p : string) (img vid : list string)
    (aud : option (list string)) (ext : string) :
  get_correct_extension o p img vid aud = Some ext ->
  ext ∈ (img ++ vid ++ match aud with Some a => a | None => [] end)%list
  /\ wf_ext ext = true
  /\ exists media_type format_name detected_ext,
       detect_format o p = Some (media_type, format_name, detected_ext)
       /\ (ext = detected_ext
           \/ exists vs, variants_of format_name format_variants = Some vs /\ ext ∈ vs).
Proof.
  unfold get_correct_extension.
  destruct (detect_format o p) as [[[mt fn] dext]|] eqn:Hdet; [|discriminate].
  destruct (detect_format_header o p _ Hdet) as (data & _ & _ & Hh).
  pose proof (detect_header_in _ _ Hh) as Hin.
  pose proof (proj1 (Forall_forall _ _) table_extensions_wf _ Hin) as [Hwf Hvs].
  cbn [fst snd] in Hwf, Hvs.
  unfold str_in. case_bool_decide as Hd.
  - intros [= <-]. split; [exact Hd|]. split; [exact Hwf|].
    exists mt, fn, dext. split; [reflexivity|by left].
  - destruct (variants_of fn format_variants) as [vs|] eqn:Hv; [|discriminate].
    intros H. apply first_in_some in H as [Hc Ha].
    split; [exact Ha|]. split.
    + exact (proj1 (Forall_forall _ _) Hvs _ Hc).
    + exists mt, fn, dext. split; [reflexivity|]. right. exists vs. by split.
Qed.

(** X10 (get_correct_extension): the extension proposed for a file is never a
    guess.  Whenever one is returned, it is a member of the configured
    image, video or audio extensions, and it is the sniffed format's
    canonical extension or one of that format's listed variants; it is a
    well-formed lower-case suffix (a dot and at least one further character,
    no other dot, no slash), as Path.with_suffix requires. *)
Theorem get_correct_extension_configured (o : os_state) (p : string)
    (image_extensions video_extensions : list string)
    (audio_extensions : option (list string)) (ext : string) :
  get_correct_extension o p image_extensions video_extensions audio_extensions
    = Some ext ->
  ext ∈ (image_extensions ++ video_extensions
         ++ match audio_extensions with Some a => a | None => [] end)%list
  /\ wf_ext ext = true
  /\ exists media_type format_name detected_ext,
       detect_format o p = Some (media_type, format_name, detected_ext)
       /\ (ext = detected_ext
           \/ exists vs, variants_of format_name format_variants = Some vs /\ ext ∈ vs).
Proof. apply get_correct_extension_some. Qed.

Lemma detect_format_renamed (o o' : os_state) (p q : string) :
  rename o p q = Some o' ->
  detect_format o' q = (if bool_decide (q ∈ read_denied o) then None
                        else match nodes o !! p with
                             | Some (RegFile data) => detect_header (take 512 data)
                             | _ => None
                             end).
Proof.
  intros Hr. apply rename_nodes in Hr as (data & Hp & ->).
  unfold detect_format, path_exists, read_head. cbn [nodes set_nodes read_denied].
  rewrite lookup_insert_eq, Hp.
  rewrite bool_decide_eq_true_2 by eauto. cbn [negb].
  case_bool_decide; reflexivity.
Qed.

(** X11 (validate_and_correct_file): a second pass finds nothing to do.
    Calling validate_and_correct_file again, with the same extension lists,
    on the path and the file system the first call returned, returns that
    path and leaves the file system as it is: after a rename the file has
    the suffix that is proposed for it. *)
Theorem validate_and_correct_file_idempotent (o : os_state) (p : string)
    (image_extensions video_extensions : list string)
    (audio_extensions : option (list string)) (apply_rename : bool) :
  path_name p <> "" ->
  let r := validate_and_correct_file o p image_extensions video_extensions
             audio_extensions apply_rename in
  validate_and_correct_file r.2 r.1 image_extensions video_extensions
    audio_extensions apply_rename = r.
Proof.
  intros Hname. cbv zeta.
  set (r := validate_and_correct_file o p image_extensions video_extensions
              audio_extensions apply_rename).
  assert (Hr : r = validate_and_correct_file o p image_extensions video_extensions
                     audio_extensions apply_rename) by reflexivity.
  unfold validate_and_correct_file in Hr.
  destruct (detect_format o p) as [[[mt fn] dext]|] eqn:Hdet.
  2: { rewrite Hr. cbn [fst snd]. unfold validate_and_correct_file. by rewrite Hdet. }
  case_bool_decide as Hcur.
  { rewrite Hr. cbn [fst snd]. unfold validate_and_correct_file. rewrite Hdet.
    by rewrite bool_decide_eq_true_2. }
  destruct (get_correct_extension o p image_extensions video_extensions audio_extensions)
    as [ext|] eqn:Hce.
  2: { rewrite Hr. cbn [fst snd]. unfold validate_and_correct_file. rewrite Hdet, Hce.
       by rewrite bool_decide_eq_false_2. }
  destruct (bool_decide (ext = "") || bool_decide (lower (path_suffix p) = ext)) eqn:Hsame.
  { rewrite Hr. cbn [fst snd]. unfold validate_and_correct_file. rewrite Hdet, Hce, Hsame.
    by rewrite bool_decide_eq_false_2. }
  destruct apply_rename; cbn [negb] in Hr.
  2: { rewrite Hr. cbn [fst snd]. unfold validate_and_correct_file.
       rewrite Hdet, Hce, Hsame. by rewrite bool_decide_eq_false_2. }
  destruct (path_exists o (with_suffix p ext)
            && negb (bool_decide (with_suffix p ext = p))) eqn:Hex.
  { rewrite Hr. cbn [fst snd]. unfold validate_and_correct_file.
    rewrite Hdet, Hce, Hsame, Hex. by rewrite bool_decide_eq_false_2. }
  destruct (rename o p (with_suffix p ext)) as [o'|] eqn:Hren.
  2: { rewrite Hr. cbn [fst snd]. unfold validate_and_correct_file.
       rewrite Hdet, Hce, Hsame, Hex, Hren. by rewrite bool_decide_eq_false_2. }
  (* renamed: the new path carries the proposed suffix *)
  rewrite Hr. cbn [fst snd]. clear r Hr.
  destruct (get_correct_extension_some _ _ _ _ _ _ Hce) as (Hin & Hwf & _).
  destruct (with_suffix_spec p ext Hname Hwf) as (_ & Hlow & _).
  unfold validate_and_correct_file.
  rewrite (detect_format_renamed _ _ _ _ Hren).
  destruct (bool_decide (with_suffix p ext ∈ read_denied o)) eqn:Hrd; [reflexivity|].
  destruct (detect_format_header o p _ Hdet) as (data & Hn & _ & Hh).
  rewrite Hn, Hh, Hlow.
  destruct (bool_decide (ext = dext)); [reflexivity|].
  assert (Hce' : get_correct_extension o' (with_suffix p ext) image_extensions
                   video_extensions audio_extensions = Some ext).
  { revert Hce. unfold get_correct_extension.
    rewrite (detect_format_renamed _ _ _ _ Hren), Hdet, Hrd, Hn, Hh. auto. }
  rewrite Hce'. rewrite (bool_decide_eq_true_2 (ext = ext)) by reflexivity.
  rewrite orb_true_r. reflexivity.
Qed.

(** What a correction does to the file system. *)
Lemma validate_and_correct_file_frame (o : os_state) (p : string)
    (image_extensions video_extensions : list string)
    (audio_extensions : option (list string)) (apply_rename : bool) :
  let r := validate_and_correct_file o p image_extensions video_extensions
             audio_extensions apply_rename in
  (forall q data, q <> p -> nodes o !! q = Some (RegFile data) ->
                  nodes r.2 !! q = Some (RegFile data))
  /\ (forall data, nodes o !! p = Some (RegFile data) ->
                   nodes r.2 !! r.1 = Some (RegFile data))
  /\ (forall q, nodes o !! q = Some Directory <-> nodes r.2 !! q = Some Directory)
  /\ (forall q, is_Some (nodes r.2 !! q) -> q = r.1 \/ is_Some (nodes o !! q))
  /\ same_faults o r.2.
Proof.
  cbv zeta.
  destruct (validate_and_correct_file_cases o p image_extensions video_extensions
              audio_extensions apply_rename) as [->|(ext & o' & Hfree & Hren & ->)].
  { cbn [fst snd]. repeat split; auto. }
  cbn [fst snd]. apply rename_nodes in Hren as (data & Hp & ->).
  cbn [nodes set_nodes].
  assert (Hnew : forall q, q <> p -> is_Some (nodes o !! q) -> q <> with_suffix p ext).
  { intros q Hq Hs ->. destruct Hfree as [Hf|Hf]; [|congruence].
    unfold path_exists in Hf. apply bool_decide_eq_false in Hf. contradiction. }
  split; [|split; [|split; [|split]]].
  - intros q d Hq Hd. rewrite lookup_insert_ne by (apply not_eq_sym, Hnew; eauto).
    rewrite lookup_delete_ne by congruence. exact Hd.
  - intros d Hd. rewrite lookup_insert_eq. congruence.
  - intros q. destruct (decide (q = p)) as [->|Hq].
    + rewrite Hp. split; [discriminate|].
      destruct (decide (with_suffix p ext = p)) as [He|He].
      * rewrite He, lookup_insert_eq. discriminate.
      * rewrite lookup_insert_ne by exact He. rewrite lookup_delete_eq. discriminate.
    + destruct (decide (q = with_suffix p ext)) as [->|Hq'].
      * rewrite lookup_insert_eq. split; [|discriminate].
        intros Hd. exfalso. apply (Hnew (with_suffix p ext)); eauto.
      * rewrite lookup_insert_ne by congruence. rewrite lookup_delete_ne by congruence.
        reflexivity.
  - intros q Hs. destruct (decide (q = with_suffix p ext)) as [->|Hq]; [by left|right].
    rewrite lookup_insert_ne in Hs by congruence.
    destruct (decide (q = p)) as [->|Hq']; [eauto|].
    rewrite lookup_delete_ne in Hs by congruence. exact Hs.
  - apply same_faults_set_nodes.
Qed.

(** X12 (validate_and_correct_file): correcting an extension never costs a
    file.  Whatever the call does, every regular file other than the one
    passed in is afterwards where it was with the content it had, the
    content of the file passed in is afterwards found under the returned
    path, directories are as before, and nothing exists afterwards but
    what existed before and the returned path. *)
Theorem validate_and_correct_file_keeps_files (o : os_state) (p : string)
    (image_extensions video_extensions : list string)
    (audio_extensions : option (list string)) (apply_rename : bool) :
  let r := validate_and_correct_file o p image_extensions video_extensions
             audio_extensions apply_rename in
  (forall q data, q <> p -> nodes o !! q = Some (RegFile data) ->
                  nodes r.2 !! q = Some (RegFile data))
  /\ (forall data, nodes o !! p = Some (RegFile data) ->
                   nodes r.2 !! r.1 = Some (RegFile data))
  /\ (forall q, nodes o !! q = Some Directory <-> nodes r.2 !! q = Some Directory)
  /\ (forall q, is_Some (nodes r.2 !! q) -> q = r.1 \/ is_Some (nodes o !! q))
  /\ same_faults o r.2.
Proof. apply validate_and_correct_file_frame. Qed.

End CorrectionFacts.

(** The path a correction returns: the path given, or that path with a
    well-formed suffix, after a rename. *)
Lemma validate_and_correct_file_target (o : os_state) (p : string)
    (img vid : list string) (aud : option (list string)) (b : bool) :
  let r := ExtensionHandler.validate_and_correct_file o p img vid aud b in
  r = (p, o) \/
  exists ext o',
    wf_ext ext = true /\ rename o p (with_suffix p ext) = Some o'
    /\ r = (with_suffix p ext, o').
Proof.
  cbn zeta. unfold ExtensionHandler.validate_and_correct_file.
  destruct (ExtensionHandler.detect_format o p) as [[[mt fn] dext]|]; [|by left].
  case_bool_decide; [by left|].
  destruct (ExtensionHandler.get_correct_extension o p img vid aud) as [ext|] eqn:Hce;
    [|by left].
  destruct (_ || _)%bool; [by left|].
  destruct (negb b); [by left|].
  destruct (path_exists o (with_suffix p ext)
            && negb (bool_decide (with_suffix p ext = p))); [by left|].
  destruct (rename o p (with_suffix p ext)) as [o'|] eqn:Hren; [|by left].
  right. exists ext, o'. split; [|split; [exact Hren|reflexivity]].
  by destruct (get_correct_extension_some _ _ _ _ _ _ Hce) as (_ & Hwf & _).
Qed.

(** ** Where a download goes *)

Lemma mkdir_one_dir (o o1 : os_state) (d : string) :
  mkdir_one (Ok o) d = Ok o1 -> nodes o1 !! d = Some Directory.
Proof.
  unfold mkdir_one. destruct (nodes o !! d) as [[data|]|] eqn:Hd; try discriminate.
  - by intros [= <-].
  - case_bool_decide; [discriminate|]. intros [= <-]. cbn. apply lookup_insert_eq.
Qed.

Lemma mkdir_fold_dirs (l : list string) (o o1 : os_state) :
  foldl mkdir_one (Ok o) l = Ok o1 -> Forall (fun d => nodes o1 !! d = Some Directory) l.
Proof.
  revert o. induction l as [|d l IH]; intros o; [constructor|].
  cbn [foldl]. destruct (mkdir_one (Ok o) d) as [o2|e] eqn:H2.
  - intros H. constructor; [|exact (IH _ H)].
    apply mkdir_fold_grows in H as (_ & K & _). apply K. exact (mkdir_one_dir _ _ _ H2).
  - rewrite mkdir_one_raise. discriminate.
Qed.

Lemma mkdir_fold_again (l : list string) (o : os_state) :
  Forall (fun d => nodes o !! d = Some Directory) l -> foldl mkdir_one (Ok o) l = Ok o.
Proof.
  induction l as [|d l IH]; [reflexivity|].
  intros H. apply Forall_cons in H as [Hd Hl]. cbn. rewrite Hd. exact (IH Hl).
Qed.

(** [mkdir(parents=True, exist_ok=True)] leaves the directory behind, and a
    second call has nothing to do. *)
Lemma mkdir_p_dir (o o1 : os_state) (p : string) :
  mkdir_p o p = Ok o1 -> p <> "." -> p <> "/" -> p <> "" ->
  is_dir o1 p = true.
Proof.
  unfold mkdir_p. intros H H1 H2 H3. apply mkdir_fold_dirs in H.
  cbn [ancestors] in H.
  rewrite !bool_decide_eq_false_2 in H by assumption. cbn [orb] in H.
  rewrite Forall_forall in H. unfold is_dir. rewrite (H p); [reflexivity|].
  apply list_elem_of_In. apply -> in_rev. by left.
Qed.

Lemma mkdir_p_again (o o1 : os_state) (p : string) :
  mkdir_p o p = Ok o1 -> mkdir_p o1 p = Ok o1.
Proof. unfold mkdir_p. intros H. apply mkdir_fold_again. exact (mkdir_fold_dirs _ _ _ H). Qed.

Lemma path_join_nonempty (p n : string) : path_join p n <> "".
Proof. rewrite path_join_eq. destruct p; discriminate. Qed.

Lemma path_join_not_special (p n : string) :
  n <> "" -> path_join p n <> "." /\ path_join p n <> "/" /\ path_join p n <> "".
Proof.
  intros Hn. rewrite path_join_eq.
  destruct p as [|c [|c' p]]; destruct n; try contradiction; repeat split; discriminate.
Qed.

Section OutputPath.

Import MediaDownloader.
Variable urlparse_path : string -> string.
Variable cfg : config.

(** The path that [get_output_path] returns. *)
Lemma get_output_path_spec (creator url : string) (o o' : os_state) (out : string) :
  get_output_path urlparse_path cfg creator url o = Ok (out, o') ->
  (exists kind,
      kind ∈ ["Images"; "Videos"; "Other"]
      /\ path_parent out = path_join (path_join (output_folder cfg) creator) kind)
  /\ path_name out = safe_filename_from_url urlparse_path url
  /\ is_dir o' (path_parent out) = true
  /\ (forall p x, nodes o !! p = Some x -> nodes o' !! p = Some x)
  /\ get_output_path urlparse_path cfg creator url o' = Ok (out, o').
Proof.
  unfold get_output_path, get_media_folder, get_creator_path.
  set (kind := media_type_from_extension _ _ _).
  set (folder := path_join (path_join (output_folder cfg) creator) kind).
  assert (Hkind : kind ∈ ["Images"; "Videos"; "Other"]).
  { subst kind. unfold media_type_from_extension.
    repeat (match goal with |- context [if ?b then _ else _] => destruct b end);
      apply list_elem_of_In; simpl; tauto. }
  assert (Hkne : kind <> "").
  { intros E. rewrite E in Hkind. apply list_elem_of_In in Hkind. simpl in Hkind.
    repeat (destruct Hkind as [Hkind|Hkind]; [discriminate|]). contradiction. }
  destruct (mkdir_p o folder) as [o1|e] eqn:Hm; [|discriminate].
  intros [= <- <-].
  pose proof (safe_filename_no_char urlparse_path url slash) as Hslash.
  assert (Hin : slash ∈ unsafe_chars) by (apply list_elem_of_In; vm_compute; tauto).
  specialize (Hslash Hin).
  assert (Hpar : path_parent (path_join folder (safe_filename_from_url urlparse_path url))
                 = folder).
  { rewrite path_join_eq. apply path_parent_join; [apply path_join_nonempty|exact Hslash]. }
  rewrite Hpar. split; [exists kind; by split|]. split.
  { rewrite path_join_eq. by apply path_name_join. }
  split.
  { destruct (path_join_not_special (path_join (output_folder cfg) creator) kind Hkne)
      as (H1 & H2 & H3).
    by apply (mkdir_p_dir o o1 folder). }
  split.
  { apply mkdir_p_grows in Hm as (_ & K & _). exact K. }
  rewrite (mkdir_p_again _ _ _ Hm). reflexivity.
Qed.


End OutputPath.

(** ** Downloads: counters, content, the retry function *)

Lemma open_wb_empty (o o' : os_state) (p : string) :
  open_wb o p = Ok o' -> nodes o' !! p = Some (RegFile []).
Proof.
  unfold open_wb.
  repeat (match goal with |- context [if ?b then _ else _] => destruct b end;
          try discriminate).
  intros [= <-]. cbn. apply lookup_insert_eq.
Qed.

Lemma write_bytes_appends (o o' : os_state) (p : string) (d : list byte) :
  write_bytes o p d = Ok o' ->
  exists old, nodes o !! p = Some (RegFile old)
              /\ nodes o' !! p = Some (RegFile (old ++ d)).
Proof.
  unfold write_bytes. destruct (write_fault o !! p); [discriminate|].
  destruct (nodes o !! p) as [[old|]|]; try discriminate.
  intros [= <-]. exists old. split; [reflexivity|]. cbn. apply lookup_insert_eq.
Qed.

Lemma write_chunks_appends (cs : list (list byte)) (o o' : os_state) (p : string)
    (fail : option exn) (old : list byte) :
  write_chunks o p cs fail = (Ok tt, o') ->
  nodes o !! p = Some (RegFile old) ->
  nodes o' !! p = Some (RegFile (old ++ concat cs)) /\ fail = None.
Proof.
  revert o old. induction cs as [|c cs IH]; intros o old; cbn [write_chunks concat].
  - destruct fail; [discriminate|]. intros [= <-] Hp. by rewrite app_nil_r.
  - destruct c as [|b c]; [apply IH|].
    destruct (write_bytes o p (b :: c)) as [o1|e] eqn:Hw; [|discriminate].
    intros H Hp. apply write_bytes_appends in Hw as (old' & Hold & Hnew).
    rewrite Hp in Hold. injection Hold as <-.
    rewrite app_assoc. by apply (IH o1).
Qed.

Section DownloadFacts.

Import MediaDownloader.

Context {Net : Type}.
Variable requests_get : string -> Net -> outcome response * Net.
Variable urlparse_path : string -> string.
Variable locking : lock_module.
Variable cfg : config.

Local Abbreviation state := (state (Net := Net)).

(** The file that the correction step returns has the content that was
    written. *)
Lemma correct_extension_content (out out' : string) (s s' : state) (data : list byte) :
  correct_extension cfg out s = (out', s') ->
  nodes (os s) !! out = Some (RegFile data) ->
  nodes (os s') !! out' = Some (RegFile data).
Proof.
  unfold correct_extension. intros Hc Hd.
  pose proof (validate_and_correct_file_frame (os s) out (image_extensions cfg)
                (video_extensions cfg) None true) as (_ & Hsame & _).
  cbv zeta in Hsame. specialize (Hsame data Hd).
  destruct (ExtensionHandler.validate_and_correct_file _ _ _ _ _ _) as [p' o'].
  cbn [fst snd] in Hsame. case_bool_decide; injection Hc as <- <-; exact Hsame.
Qed.

(** X14 (download_files, try block): a download that completes stores the
    body as served.  When the request returns a response and the try block
    ends without an exception, the file at the final path (after a possible
    extension correction) holds exactly the concatenation of the chunks of
    the response, whether the body was buffered or streamed. *)
Theorem try_download_stores_body (durl out out' : string) (s s1 : state)
    (evs : list event) (resp : response) (net' : Net) :
  request_with_retries requests_get durl (max_retries cfg) (net s)
    = (evs, (Ok resp, net')) ->
  try_download requests_get locking cfg durl out s = (Ok tt, out', s1) ->
  nodes (os s1) !! out' = Some (RegFile (concat (chunks resp))).
Proof.
  intros Hreq. unfold try_download. rewrite Hreq.
  set (s0 := log (set_net s net') evs). clearbody s0.
  assert (Hb : download_buffered cfg resp out s0 = (Ok tt, out', s1) ->
               nodes (os s1) !! out' = Some (RegFile (concat (chunks resp)))).
  { unfold download_buffered, read_body.
    destruct (body_failure resp); [discriminate|].
    destruct (mkdir_p _ _); [|discriminate].
    destruct (open_wb _ _) as [o2|] eqn:Ho; [|discriminate].
    destruct (write_bytes _ _ _) as [o3|] eqn:Hw; [|discriminate].
    destruct (correct_extension _ _ _) as [p' s4] eqn:Hc.
    intros [= <- <-]. rewrite count_extension_os.
    apply (correct_extension_content _ _ _ _ _ Hc). cbn.
    apply write_bytes_appends in Hw as (old & Hold & Hnew).
    rewrite (open_wb_empty _ _ _ Ho) in Hold. injection Hold as <-. exact Hnew. }
  assert (Hs : download_streamed locking cfg resp out s0 = (Ok tt, out', s1) ->
               nodes (os s1) !! out' = Some (RegFile (concat (chunks resp)))).
  { unfold download_streamed.
    destruct (mkdir_p _ _); [|discriminate].
    destruct (open_wb _ _) as [o2|] eqn:Ho; [|discriminate].
    match goal with |- context [if ?b then _ else _] => destruct b end.
    - destruct (correct_extension _ _ _) as [p' s4]. discriminate.
    - destruct (write_chunks _ _ _ _) as [rw o3] eqn:Hw.
      destruct (correct_extension _ _ _) as [p' s4] eqn:Hc.
      intros [= -> <- <-]. rewrite count_extension_os.
      apply (correct_extension_content _ _ _ _ _ Hc). cbn.
      destruct (write_chunks_appends _ _ _ _ _ [] Hw (open_wb_empty _ _ _ Ho)) as [H _].
      exact H. }
  destruct (content_length resp) as [n|]; [|exact Hs].
  destruct (n <=? memory_threshold_bytes cfg); [exact Hb|exact Hs].
Qed.

Lemma download_item_counted (creator : string) (it : ApiItem) (c c' : counters)
    (s s' : state) :
  download_item requests_get urlparse_path locking cfg creator it c s = (Ok c', s') ->
  counted c c' (match usable_url it with Some _ => 1 | None => 0 end).
Proof.
  unfold download_item. destruct c as [[n i] v].
  destruct (usable_url it) as [url|].
  2: { intros [= <- _]. cbn. lia. }
  destruct (get_output_path _ _ _ _ _) as [[out o0]|]; [|discriminate].
  destruct (path_exists o0 out). { intros [= <- _]. cbn. lia. }
  destruct (try_download _ _ _ _ _ _) as [[[[]|e] out'] s1].
  - intros [= <- _]. cbn.
    destruct (bool_decide (_ = "Images")) eqn:Hi;
      destruct (bool_decide (_ = "Videos")) eqn:Hv; try lia.
    apply bool_decide_eq_true in Hi. apply bool_decide_eq_true in Hv. congruence.
  - destruct (is_Exception e); [|discriminate]. intros [= <- _]. cbn. lia.
Qed.

Lemma download_loop_counted (creator : string) (items : list ApiItem) :
  forall (c c' : counters) (s s' : state),
    download_loop requests_get urlparse_path locking cfg creator items c s = (Ok c', s') ->
    counted c c' (Z.of_nat (length (filter (fun it => is_Some (usable_url it)) items))).
Proof.
  induction items as [|it items IH]; intros c c' s s'; cbn [download_loop].
  - intros [= <- _]. destruct c as [[n i] v]. cbn. lia.
  - destruct (download_item _ _ _ _ _ _ _ _) as [[c1|e] s1] eqn:Hd; [|discriminate].
    intros Hl. apply download_item_counted in Hd. apply IH in Hl.
    rewrite filter_cons. destruct c as [[n i] v], c1 as [[n1 i1] v1], c' as [[n' i'] v'].
    cbn in Hd, Hl |- *.
    destruct (usable_url it) as [u|].
    + rewrite decide_True by eauto. cbn [length]. lia.
    + rewrite decide_False by (intros [? ?]; discriminate). lia.
Qed.

(** X15 (download_files): the three counters it returns are consistent.
    successful_downloads is at most the number of items that carry a usable
    URL; images_downloaded and videos_downloaded are not negative, and
    together at most successful_downloads (the rest are files of other
    kinds). *)
Theorem download_files_counters (items : list ApiItem) (creator : string)
    (s s' : state) (n i v : Z) :
  download_files requests_get urlparse_path locking cfg items creator s
    = (Ok (n, i, v), s') ->
  0 <= i /\ 0 <= v /\ i + v <= n
  /\ n <= Z.of_nat (length (filter (fun it => is_Some (usable_url it)) items))
  /\ n <= Z.of_nat (length items).
Proof.
  unfold download_files. intros H. apply download_loop_counted in H. cbn in H.
  pose proof (length_filter (fun it => is_Some (usable_url it)) items). lia.
Qed.

Lemma remove_partial_trace (p : string) (s : state) :
  exists evs, trace (remove_partial p s) = (trace s ++ evs)%list
              /\ Forall (fun ev => ev = EvUnlink p) evs.
Proof.
  unfold remove_partial. destruct (path_exists (os s) p).
  - destruct (unlink (os s) p).
    + exists [EvUnlink p]. split; [reflexivity|]. by constructor.
    + exists []. rewrite app_nil_r. by split.
  - exists []. rewrite app_nil_r. by split.
Qed.

(** The path the correction step returns: the path written to, or that
    path with a well-formed suffix in its place, nothing being left at the
    path written to. *)
Lemma correct_extension_target (out out' : string) (s s' : state) :
  correct_extension cfg out s = (out', s') ->
  out' = out
  \/ (nodes (os s') !! out = None
      /\ exists ext, wf_ext ext = true /\ out' = with_suffix out ext).
Proof.
  unfold correct_extension.
  destruct (validate_and_correct_file_target (os s) out (image_extensions cfg)
              (video_extensions cfg) None true) as [Hr|(ext & o' & Hwf & Hren & Hr)];
    cbn zeta in Hr; rewrite Hr.
  - rewrite bool_decide_eq_true_2 by reflexivity. intros [= <- _]. by left.
  - apply rename_nodes in Hren as (data & _ & ->).
    case_bool_decide as Heq.
    + intros [= <- _]. left. exact Heq.
    + intros [= <- <-]. right. split.
      * cbn. rewrite lookup_insert_ne by exact Heq. apply lookup_delete_eq.
      * exists ext. by split.
Qed.

Lemma correct_extension_trace (out out' : string) (s s' : state) :
  correct_extension cfg out s = (out', s') -> trace s' = trace s.
Proof.
  unfold correct_extension.
  destruct (ExtensionHandler.validate_and_correct_file _ _ _ _ _ _) as [cp o'].
  case_bool_decide; intros [= _ <-]; reflexivity.
Qed.

Variable urlparse_error : string -> option exn.

(** X16 (_retry_download): the download function handed to the retry queue
    keeps to the queue's contract.  (1) The only Exception that can leave it
    is the one urlparse raises on the item's URL, in update_video_url before
    the try block, and then nothing has been done; every Exception raised in
    the try block is turned into False (a KeyboardInterrupt leaves it as it
    is).  (2) For an item without a usable URL it returns False having done
    nothing.  (3) It makes at most one HTTP request.  (4) When it returns
    True, the request returned a response and a regular file holds exactly
    the body of that response: at out_path, or, after an extension
    correction, at out_path with the corrected suffix, nothing being left at
    out_path. *)
Theorem retry_download_contract (it : ApiItem) (creator out_path : string) (s : state) :
  let r := _retry_download requests_get urlparse_path urlparse_error cfg it creator
             out_path s in
  (forall e, r.1 = Raise e -> is_Exception e = true ->
             exists url, usable_url it = Some url /\ urlparse_error url = Some e
                         /\ r.2 = s)
  /\ (usable_url it = None -> r = (Ok false, s))
  /\ (exists evs, trace r.2 = (trace s ++ evs)%list
                  /\ (length (List.filter is_get evs) <= 1)%nat)
  /\ (r.1 = Ok true ->
      exists url evs resp net',
        usable_url it = Some url
        /\ request_with_retries requests_get
             (update_video_url urlparse_path url (video_extensions cfg)) 1 (net s)
           = (evs, (Ok resp, net'))
        /\ exists p,
             nodes (os r.2) !! p = Some (RegFile (concat (chunks resp)))
             /\ (p = out_path
                 \/ (nodes (os r.2) !! out_path = None
                     /\ exists ext, wf_ext ext = true
                                    /\ p = with_suffix out_path ext))).
Proof.
  cbv zeta. unfold _retry_download.
  destruct (usable_url it) as [url|].
  2: { cbn. split; [discriminate|]. split; [reflexivity|]. split; [|discriminate].
       exists []. rewrite app_nil_r. split; [reflexivity|cbn; lia]. }
  destruct (urlparse_error url) as [pe|] eqn:Hpe.
  { cbn. split; [intros e [= <-] _; exists url; by repeat split|].
    split; [discriminate|]. split; [|discriminate].
    exists []. rewrite app_nil_r. split; [reflexivity|cbn; lia]. }
  set (durl := update_video_url urlparse_path url (video_extensions cfg)).
  pose proof (request_loop_bounds requests_get (Z.to_nat 1) 1 1 durl (net s)) as Hb.
  unfold request_with_retries.
  destruct (request_loop requests_get (Z.to_nat 1) 1 1 durl (net s)) as [evs [rq net']]
    eqn:Hreq.
  destruct Hb as (Hevs & Hlen & _ & _ & _).
  change (Z.to_nat 1) with 1%nat in Hlen.
  assert (Hget : forall more, Forall (fun ev => is_get ev = false) more ->
            (length (List.filter is_get (evs ++ more)) <= 1)%nat).
  { intros more Hm. rewrite List.filter_app, length_app.
    pose proof (List.filter_length_le is_get evs).
    assert (List.filter is_get more = []) as ->; [|cbn; lia].
    induction Hm as [|ev more Hev _ IH]; [reflexivity|]. cbn. by rewrite Hev. }
  set (s1 := log (set_net s net') evs).
  assert (Hfail : forall e (sx : state) more,
            trace sx = (trace s ++ evs ++ more)%list ->
            Forall (fun ev => is_get ev = false) more ->
            let r := (if is_Exception e then (Ok false, remove_partial out_path sx)
                      else (Raise e, sx)) : outcome bool * state in
            (forall e0, r.1 = Raise e0 -> is_Exception e0 = true ->
                        exists url0, Some url = Some url0 /\ urlparse_error url0 = Some e0
                                     /\ r.2 = s)
            /\ (Some url = None -> r = (Ok false, s))
            /\ (exists evs0, trace r.2 = (trace s ++ evs0)%list
                  /\ (length (List.filter is_get evs0) <= 1)%nat)
            /\ (r.1 = Ok true ->
                exists url0 evs0 resp net0,
                  Some url = Some url0
                  /\ request_loop requests_get (Z.to_nat 1) 1 1
                       (update_video_url urlparse_path url0 (video_extensions cfg)) (net s)
                     = (evs0, (Ok resp, net0))
                  /\ exists p,
                       nodes (os r.2) !! p = Some (RegFile (concat (chunks resp)))
                       /\ (p = out_path
                           \/ (nodes (os r.2) !! out_path = None
                               /\ exists ext, wf_ext ext = true
                                              /\ p = with_suffix out_path ext)))).
  { intros e sx more Hsx Hmore. cbv zeta. destruct (is_Exception e) eqn:He; cbn [fst snd].
    - split; [discriminate|]. split; [discriminate|]. split; [|discriminate].
      destruct (remove_partial_trace out_path sx) as (un & -> & Hun).
      exists (evs ++ more ++ un)%list. rewrite Hsx, <- !app_assoc. split; [reflexivity|].
      rewrite app_assoc. rewrite List.filter_app, length_app.
      specialize (Hget more Hmore).
      assert (List.filter is_get un = []) as ->; [|cbn; lia].
      clear -Hun. induction Hun as [|ev un -> _ IH]; [reflexivity|exact IH].
    - split; [intros e0 [= <-] He0; congruence|]. split; [discriminate|].
      split; [|discriminate].
      exists (evs ++ more)%list. split; [exact Hsx|]. by apply Hget. }
  destruct rq as [resp|e].
  2: { apply (Hfail e s1 []); [by rewrite app_nil_r|constructor]. }
  destruct (mkdir_p (os s1) (path_parent out_path)) as [o1|e] eqn:Hm.
  2: { apply (Hfail e s1 []); [by rewrite app_nil_r|constructor]. }
  destruct (open_wb o1 out_path) as [o2|e] eqn:Ho.
  2: { apply (Hfail e (set_os s1 o1) []); [by rewrite app_nil_r|constructor]. }
  destruct (write_chunks o2 out_path (chunks resp) (body_failure resp)) as [[[]|e] o3] eqn:Hw.
  2: { apply (Hfail e (set_os (log (set_os s1 o2) [EvOpenWrite out_path]) o3)
                [EvOpenWrite out_path]); [cbn; by rewrite <- app_assoc|by repeat constructor]. }
  destruct (correct_extension cfg out_path
              (set_os (log (set_os s1 o2) [EvOpenWrite out_path]) o3)) as [p' s4] eqn:Hc.
  cbn [fst snd]. split; [discriminate|]. split; [discriminate|]. split.
  - exists (evs ++ [EvOpenWrite out_path])%list. split.
    + rewrite (correct_extension_trace _ _ _ _ Hc). cbn. by rewrite <- app_assoc.
    + apply Hget. by repeat constructor.
  - intros _. exists url, evs, resp, net'. split; [reflexivity|]. split; [exact Hreq|].
    exists p'. split.
    + apply (correct_extension_content _ _ _ _ _ Hc). cbn.
      destruct (write_chunks_appends _ _ _ _ _ [] Hw (open_wb_empty _ _ _ Ho)) as [H _].
      exact H.
    + exact (correct_extension_target _ _ _ _ Hc).
Qed.

End DownloadFacts.

(** ** Downloads: the footprint on the file system *)

Section Confined.

Variable folders : list string.

Local Abbreviation within := (confined folders).

Lemma confined_refl (o : os_state) : within o o.
Proof. intros p data H. by left. Qed.

Lemma confined_trans (o1 o2 o3 : os_state) : within o1 o2 -> within o2 o3 -> within o1 o3.
Proof.
  intros H1 H2 p data H. destruct (H2 p data H) as [H'|H']; [|by right].
  exact (H1 p data H').
Qed.

Lemma grows_confined (o o' : os_state) : grows o o' -> within o o'.
Proof. intros Hg p data H. left. by apply (grows_files o o' p data Hg). Qed.

Lemma set_node_confined (o : os_state) (q : string) (v : option node) :
  path_parent q ∈ folders ->
  within o (set_nodes o (match v with
                         | Some x => <[q := x]> (nodes o)
                         | None => delete q (nodes o)
                         end)).
Proof.
  intros Hq p data. cbn. destruct (decide (p = q)) as [->|Hne]; [by right|].
  destruct v; [rewrite lookup_insert_ne by congruence|rewrite lookup_delete_ne by congruence];
    by left.
Qed.

Lemma open_wb_confined (o o' : os_state) (q : string) :
  open_wb o q = Ok o' -> path_parent q ∈ folders -> within o o'.
Proof.
  unfold open_wb.
  repeat (match goal with |- context [if ?b then _ else _] => destruct b end;
          try discriminate).
  intros [= <-] Hq. apply (set_node_confined o q (Some (RegFile [])) Hq).
Qed.

Lemma write_bytes_confined (o o' : os_state) (q : string) (d : list byte) :
  write_bytes o q d = Ok o' -> path_parent q ∈ folders -> within o o'.
Proof.
  unfold write_bytes. destruct (write_fault o !! q); [discriminate|].
  destruct (nodes o !! q) as [[old|]|]; try discriminate.
  intros [= <-] Hq. apply (set_node_confined o q (Some (RegFile (old ++ d))) Hq).
Qed.

Lemma write_chunks_confined (cs : list (list byte)) (o o' : os_state) (q : string)
    (fail : option exn) (r : outcome unit) :
  write_chunks o q cs fail = (r, o') -> path_parent q ∈ folders -> within o o'.
Proof.
  revert o. induction cs as [|c cs IH]; intros o; cbn [write_chunks].
  - intros [= _ <-] _. apply confined_refl.
  - destruct c as [|b c]; [apply IH|].
    destruct (write_bytes o q (b :: c)) as [o1|e] eqn:Hw.
    + intros H Hq. eapply confined_trans; [eapply write_bytes_confined; eassumption|].
      eapply IH; eassumption.
    + intros [= _ <-] _. apply confined_refl.
Qed.

Lemma unlink_confined (o o' : os_state) (q : string) : unlink o q = Some o' -> within o o'.
Proof.
  intros Hu. apply unlink_nodes in Hu as (_ & ->). intros p data. cbn.
  destruct (decide (p = q)) as [->|Hne].
  - rewrite lookup_delete_eq. discriminate.
  - rewrite lookup_delete_ne by congruence. by left.
Qed.

Lemma rename_confined (o o' : os_state) (a b : string) :
  rename o a b = Some o' -> path_parent b ∈ folders -> within o o'.
Proof.
  intros Hr Hb. apply rename_nodes in Hr as (d & _ & ->). intros p data. cbn.
  destruct (decide (p = b)) as [->|Hne]; [by right|].
  rewrite lookup_insert_ne by congruence.
  destruct (decide (p = a)) as [->|Hne'].
  - rewrite lookup_delete_eq. discriminate.
  - rewrite lookup_delete_ne by congruence. by left.
Qed.

End Confined.

Section Footprint.

Import MediaDownloader.

Context {Net : Type}.
Variable requests_get : string -> Net -> outcome response * Net.
Variable urlparse_path : string -> string.
Variable locking : lock_module.
Variable cfg : config.
Variable folders : list string.

Local Abbreviation state := (state (Net := Net)).
Local Abbreviation within := (confined folders).

Lemma correct_extension_confined (out out' : string) (s s' : state) :
  correct_extension cfg out s = (out', s') ->
  path_name out <> "" -> path_parent out ∈ folders ->
  within (os s) (os s') /\ path_name out' <> "" /\ path_parent out' ∈ folders.
Proof.
  unfold correct_extension. intros Hc Hn Hp.
  destruct (validate_and_correct_file_target (os s) out (image_extensions cfg)
              (video_extensions cfg) None true) as [Hr|(ext & o' & Hwf & Hren & Hr)];
    cbn zeta in Hr; rewrite Hr in Hc.
  - rewrite bool_decide_eq_true_2 in Hc by reflexivity. injection Hc as <- <-.
    split; [apply confined_refl|by split].
  - destruct (with_suffix_spec out ext Hn Hwf) as (Hsuf & _ & Hpar).
    assert (Hn' : path_name (with_suffix out ext) <> "").
    { intros E. unfold path_suffix in Hsuf. rewrite E in Hsuf. cbn in Hsuf.
      subst ext. discriminate. }
    assert (Hw : within (os s) o').
    { eapply rename_confined; [exact Hren|]. by rewrite Hpar. }
    case_bool_decide; injection Hc as <- <-; (split; [exact Hw|split; [exact Hn'|by rewrite Hpar]]).
Qed.

Lemma remove_partial_confined (q : string) (s : state) :
  within (os s) (os (remove_partial q s)).
Proof.
  unfold remove_partial. destruct (path_exists (os s) q); [|apply confined_refl].
  destruct (unlink (os s) q) as [o'|] eqn:Hu; [|apply confined_refl].
  cbn. eapply unlink_confined. exact Hu.
Qed.

Lemma try_download_confined (durl out out' : string) (s s1 : state) (r : outcome unit) :
  try_download requests_get locking cfg durl out s = (r, out', s1) ->
  path_name out <> "" -> path_parent out ∈ folders ->
  within (os s) (os s1).
Proof.
  unfold try_download. intros Ht Hn Hp.
  destruct (request_with_retries _ _ _ _) as [evs [rq net']].
  destruct rq as [resp|e]; [|injection Ht as _ _ <-; apply confined_refl].
  set (s0 := log (set_net s net') evs) in Ht.
  change (os s) with (os s0). clearbody s0.
  assert (Hfin : forall o3 (sx ex : state),
            within (os s0) o3 ->
            correct_extension cfg out (set_os sx o3) = (out', ex) ->
            within (os s0) (os (count_extension out' ex))).
  { intros o3 sx ex H3 Hc. rewrite count_extension_os.
    destruct (correct_extension_confined _ _ _ _ Hc Hn Hp) as (Hw & _).
    eapply confined_trans; [exact H3|exact Hw]. }
  assert (Hb : download_buffered cfg resp out s0 = (r, out', s1) -> within (os s0) (os s1)).
  { unfold download_buffered.
    destruct (read_body resp); [|intros [= _ _ <-]; apply confined_refl].
    destruct (mkdir_p _ _) as [o1|] eqn:Hm; [|intros [= _ _ <-]; apply confined_refl].
    pose proof (grows_confined folders _ _ (mkdir_p_grows _ _ _ Hm)) as H1.
    destruct (open_wb _ _) as [o2|] eqn:Ho; [|intros [= _ _ <-]; exact H1].
    pose proof (confined_trans folders _ _ _ H1 (open_wb_confined folders _ _ _ Ho Hp)) as H2.
    destruct (write_bytes _ _ _) as [o3|] eqn:Hw; [|intros [= _ _ <-]; exact H2].
    pose proof (confined_trans folders _ _ _ H2 (write_bytes_confined folders _ _ _ _ Hw Hp))
      as H3.
    destruct (correct_extension _ _ _) as [p' s4] eqn:Hc.
    intros [= _ <- <-]. eapply Hfin; [exact H3|exact Hc]. }
  assert (Hs : download_streamed locking cfg resp out s0 = (r, out', s1) ->
               within (os s0) (os s1)).
  { unfold download_streamed.
    destruct (mkdir_p _ _) as [o1|] eqn:Hm; [|intros [= _ _ <-]; apply confined_refl].
    pose proof (grows_confined folders _ _ (mkdir_p_grows _ _ _ Hm)) as H1.
    destruct (open_wb _ _) as [o2|] eqn:Ho; [|intros [= _ _ <-]; exact H1].
    pose proof (confined_trans folders _ _ _ H1 (open_wb_confined folders _ _ _ Ho Hp)) as H2.
    match goal with |- context [if ?b then _ else _] => destruct b end.
    - destruct (correct_extension _ _ _) as [p' s4] eqn:Hc.
      intros [= _ <- <-]. eapply Hfin; [exact H2|exact Hc].
    - destruct (write_chunks _ _ _ _) as [rw o3] eqn:Hw.
      pose proof (confined_trans folders _ _ _ H2
                    (write_chunks_confined folders _ _ _ _ _ _ Hw Hp)) as H3.
      destruct (correct_extension _ _ _) as [p' s4] eqn:Hc.
      intros [= _ <- <-]. eapply Hfin; [exact H3|exact Hc]. }
  destruct (content_length resp) as [n|]; [|by apply Hs].
  destruct (n <=? memory_threshold_bytes cfg); [by apply Hb|by apply Hs].
Qed.

End Footprint.

Section FootprintOfBatch.

Import MediaDownloader.

Context {Net : Type}.
Variable requests_get : string -> Net -> outcome response * Net.
Variable urlparse_path : string -> string.
Variable locking : lock_module.
Variable cfg : config.
Variable creator : string.

Local Abbreviation state := (state (Net := Net)).
Local Abbreviation within := (confined (media_folders cfg creator)).

Lemma download_item_confined (it : ApiItem) (c : counters) (s s' : state)
    (r : outcome counters) :
  download_item requests_get urlparse_path locking cfg creator it c s = (r, s') ->
  within (os s) (os s').
Proof.
  unfold download_item. intros Hd.
  destruct (usable_url it) as [url|]; [|injection Hd as _ <-; apply confined_refl].
  destruct (get_output_path _ _ _ _ _) as [[out o0]|e] eqn:Hout;
    [|injection Hd as _ <-; apply confined_refl].
  pose proof (grows_confined (media_folders cfg creator) _ _
                (get_output_path_grows _ _ _ _ _ _ _ Hout)) as H0.
  destruct (get_output_path_spec _ _ _ _ _ _ _ Hout) as ((kind & Hk & Hpar) & Hname & _).
  assert (Hp : path_parent out ∈ media_folders cfg creator).
  { rewrite Hpar. unfold media_folders. apply list_elem_of_fmap. by exists kind. }
  assert (Hn : path_name out <> "").
  { rewrite Hname. apply safe_filename_nonempty. }
  destruct (path_exists o0 out); [injection Hd as _ <-; exact H0|].
  destruct (try_download _ _ _ _ _ _) as [[rt out'] s1] eqn:Ht.
  pose proof (try_download_confined _ _ _ _ _ _ _ _ _ _ Ht Hn Hp) as H1.
  cbn in H1.
  assert (H01 : within (os s) (os s1)) by (eapply confined_trans; [exact H0|exact H1]).
  destruct rt as [[]|e].
  - destruct c as [[n i] v]. injection Hd as _ <-. exact H01.
  - pose proof (remove_partial_confined (media_folders cfg creator) out' s1) as H2.
    destruct (is_Exception e); injection Hd as _ <-.
    + rewrite enqueue_failed_os. eapply confined_trans; [exact H01|exact H2].
    + eapply confined_trans; [exact H01|exact H2].
Qed.

Lemma download_loop_confined (items : list ApiItem) :
  forall (c : counters) (s s' : state) (r : outcome counters),
    download_loop requests_get urlparse_path locking cfg creator items c s = (r, s') ->
    within (os s) (os s').
Proof.
  induction items as [|it items IH]; intros c s s' r; cbn [download_loop].
  - intros [= _ <-]. apply confined_refl.
  - destruct (download_item _ _ _ _ _ _ _ _) as [[c1|e] s1] eqn:Hi; intros Hd.
    + eapply confined_trans; [exact (download_item_confined _ _ _ _ _ Hi)|].
      exact (IH _ _ _ _ Hd).
    + injection Hd as _ <-. exact (download_item_confined _ _ _ _ _ Hi).
Qed.

(** X17 (download_files): the footprint of a batch on the file system.
    However the batch ends, (1) every regular file that existed before it
    still exists with the content it had: a download never overwrites or
    removes a file that was there; and (2) every regular file that exists
    afterwards and did not exist with that content before lies directly in
    output_folder/creator/Images, /Videos or /Other. *)
Theorem download_files_footprint (items : list ApiItem) (s : state) :
  let s' := (download_files requests_get urlparse_path locking cfg items creator s).2 in
  (forall p data, nodes (os s) !! p = Some (RegFile data) ->
                  nodes (os s') !! p = Some (RegFile data))
  /\ (forall p data, nodes (os s') !! p = Some (RegFile data) ->
                     nodes (os s) !! p = Some (RegFile data)
                     \/ path_parent p ∈ media_folders cfg creator).
Proof.
  cbv zeta. unfold download_files.
  destruct (download_loop _ _ _ _ _ _ _ _) as [r s'] eqn:Hl. cbn [snd]. split.
  - intros p data Hp.
    exact (proj2 (download_loop_preserves _ _ _ _ p data _ _ _ _ _ _ Hl Hp) Hp).
  - exact (download_loop_confined _ _ _ _ _ Hl).
Qed.

End FootprintOfBatch.

(** ** Scanning without corrections *)

Section ScanFacts.

Import VideoValidator.

Variable get_video_info : os_state -> string -> option video_info.

(** One file of an image scan when no correction is applied. *)
Lemma scan_file_read_only (image_extensions : option (list string))
    (video_extensions : list string) (o : os_state)
    (tr : ExtensionCorrectionTracker.corrections) (r : gmap string (bool * Z * float))
    (inv inc : Z) (f : string) :
  scan_file get_video_info "Images" false image_extensions video_extensions
    (mkScan r inv inc o tr) f
  = mkScan (<[path_name f := validate_image o f]> r)
      (if (validate_image o f).1.1 then inv else inv + 1)
      (match tr !! f with Some _ => inc + 1 | None => inc end) o tr.
Proof.
  unfold scan_file. cbn [scan_os scan_results invalid_count incorrect_count scan_tracker].
  rewrite bool_decide_eq_true_2 by reflexivity.
  destruct (validate_image o f) as [[valid frames] duration].
  unfold ExtensionCorrectionTracker.get_correction.
  destruct image_extensions as [[|e es]|]; reflexivity.
Qed.

(** The image scan over a list of files when no correction is applied. *)
Lemma scan_images_fold (image_extensions : option (list string))
    (video_extensions : list string) (o : os_state)
    (tr : ExtensionCorrectionTracker.corrections) (files : list string) :
  forall (r : gmap string (bool * Z * float)) (inv inc : Z),
    let a := foldl (scan_file get_video_info "Images" false image_extensions
                      video_extensions) (mkScan r inv inc o tr) files in
    scan_os a = o /\ scan_tracker a = tr
    /\ invalid_count a
       = inv + Z.of_nat (length (filter (fun f => (validate_image o f).1.1 = false) files))
    /\ incorrect_count a
       = inc + Z.of_nat (length (filter (fun f => is_Some (tr !! f)) files))
    /\ (forall name, is_Some (scan_results a !! name)
                     <-> is_Some (r !! name) \/ exists f, f ∈ files /\ path_name f = name)
    /\ (forall f, f ∈ files ->
                  exists g, g ∈ files /\ path_name g = path_name f
                            /\ scan_results a !! path_name f = Some (validate_image o g)).
Proof.
  induction files as [|f files IH]; intros r inv inc.
  - cbn. repeat split; try lia.
    + intros H. by left.
    + intros [H|(f & Hf & _)]; [exact H|]. by apply elem_of_nil in Hf.
    + intros f Hf. by apply elem_of_nil in Hf.
  - cbn [foldl]. rewrite scan_file_read_only.
    destruct (validate_image o f) as [[valid frames] duration] eqn:Hv. cbn [fst].
    set (r1 := <[path_name f := (valid, frames, duration)]> r).
    set (inv1 := if valid then inv else inv + 1).
    set (inc1 := match tr !! f with Some _ => inc + 1 | None => inc end).
    destruct (IH r1 inv1 inc1) as (Ho & Ht & Hi & Hc & Hk & Hr).
    split; [exact Ho|]. split; [exact Ht|].
    rewrite !filter_cons, Hv. cbn [fst].
    split; [|split; [|split]].
    + rewrite Hi. subst inv1. destruct valid.
      * rewrite decide_False by discriminate. lia.
      * rewrite decide_True by reflexivity. cbn [length]. lia.
    + rewrite Hc. subst inc1.
      destruct (tr !! f) as [x|].
      * rewrite decide_True by eauto. cbn [length]. lia.
      * rewrite decide_False by (intros [? ?]; discriminate). lia.
    + intros name. rewrite Hk. subst r1. split.
      * intros [H|(g & Hg & Hn)].
        -- destruct (decide (path_name f = name)) as [E|E].
           ++ right. exists f. split; [apply elem_of_cons; by left|exact E].
           ++ rewrite lookup_insert_ne in H by exact E. by left.
        -- right. exists g. split; [apply elem_of_cons; by right|exact Hn].
      * intros [H|(g & Hg & Hn)].
        -- left. destruct (decide (path_name f = name)) as [E|E].
           ++ rewrite <- E, lookup_insert_eq. eauto.
           ++ by rewrite lookup_insert_ne by exact E.
        -- apply elem_of_cons in Hg as [->|Hg].
           ++ left. rewrite <- Hn, lookup_insert_eq. eauto.
           ++ right. exists g. by split.
    + intros g Hg.
      destruct (decide (Exists (fun h => path_name h = path_name g) files)) as [Hex|Hno];
        rewrite Exists_exists in *; [destruct Hex as (h & Hh & E)|].
      * destruct (Hr h Hh) as (k & Hk1 & Hk2 & Hk3).
        exists k. split; [apply elem_of_cons; by right|]. rewrite <- E. by split; [congruence|].
      * apply elem_of_cons in Hg as [->|Hg]; [|exfalso; apply Hno; by exists g].
        exists f. split; [apply elem_of_cons; by left|]. split; [reflexivity|].
        assert (Hfr : forall (l : list string) (r0 : gmap string (bool * Z * float)) (iv ic : Z),
                  (forall h, h ∈ l -> path_name h <> path_name f) ->
                  scan_results (foldl (scan_file get_video_info "Images" false
                                         image_extensions video_extensions)
                                  (mkScan r0 iv ic o tr) l) !! path_name f
                  = r0 !! path_name f).
        { clear. induction l as [|h l IHl]; intros r0 iv ic Hl; [reflexivity|].
          cbn [foldl]. rewrite scan_file_read_only.
          rewrite IHl by (intros k Hk; apply Hl, elem_of_cons; by right).
          apply lookup_insert_ne. apply Hl, elem_of_cons. by left. }
        rewrite Hfr.
        -- subst r1. rewrite lookup_insert_eq. by rewrite Hv.
        -- intros h Hh E. apply Hno. by exists h.
Qed.

(** X18 (scan_creator_images, scan_creator_videos): an image scan without
    apply_corrections only reads.  The file system and the correction
    tracker are returned as they were; if creator/Images is not a directory
    the result is empty with both counts 0; otherwise invalid_count is the
    number of regular files in creator/Images that validate_image rejects,
    incorrect_count is the number of them that have an entry in the tracker,
    and the results hold, under each file's name, what validate_image says
    of a file of that name. *)
Theorem scan_creator_images_read_only (o : os_state)
    (tr : ExtensionCorrectionTracker.corrections) (creator_path : string)
    (image_extensions : list string) (video_extensions : option (list string)) :
  let a := scan_creator_images get_video_info o tr creator_path image_extensions
             video_extensions false in
  let files := filter (fun f => is_file o f = true)
                 (iterdir o (path_join creator_path "Images")) in
  scan_os a = o /\ scan_tracker a = tr
  /\ (is_dir o (path_join creator_path "Images") = false ->
      scan_results a = ∅ /\ invalid_count a = 0 /\ incorrect_count a = 0)
  /\ (is_dir o (path_join creator_path "Images") = true ->
      invalid_count a
      = Z.of_nat (length (filter (fun f => (validate_image o f).1.1 = false) files))
      /\ incorrect_count a
         = Z.of_nat (length (filter (fun f => is_Some (tr !! f)) files))
      /\ (forall name, is_Some (scan_results a !! name)
                       <-> exists f, f ∈ files /\ path_name f = name)
      /\ (forall f, f ∈ files ->
                    exists g, g ∈ files /\ path_name g = path_name f
                              /\ scan_results a !! path_name f
                                 = Some (validate_image o g))).
Proof.
  cbv zeta. unfold scan_creator_images, scan_creator_videos.
  rewrite (bool_decide_eq_false_2 ("Images" = "")) by discriminate.
  rewrite (bool_decide_eq_false_2 (lower "Images" = "videos")) by discriminate.
  set (target := path_join creator_path "Images").
  destruct (is_dir o target) eqn:Hd.
  - assert (He : path_exists o target = true).
    { unfold is_dir in Hd. unfold path_exists. apply bool_decide_eq_true_2.
      destruct (nodes o !! target); [eauto|discriminate]. }
    rewrite He. cbn [negb orb].
    destruct (scan_images_fold (Some image_extensions)
                (match video_extensions with Some v => v | None => [] end) o tr
                (filter (fun f => is_file o f = true) (iterdir o target)) ∅ 0 0)
      as (Ho & Ht & Hi & Hc & Hk & Hr).
    split; [exact Ho|]. split; [exact Ht|]. split; [discriminate|]. intros _.
    split; [rewrite Hi; lia|]. split; [rewrite Hc; lia|]. split; [|exact Hr].
    intros name. rewrite Hk. rewrite lookup_empty. split.
    + intros [[? H]|H]; [discriminate|exact H].
    + intros H. by right.
  - rewrite orb_true_r. cbn. repeat split; discriminate.
Qed.

End ScanFacts.

(** ** Scanning with corrections *)

Section ScanKeeps.

Import VideoValidator.

Variable get_video_info : os_state -> string -> option video_info.

Lemma content_kept_refl (o : os_state) : content_kept o o.
Proof. split; [eauto|]. split; [done|apply same_faults_refl]. Qed.

Lemma content_kept_trans (o1 o2 o3 : os_state) :
  content_kept o1 o2 -> content_kept o2 o3 -> content_kept o1 o3.
Proof.
  intros (C1 & D1 & F1) (C2 & D2 & F2). split; [|split].
  - intros p data Hp. destruct (C1 p data Hp) as (p' & Hp'). exact (C2 p' data Hp').
  - intros p. by rewrite D1, D2.
  - eapply same_faults_trans; eassumption.
Qed.

Lemma validate_and_correct_file_content_kept (o : os_state) (p : string)
    (img vid : list string) (aud : option (list string)) (b : bool) :
  content_kept o (ExtensionHandler.validate_and_correct_file o p img vid aud b).2.
Proof.
  pose proof (validate_and_correct_file_frame o p img vid aud b) as (Ho & Hp & Hd & _ & Hf).
  cbv zeta in Ho, Hp, Hd, Hf. split; [|split; [exact Hd|exact Hf]].
  intros q data Hq. destruct (decide (q = p)) as [->|Hne].
  - eexists. exact (Hp data Hq).
  - exists q. exact (Ho q data Hne Hq).
Qed.

Lemma scan_file_content_kept (media_type : string) (apply_corrections : bool)
    (image_extensions : option (list string)) (video_extensions : list string)
    (a : scan_acc) (f : string) :
  content_kept (scan_os a)
    (scan_os (scan_file get_video_info media_type apply_corrections image_extensions
                video_extensions a f)).
Proof.
  unfold scan_file.
  destruct (if bool_decide (media_type = "Images") then validate_image (scan_os a) f
            else validate_video get_video_info (scan_os a) f) as [[valid frames] duration].
  destruct image_extensions as [[|e es]|]; try apply content_kept_refl.
  destruct apply_corrections; [|apply content_kept_refl].
  pose proof (validate_and_correct_file_content_kept (scan_os a) f (e :: es)
                video_extensions None true) as H.
  destruct (ExtensionHandler.validate_and_correct_file _ _ _ _ _ _) as [cp o'].
  cbn [snd] in H. case_bool_decide; exact H.
Qed.

(** X27 (scan_creator_videos, scan_creator_images): a scan never costs a
    file, with or without apply_corrections.  Every content that a regular
    file had before the scan is the content of a regular file afterwards
    (under the same name, or under a corrected one), the directories are the
    same, and the scan changes nothing else. *)
Theorem scan_creator_videos_keeps_content (o : os_state)
    (tr : ExtensionCorrectionTracker.corrections) (creator_path : string)
    (video_extensions : list string) (image_extensions : option (list string))
    (apply_corrections : bool) (scan_folder : option string) (media_type : string) :
  content_kept o
    (scan_os (scan_creator_videos get_video_info o tr creator_path video_extensions
                image_extensions apply_corrections scan_folder media_type))
  /\ forall image_extensions' video_extensions',
       content_kept o
         (scan_os (scan_creator_images get_video_info o tr creator_path image_extensions'
                     video_extensions' apply_corrections)).
Proof.
  assert (Hfold : forall mt ie ve (files : list string) (a : scan_acc),
            content_kept (scan_os a)
              (scan_os (foldl (scan_file get_video_info mt apply_corrections ie ve)
                          a files))).
  { intros mt ie ve files. induction files as [|f files IH]; intros a; cbn [foldl].
    - apply content_kept_refl.
    - eapply content_kept_trans; [apply scan_file_content_kept|apply IH]. }
  assert (Hscan : forall ve ie sf mt,
            content_kept o
              (scan_os (scan_creator_videos get_video_info o tr creator_path ve ie
                          apply_corrections sf mt))).
  { intros ve ie sf mt. unfold scan_creator_videos.
    match goal with |- context [if ?b then _ else _] => destruct b end;
      [apply content_kept_refl|].
    match goal with |- context [foldl _ ?a0 ?l] => exact (Hfold mt ie ve l a0) end. }
  split; [apply Hscan|]. intros ie ve. unfold scan_creator_images. apply Hscan.
Qed.

End ScanKeeps.

(** ** Repair: the report and the totals *)

Lemma write_chunks_same_faults (cs : list (list byte)) (o o' : os_state) (p : string)
    (fail : option exn) (r : outcome unit) :
  write_chunks o p cs fail = (r, o') -> same_faults o o'.
Proof.
  revert o. induction cs as [|c cs IH]; intros o; cbn [write_chunks].
  - intros [= _ <-]. apply same_faults_refl.
  - destruct c as [|b c]; [apply IH|].
    unfold write_bytes. destruct (write_fault o !! p); [intros [= _ <-]; apply same_faults_refl|].
    destruct (nodes o !! p) as [[old|]|]; try (intros [= _ <-]; apply same_faults_refl).
    intros H. eapply same_faults_trans; [apply same_faults_set_nodes|]. exact (IH _ H).
Qed.

Lemma open_wb_same_faults (o o' : os_state) (p : string) :
  open_wb o p = Ok o' -> same_faults o o'.
Proof.
  unfold open_wb.
  repeat (match goal with |- context [if ?b then _ else _] => destruct b end;
          try discriminate).
  intros [= <-]. apply same_faults_set_nodes.
Qed.

Section ReportRoundTrip.

Import RepairManager.

Variable json_dump : json -> list (list byte).
Variable json_load : list byte -> option json.
Variable now : string.

Lemma creators_back (invalids : list (string * list json)) :
  forallb (fun kv : string * json => is_list kv.2)
    (map (fun kv : string * list json => (kv.1, JList kv.2)) invalids) = true
  /\ omap (fun kv : string * json =>
             match kv.2 with
             | JList l => Some (kv.1, l)
             | _ => None
             end) (map (fun kv : string * list json => (kv.1, JList kv.2)) invalids)
     = invalids.
Proof.
  induction invalids as [|[k l] invalids [IH1 IH2]]; [by split|].
  cbn. rewrite IH1. split; [reflexivity|]. cbn in IH2. by rewrite IH2.
Qed.

(** X19 (save_report, load_report): what is saved is what is loaded.  If
    the JSON decoder reads back what the encoder wrote for this report, and
    save_report returns True, then load_report on the resulting file system
    (the file being readable) returns exactly the creators and entries that
    were saved, in the same order; and when the user declines the overwrite,
    save_report returns False and the file system is untouched. *)
Theorem save_then_load_report (o o' : os_state) (invalids : list (string * list json))
    (report_path : string) (auto_yes : bool) (responses : list string) :
  json_load (concat (json_dump (report_of now invalids))) = Some (report_of now invalids) ->
  report_path ∉ read_denied o ->
  (save_report json_dump now o invalids report_path auto_yes responses = (Ok true, o') ->
   load_report json_load o' report_path = Some invalids)
  /\ (path_exists o report_path = true -> auto_yes = false ->
      ask_overwrite responses = Some false ->
      save_report json_dump now o invalids report_path auto_yes responses = (Ok false, o)).
Proof.
  intros Hrt Hrd. split.
  - intros Hsave.
    assert (Hw : exists o1, open_wb o report_path = Ok o1
                   /\ write_chunks o1 report_path (json_dump (report_of now invalids)) None
                      = (Ok tt, o')).
    { revert Hsave. unfold save_report.
      assert (Hwrite :
        match open_wb o report_path with
        | Ok o1 =>
            match write_chunks o1 report_path (json_dump (report_of now invalids)) None with
            | (Ok _, o2) => (Ok true, o2)
            | (Raise (OSError _), o2) => (Ok false, o2)
            | (Raise e, o2) => (Raise e, o2)
            end
        | Raise (OSError _) => (Ok false, o)
        | Raise e => (Raise e, o)
        end = (Ok true, o') ->
        exists o1, open_wb o report_path = Ok o1
                   /\ write_chunks o1 report_path (json_dump (report_of now invalids)) None
                      = (Ok tt, o')).
      { destruct (open_wb o report_path) as [o1|e]; [|destruct e; discriminate].
        destruct (write_chunks o1 report_path _ None) as [[[]|e] o2] eqn:Hwc;
          [|destruct e; discriminate].
        intros [= <-]. exists o1. split; [reflexivity|exact Hwc]. }
      destruct (path_exists o report_path && negb auto_yes); [|exact Hwrite].
      destruct (ask_overwrite responses) as [[|]|]; [exact Hwrite|discriminate|discriminate]. }
    destruct Hw as (o1 & Ho & Hc).
    destruct (write_chunks_appends _ _ _ _ _ [] Hc (open_wb_empty _ _ _ Ho)) as [Hfile _].
    cbn [app] in Hfile.
    pose proof (same_faults_trans _ _ _ (open_wb_same_faults _ _ _ Ho)
                  (write_chunks_same_faults _ _ _ _ _ _ Hc)) as (Hr & _).
    unfold load_report, path_exists. rewrite Hfile.
    rewrite bool_decide_eq_true_2 by eauto. cbn [negb].
    rewrite Hr. rewrite bool_decide_eq_false_2 by exact Hrd.
    rewrite Hrt. unfold report_of. cbn [json_get].
    rewrite !bool_decide_eq_true_2 by reflexivity.
    rewrite (bool_decide_eq_false_2 ("generated_at" = "creators")) by discriminate.
    rewrite bool_decide_eq_true_2 by reflexivity.
    destruct (creators_back invalids) as [-> ->]. reflexivity.
  - intros He -> Ha. unfold save_report. rewrite He, Ha. reflexivity.
Qed.

End ReportRoundTrip.

Section RepairTotals.

Import RepairManager MediaDownloader.

Context {Net : Type}.
Variable requests_get : string -> Net -> outcome response * Net.
Variable urlparse_path : string -> string.
Variable locking : lock_module.
Variable json_load : list byte -> option json.
Variable resolve : string -> string.
Variable cfg : config.

Local Abbreviation state := (state (Net := Net)).

Lemma redownload_entries_bound (creator_name : string) (entries : list json) :
  forall (n n' : Z) (s s' : state),
    redownload_entries requests_get urlparse_path locking cfg creator_name entries n s
      = (Ok n', s') ->
    n <= n' <= n + Z.of_nat (length entries).
Proof.
  induction entries as [|e entries IH]; intros n n' s s'; cbn [redownload_entries].
  - intros [= <- _]. cbn. lia.
  - destruct (entry_str e "filename") as [filename|]; [|discriminate].
    destruct (download_files _ _ _ _ _ _ _) as [[[[td i] v]|ex] s1].
    + intros H. apply IH in H. cbn [length]. destruct (0 <? td); lia.
    + destruct (is_Exception ex); [|discriminate].
      intros H. apply IH in H. cbn [length]. lia.
Qed.

Lemma count_videos_fold (creators : list (string * list json)) (n : Z) :
  foldl (fun n kv => n + Z.of_nat (length kv.2)) n creators
  = n + RepairManager.count_videos creators.
Proof.
  unfold RepairManager.count_videos. revert n.
  induction creators as [|kv creators IH]; intros n; cbn [foldl]; [lia|].
  rewrite IH, (IH (0 + _)). lia.
Qed.

Lemma repair_creators_bound (creators : list (string * list json)) :
  forall (n n' : Z) (s s' : state),
    repair_creators requests_get urlparse_path locking resolve cfg creators n s
      = (Ok n', s') ->
    n <= n' <= n + RepairManager.count_videos creators.
Proof.
  induction creators as [|[name entries] creators IH]; intros n n' s s';
    cbn [repair_creators].
  - intros [= <- _]. cbn. lia.
  - destruct (remove_entries resolve entries (os s)) as [[[]|e] o1]; [|discriminate].
    destruct (redownload_entries _ _ _ _ _ _ _ _) as [[n1|e] s1] eqn:Hr; [|discriminate].
    intros H. apply IH in H. apply redownload_entries_bound in Hr.
    unfold RepairManager.count_videos in *. cbn [foldl snd].
    rewrite count_videos_fold. unfold RepairManager.count_videos. lia.
Qed.

(** X20 (repair_videos): the totals it reports.  When repair_videos returns
    (total_attempted, total_succeeded), then 0 <= total_succeeded <=
    total_attempted; if the report cannot be loaded or the user does not
    confirm, the pair is (0, 0) and nothing at all has been changed (no
    file deleted, no request made); otherwise total_attempted is the number
    of entries in the report. *)
Theorem repair_videos_totals (report_path : string) (auto_yes user_confirms : bool)
    (s s' : state) (total_attempted total_succeeded : Z) :
  repair_videos requests_get urlparse_path locking json_load resolve report_path cfg
    auto_yes user_confirms s = (Ok (total_attempted, total_succeeded), s') ->
  0 <= total_succeeded <= total_attempted
  /\ (load_report json_load (os s) report_path = None
      \/ (auto_yes = false /\ user_confirms = false) ->
      (total_attempted, total_succeeded) = (0, 0) /\ s' = s)
  /\ (forall creators,
        load_report json_load (os s) report_path = Some creators ->
        auto_yes = true \/ user_confirms = true ->
        total_attempted = RepairManager.count_videos creators).
Proof.
  unfold repair_videos.
  destruct (load_report json_load (os s) report_path) as [[|c creators]|] eqn:Hl.
  - intros [= <- <- <-]. repeat split; try lia. intros ? [= <-] _. reflexivity.
  - destruct (negb auto_yes && negb user_confirms) eqn:Hc.
    + intros [= <- <- <-]. repeat split; try lia.
      intros ? _ [->| ->]; cbn in Hc; [discriminate|].
      rewrite andb_false_r in Hc. discriminate.
    + destruct (repair_creators _ _ _ _ _ _ _ _) as [[n|e] s1] eqn:Hr; [|discriminate].
      apply repair_creators_bound in Hr.
      assert (Hres : (total_attempted, total_succeeded)
                     = (RepairManager.count_videos (c :: creators), n) ->
                     0 <= total_succeeded <= total_attempted
                     /\ (Some (c :: creators) = None
                         \/ auto_yes = false /\ user_confirms = false ->
                         (total_attempted, total_succeeded) = (0, 0) /\ s' = s)
                     /\ (forall creators0,
                           Some (c :: creators) = Some creators0 ->
                           auto_yes = true \/ user_confirms = true ->
                           total_attempted = RepairManager.count_videos creators0)).
      { intros [= -> ->]. split; [lia|]. split.
        - intros [H|[-> ->]]; [discriminate|]. cbn in Hc. discriminate.
        - intros ? [= <-] _. reflexivity. }
      destruct (bool_decide (n = _) && _).
      * destruct (unlink _ _); intros [= <- <- _]; by apply Hres.
      * intros [= <- <- _]. by apply Hres.
  - intros [= <- <- <-]. repeat split; try lia. intros ? [=].
Qed.

End RepairTotals.

(** ** Correction tracker *)

Section TrackerLaws.

Import ExtensionCorrectionTracker.

(** X21 (ExtensionCorrectionTracker.record, get_correction, merge, clear,
    __len__): the tracker is a map from path strings with upsert
    semantics.  A recorded correction is returned for its path; recording
    leaves every other path as it was; recording the same path again
    replaces the entry and does not change the length, a new path adds one;
    after merge the entries of the merged dict win and the other paths keep
    theirs; after clear nothing is recorded. *)
Theorem tracker_upsert_laws (tr other : corrections) (p q a b c d : string) :
  get_correction (record tr p a b) p = Some (a, b)
  /\ (q <> p -> get_correction (record tr p a b) q = get_correction tr q)
  /\ record (record tr p a b) p c d = record tr p c d
  /\ len (record tr p a b)
     = (match get_correction tr p with Some _ => len tr | None => S (len tr) end)
  /\ get_correction (merge tr other) q
     = (match other !! q with Some v => Some v | None => get_correction tr q end)
  /\ len (clear tr) = O /\ get_correction (clear tr) q = None.
Proof.
  unfold get_correction, record, merge, clear, len.
  split; [apply lookup_insert_eq|]. split; [intros Hq; by apply lookup_insert_ne|].
  split; [apply insert_insert_eq|]. split; [|split; [|split]].
  - destruct (tr !! p) as [v|] eqn:Hp.
    + rewrite <- (insert_delete_id tr p v Hp) at 2.
      rewrite <- (insert_delete_eq tr).
      rewrite !map_size_insert_None by apply lookup_delete_eq. reflexivity.
    + by apply map_size_insert_None.
  - rewrite lookup_union. destruct (other !! q), (tr !! q); reflexivity.
  - apply map_size_empty.
  - apply lookup_empty.
Qed.

End TrackerLaws.

Lemma summary_fold_lookup (vs : list (string * string)) (k : string) :
  forall m : gmap string Z,
    foldl summary_add m vs !! k
    = (let n := length (filter (fun v => summary_key v = k) vs) in
       if (n =? 0)%nat then m !! k else Some (default 0 (m !! k) + Z.of_nat n)).
Proof.
  induction vs as [|v vs IH]; intros m; [reflexivity|].
  cbn [foldl]. rewrite IH. rewrite filter_cons. unfold summary_add at 1 2.
  destruct (decide (summary_key v = k)) as [E|E].
  - cbn [length]. rewrite E, lookup_insert_eq. cbn [default].
    destruct (length (filter (fun v0 => summary_key v0 = k) vs)) as [|n]; cbn;
      f_equal; lia.
  - rewrite lookup_insert_ne by exact E. reflexivity.
Qed.

(** X22 (ExtensionCorrectionTracker.get_summary): the summary counts the
    recorded corrections by kind.  Its entry for a key "old -> new" is
    absent when no recorded path has that correction, and otherwise is the
    number of recorded paths that have it: every count is positive and each
    path is counted once, however often it was recorded. *)
Theorem get_summary_counts (tr : ExtensionCorrectionTracker.corrections) (k : string) :
  get_summary tr !! k
  = (let n := length (filter (fun pv => summary_key pv.2 = k) (map_to_list tr)) in
     if (n =? 0)%nat then None else Some (Z.of_nat n)).
Proof.
  unfold get_summary. rewrite summary_fold_lookup. cbv zeta.
  assert (Hlen : forall l : list (string * (string * string)),
            length (filter (fun v => summary_key v = k) l.*2)
            = length (filter (fun pv => summary_key pv.2 = k) l)).
  { induction l as [|[p v] l IHl]; [reflexivity|].
    cbn [fmap list_fmap]. rewrite !filter_cons. cbn [snd].
    destruct (decide (summary_key v = k)); cbn [length]; by rewrite IHl. }
  rewrite Hlen, lookup_empty. cbn [default].
  destruct (length _); cbn; [reflexivity|f_equal].
Qed.

(** ** Counting, filtering and matching items *)

Section ItemFacts.

Import FileManager.

Variable urlparse_path : string -> string.
Variable cfg : MediaDownloader.config.

Lemma media_type_of_cases (url : string) :
  media_type_of urlparse_path cfg url = "Images"
  \/ media_type_of urlparse_path cfg url = "Videos"
  \/ media_type_of urlparse_path cfg url = "Other".
Proof.
  unfold media_type_of, media_type_from_extension.
  repeat (match goal with |- context [if ?b then _ else _] => destruct b end); auto.
Qed.

Lemma count_item_step (c : type_counts) (it : ApiItem) :
  let r := count_item urlparse_path cfg c it in
  count_videos c <= count_videos r /\ count_images c <= count_images r
  /\ count_other c <= count_other r
  /\ count_videos r + count_images r + count_other r
     = count_videos c + count_images c + count_other c
       + (match usable_url it with Some _ => 1 | None => 0 end).
Proof.
  cbv zeta. unfold count_item. destruct (usable_url it) as [url|]; [|lia].
  repeat (match goal with |- context [if ?b then _ else _] => destruct b end); cbn; lia.
Qed.

Lemma count_items_fold (items : list ApiItem) :
  forall c : type_counts,
    let r := foldl (count_item urlparse_path cfg) c items in
    count_videos c <= count_videos r /\ count_images c <= count_images r
    /\ count_other c <= count_other r
    /\ count_videos r + count_images r + count_other r
       = count_videos c + count_images c + count_other c
         + Z.of_nat (length (filter (fun it => is_Some (usable_url it)) items)).
Proof.
  induction items as [|it items IH]; intros c; cbn [foldl]; [cbn; lia|].
  specialize (IH (count_item urlparse_path cfg c it)). cbv zeta in IH |- *.
  pose proof (count_item_step c it) as Hs. cbv zeta in Hs.
  rewrite filter_cons.
  destruct (usable_url it) as [url|].
  - rewrite decide_True by eauto. cbn [length]. lia.
  - rewrite decide_False by (intros [? ?]; discriminate). lia.
Qed.

Lemma count_media_fold (items : list ApiItem) :
  forall (c : type_counts) (iv : Z * Z),
    iv = (count_images c, count_videos c) ->
    foldl (fun c item =>
             match usable_url item with
             | None => c
             | Some url =>
                 let media_type := media_type_of urlparse_path cfg url in
                 if bool_decide (media_type = "Images") then (c.1 + 1, c.2)
                 else if bool_decide (media_type = "Videos") then (c.1, c.2 + 1)
                 else c
             end) iv items
    = (count_images (foldl (count_item urlparse_path cfg) c items),
       count_videos (foldl (count_item urlparse_path cfg) c items)).
Proof.
  induction items as [|it items IH]; intros c iv ->; [reflexivity|].
  cbn [foldl]. apply IH. unfold count_item.
  destruct (usable_url it) as [url|]; [|reflexivity]. cbv zeta.
  destruct (media_type_of_cases url) as [E|[E|E]]; rewrite E; reflexivity.
Qed.

(** X23 (FileManager.count_items_by_type, CreatorProcessor._count_media_types):
    the three counts partition the items that carry a usable URL: none is
    negative and videos + images + other is the number of such items; and
    the pair (images, videos) that the processor counts for its progress
    display agrees with the file manager's counts. *)
Theorem count_items_by_type_partition (items : list ApiItem) :
  let counts := count_items_by_type urlparse_path cfg items in
  0 <= count_videos counts /\ 0 <= count_images counts /\ 0 <= count_other counts
  /\ count_videos counts + count_images counts + count_other counts
     = Z.of_nat (length (filter (fun it => is_Some (usable_url it)) items))
  /\ _count_media_types urlparse_path cfg items
     = (count_images counts, count_videos counts).
Proof.
  cbv zeta. unfold count_items_by_type, _count_media_types.
  destruct (count_items_fold items (mkCounts 0 0 0)) as (Hv & Hi & Ho & Hsum).
  cbn in Hv, Hi, Ho, Hsum. repeat split; try assumption.
  by apply count_media_fold.
Qed.

Lemma filter_items_fold (media_config : MediaTypeConfig) (items : list ApiItem) :
  forall acc : list ApiItem,
    foldl (fun filtered_items item =>
             match usable_url item with
             | None => filtered_items
             | Some url =>
                 let media_type_key := lower (media_type_of urlparse_path cfg url) in
                 if dict_get_default media_type_key (to_dict media_config) false
                 then (filtered_items ++ [item])%list
                 else filtered_items
             end) acc items
    = (acc ++ List.filter (wanted urlparse_path cfg media_config) items)%list.
Proof.
  induction items as [|it items IH]; intros acc; cbn [foldl List.filter].
  - by rewrite app_nil_r.
  - rewrite IH. unfold wanted at 2. destruct (usable_url it) as [url|]; [|reflexivity].
    cbv zeta.
    assert (Hk : dict_get_default (lower (media_type_of urlparse_path cfg url))
                   (to_dict media_config) false
                 = enabled media_config (media_type_of urlparse_path cfg url)).
    { unfold enabled.
      destruct (media_type_of_cases url) as [E|[E|E]]; rewrite E; reflexivity. }
    rewrite Hk. destruct (enabled media_config _); [|reflexivity].
    rewrite <- app_assoc. reflexivity.
Qed.

(** X24 (FileManager.filter_items_by_media_type): the filter keeps, in
    their original order, exactly the items that carry a usable URL and
    whose media type (Images, Videos or Other, by the extension of the URL)
    is enabled in the MediaTypeConfig; in particular it never returns an
    item that was not passed in, and with all three types disabled it
    returns nothing. *)
Theorem filter_items_by_media_type_spec (items : list ApiItem)
    (media_config : MediaTypeConfig) :
  filter_items_by_media_type urlparse_path cfg items media_config
  = List.filter (wanted urlparse_path cfg media_config) items.
Proof. unfold filter_items_by_media_type. apply filter_items_fold. Qed.

End ItemFacts.

Section MatcherFacts.

Import FileMatcherUtil.

(** X25 (FileMatcherUtil.find_file_by_base_name,
    file_exists_ignoring_extension): matching by base name is sound and
    complete.  A path is returned only if it is a regular file directly in
    the folder whose stem equals the stem of the wanted file name up to
    letter case and whose suffix, lower-cased, is one of the valid
    extensions, lower-cased; and nothing is returned exactly when the folder
    is not a directory or holds no such file. *)
Theorem find_file_by_base_name_spec (o : os_state) (folder filename : string)
    (valid_extensions : list string) :
  (forall f, find_file_by_base_name o folder filename valid_extensions = Some f ->
             f ∈ iterdir o folder /\ is_file o f = true
             /\ lower (path_stem (path_name f)) = lower (path_stem filename)
             /\ lower (path_suffix f) ∈ map lower valid_extensions)
  /\ (find_file_by_base_name o folder filename valid_extensions = None <->
      is_dir o folder = false
      \/ forall f, f ∈ iterdir o folder -> is_file o f = true ->
                   lower (path_stem (path_name f)) = lower (path_stem filename) ->
                   lower (path_suffix f) ∉ map lower valid_extensions)
  /\ file_exists_ignoring_extension o folder filename valid_extensions
     = bool_decide (is_Some (find_file_by_base_name o folder filename valid_extensions)).
Proof.
  unfold file_exists_ignoring_extension, find_file_by_base_name.
  assert (Hex : is_dir o folder = true -> path_exists o folder = true).
  { unfold is_dir, path_exists. intros H. apply bool_decide_eq_true_2.
    destruct (nodes o !! folder); [eauto|discriminate]. }
  destruct (is_dir o folder) eqn:Hd.
  - rewrite Hex by reflexivity. cbn [negb orb].
    split; [|split].
    + intros f Hf. apply find_some in Hf as [Hin Hm]. unfold matches in Hm.
      rewrite !andb_true_iff, !bool_decide_eq_true in Hm.
      destruct Hm as [[H1 H2] H3]. split; [by apply list_elem_of_In|]. auto.
    + split.
      * intros Hn. right. intros f Hin Hf Hs Hx.
        apply list_elem_of_In in Hin.
        pose proof (find_none _ _ Hn f Hin) as Hm. unfold matches in Hm.
        rewrite Hf in Hm. unfold extract_base_name in Hm.
        rewrite !bool_decide_eq_true_2 in Hm by assumption. discriminate.
      * intros [H|H]; [discriminate|].
        destruct (List.find _ _) as [f|] eqn:Hf; [|reflexivity].
        apply find_some in Hf as [Hin Hm]. unfold matches in Hm.
        rewrite !andb_true_iff, !bool_decide_eq_true in Hm.
        destruct Hm as [[H1 H2] H3]. exfalso.
        apply (H f); [by apply list_elem_of_In|assumption..].
    + destruct (List.find _ _).
      * by rewrite bool_decide_eq_true_2 by eauto.
      * by rewrite bool_decide_eq_false_2 by (intros [? ?]; discriminate).
  - rewrite orb_true_r. split; [discriminate|]. split; [split; auto|].
    by rewrite bool_decide_eq_false_2 by (intros [? ?]; discriminate).
Qed.

End MatcherFacts.

(** ** Skipping what is there already *)

Section ExistingFiles.

Import FileManager.

Variable urlparse_path : string -> string.
Variable cfg : MediaDownloader.config.
Variable load_ignore_list : os_state -> string -> gset string.

Lemma group_add_in (folder : string) (entry : string * ApiItem)
    (groups : list (string * list (string * ApiItem))) (f : string) (e : string * ApiItem) :
  in_groups (group_add folder entry groups) f e
  <-> in_groups groups f e \/ (f = folder /\ e = entry).
Proof.
  unfold in_groups. induction groups as [|[g es] groups IH]; cbn [group_add].
  - split.
    + intros (l & Hl & He). apply list_elem_of_singleton in Hl. injection Hl as -> ->.
      apply list_elem_of_singleton in He. by right.
    + intros [(l & Hl & _)|[-> ->]]; [by apply elem_of_nil in Hl|].
      exists [entry]. split; apply list_elem_of_singleton; reflexivity.
  - case_bool_decide as Hg.
    + subst g. split.
      * intros (l & Hl & He). apply elem_of_cons in Hl as [Hl|Hl].
        -- injection Hl as -> ->. apply elem_of_app in He as [He|He].
           ++ left. exists es. split; [apply elem_of_cons; by left|exact He].
           ++ apply list_elem_of_singleton in He. by right.
        -- left. exists l. split; [apply elem_of_cons; by right|exact He].
      * intros [(l & Hl & He)|[-> ->]].
        -- apply elem_of_cons in Hl as [Hl|Hl].
           ++ injection Hl as -> ->. exists (es ++ [entry])%list.
              split; [apply elem_of_cons; by left|apply elem_of_app; by left].
           ++ exists l. split; [apply elem_of_cons; by right|exact He].
        -- exists (es ++ [entry])%list.
           split; [apply elem_of_cons; by left|].
           apply elem_of_app. right. by apply list_elem_of_singleton.
    + split.
      * intros (l & Hl & He). apply elem_of_cons in Hl as [Hl|Hl].
        -- injection Hl as -> ->. left. exists es.
           split; [apply elem_of_cons; by left|exact He].
        -- destruct (proj1 IH) as [(l' & Hl' & He')|Hnew]; [by exists l| |by right].
           left. exists l'. split; [apply elem_of_cons; by right|exact He'].
      * intros [(l & Hl & He)|Hnew].
        -- apply elem_of_cons in Hl as [Hl|Hl].
           ++ injection Hl as -> ->. exists es.
              split; [apply elem_of_cons; by left|exact He].
           ++ destruct (proj2 IH) as (l' & Hl' & He'); [left; by exists l|].
              exists l'. split; [apply elem_of_cons; by right|exact He'].
        -- destruct (proj2 IH) as (l' & Hl' & He'); [by right|].
           exists l'. split; [apply elem_of_cons; by right|exact He'].
Qed.

Lemma group_add_keys (folder : string) (entry : string * ApiItem)
    (groups : list (string * list (string * ApiItem))) :
  (forall f, f ∈ (group_add folder entry groups).*1 <-> f ∈ groups.*1 \/ f = folder)
  /\ (NoDup groups.*1 -> NoDup (group_add folder entry groups).*1).
Proof.
  induction groups as [|[g es] groups [IHk IHn]]; cbn [group_add].
  - split.
    + intros f. cbn. rewrite list_elem_of_singleton. split; [by right|].
      intros [H|H]; [by apply elem_of_nil in H|exact H].
    + intros _. cbn. apply NoDup_singleton.
  - case_bool_decide as Hg.
    + subst g. cbn. split; [|done].
      intros f. rewrite elem_of_cons. split; [by left|].
      intros [H|H]; [exact H|by left].
    + cbn. split.
      * intros f. rewrite !elem_of_cons, IHk. tauto.
      * intros Hnd. apply NoDup_cons in Hnd as [Hnin Hnd]. apply NoDup_cons. split.
        -- rewrite IHk. intros [H|H]; [contradiction|congruence].
        -- by apply IHn.
Qed.

(** The first loop: which entries end up in which group. *)
Lemma group_items_fold (creator : string) (ignore_enabled : bool)
    (ignored_files : gset string) (items : list ApiItem) :
  forall groups0 : list (string * list (string * ApiItem)),
    let step := fun items_by_folder item =>
      match item_url item with
      | None => items_by_folder
      | Some url =>
          let filename := safe_filename_from_url urlparse_path url in
          if ignore_enabled && bool_decide (filename ∈ ignored_files)
          then items_by_folder
          else
            let media_folder :=
              path_join (MediaDownloader.get_creator_path cfg creator)
                (media_type_of urlparse_path cfg url) in
            group_add media_folder (filename, item) items_by_folder
      end in
    (NoDup groups0.*1 -> NoDup (foldl step groups0 items).*1)
    /\ forall folder filename item,
         in_groups (foldl step groups0 items) folder (filename, item)
         <-> in_groups groups0 folder (filename, item)
             \/ (item ∈ items
                 /\ exists url,
                      item_url item = Some url
                      /\ filename = safe_filename_from_url urlparse_path url
                      /\ (ignore_enabled && bool_decide (filename ∈ ignored_files)) = false
                      /\ folder = path_join (MediaDownloader.get_creator_path cfg creator)
                                    (media_type_of urlparse_path cfg url)).
Proof.
  induction items as [|it items IH]; intros groups0; cbv zeta.
  - cbn [foldl]. split; [done|]. intros folder filename item. split; [by left|].
    intros [H|[H _]]; [exact H|by apply elem_of_nil in H].
  - cbn [foldl].
    match goal with
    | |- context [foldl ?f (?g0) items] => set (g1 := g0)
    end.
    destruct (IH g1) as [IHn IHi]. cbv zeta in IHn, IHi.
    assert (Hg1 : (NoDup groups0.*1 -> NoDup g1.*1)
                  /\ forall folder filename item,
                       in_groups g1 folder (filename, item)
                       <-> in_groups groups0 folder (filename, item)
                           \/ (item = it
                               /\ exists url,
                                    item_url item = Some url
                                    /\ filename = safe_filename_from_url urlparse_path url
                                    /\ (ignore_enabled
                                        && bool_decide (filename ∈ ignored_files)) = false
                                    /\ folder
                                       = path_join
                                           (MediaDownloader.get_creator_path cfg creator)
                                           (media_type_of urlparse_path cfg url))).
    { subst g1. destruct (item_url it) as [url|] eqn:Hu.
      - cbv zeta.
        destruct (ignore_enabled
                  && bool_decide (safe_filename_from_url urlparse_path url ∈ ignored_files))
          eqn:Hig.
        + split; [done|]. intros folder filename item. split; [by left|].
          intros [H|(-> & url' & Hu' & -> & Hig' & _)]; [exact H|].
          rewrite Hu in Hu'. injection Hu' as <-. congruence.
        + split; [apply group_add_keys|].
          intros folder filename item. rewrite group_add_in. split.
          * intros [H|[-> [= -> ->]]]; [by left|]. right. split; [reflexivity|].
            exists url. auto.
          * intros [H|(-> & url' & Hu' & -> & _ & ->)]; [by left|].
            rewrite Hu in Hu'. injection Hu' as <-. by right.
      - split; [done|]. intros folder filename item. split; [by left|].
        intros [H|(-> & url' & Hu' & _)]; [exact H|]. congruence. }
    destruct Hg1 as [Hn1 Hi1]. split; [intros H; by apply IHn, Hn1|].
    intros folder filename item. rewrite IHi, Hi1, elem_of_cons. split.
    + intros [[H|(-> & H)]|(Hin & H)]; [by left|right..].
      * split; [by left|exact H].
      * split; [by right|exact H].
    + intros [H|([->|Hin] & H)]; [left; by left|left; right; by split|right; by split].
Qed.

(** The loop over the entries of one folder. *)
Lemma keep_entries_fold (existing_bases : gset string) (entries : list (string * ApiItem)) :
  forall (result : list ApiItem) (item : ApiItem),
    item ∈ foldl (fun result '(filename, item) =>
                    if bool_decide (FileMatcherUtil.extract_base_name filename
                                    ∈ existing_bases)
                    then result else (result ++ [item])%list) result entries
    <-> item ∈ result
        \/ exists filename, (filename, item) ∈ entries
                            /\ FileMatcherUtil.extract_base_name filename ∉ existing_bases.
Proof.
  induction entries as [|[fn it] entries IH]; intros result item; cbn [foldl].
  - split; [by left|]. intros [H|(fn & H & _)]; [exact H|by apply elem_of_nil in H].
  - rewrite IH. case_bool_decide as Hb.
    + split.
      * intros [H|(fn' & Hin & Hn)]; [by left|]. right. exists fn'.
        split; [apply elem_of_cons; by right|exact Hn].
      * intros [H|(fn' & Hin & Hn)]; [by left|].
        apply elem_of_cons in Hin as [[= -> ->]|Hin]; [contradiction|].
        right. by exists fn'.
    + rewrite elem_of_app, list_elem_of_singleton. split.
      * intros [[H| ->]|(fn' & Hin & Hn)]; [by left|right..].
        -- exists fn. split; [apply elem_of_cons; by left|exact Hb].
        -- exists fn'. split; [apply elem_of_cons; by right|exact Hn].
      * intros [H|(fn' & Hin & Hn)]; [left; by left|].
        apply elem_of_cons in Hin as [[= -> ->]|Hin]; [left; by right|].
        right. by exists fn'.
Qed.

(** The second loop, over the groups. *)
Lemma filter_groups_fold (o : os_state) (groups : list (string * list (string * ApiItem))) :
  forall (result : list ApiItem) (cache : gmap string (gset string)),
    NoDup groups.*1 ->
    let r :=
      foldl (fun '(result, cache) '(folder_path_str, entries) =>
               let '(existing_bases, cache') :=
                 match cache !! folder_path_str with
                 | Some bases => (bases, cache)
                 | None =>
                     let bases :=
                       scan_bases o folder_path_str
                         (map lower (MediaDownloader.image_extensions cfg
                                     ++ MediaDownloader.video_extensions cfg)%list) in
                     (bases, <[folder_path_str := bases]> cache)
                 end in
               (foldl (fun result '(filename, item) =>
                         if bool_decide (FileMatcherUtil.extract_base_name filename
                                         ∈ existing_bases)
                         then result else (result ++ [item])%list)
                  result entries,
                cache'))
        (result, cache) groups in
    (forall item,
        item ∈ r.1
        <-> item ∈ result
            \/ exists folder filename,
                 in_groups groups folder (filename, item)
                 /\ FileMatcherUtil.extract_base_name filename ∉ bases_of cfg o cache folder)
    /\ (forall folder bases, cache !! folder = Some bases -> r.2 !! folder = Some bases)
    /\ (forall folder, folder ∉ groups.*1 -> r.2 !! folder = cache !! folder).
Proof.
  induction groups as [|[F es] groups IH]; intros result cache Hnd; cbv zeta.
  - cbn [foldl fst snd]. split; [|split; auto].
    intros item. split; [by left|].
    intros [H|(f & fn & (l & Hl & _) & _)]; [exact H|by apply elem_of_nil in Hl].
  - cbn [foldl]. cbv beta iota. cbn in Hnd. apply NoDup_cons in Hnd as [HF Hnd].
    set (existing := bases_of cfg o cache F).
    set (cache1 := match cache !! F with
                   | Some _ => cache
                   | None => <[F := existing]> cache
                   end).
    assert (Hpair : match cache !! F with
                    | Some bases => (bases, cache)
                    | None =>
                        (scan_bases o F
                           (map lower (MediaDownloader.image_extensions cfg
                                       ++ MediaDownloader.video_extensions cfg)%list),
                         <[F := scan_bases o F
                                  (map lower (MediaDownloader.image_extensions cfg
                                              ++ MediaDownloader.video_extensions cfg)%list)]>
                           cache)
                    end = (existing, cache1)).
    { subst existing cache1. unfold bases_of. destruct (cache !! F); reflexivity. }
    rewrite Hpair. clear Hpair. cbv beta iota.
    assert (Hc1 : forall f, f <> F -> cache1 !! f = cache !! f).
    { intros f Hf. subst cache1. destruct (cache !! F); [reflexivity|].
      by apply lookup_insert_ne. }
    assert (Hc1F : forall f b, cache !! f = Some b -> cache1 !! f = Some b).
    { intros f b Hb. destruct (decide (f = F)) as [->|Hf]; [|by rewrite Hc1].
      subst cache1. by rewrite Hb. }
    match goal with
    | |- context [foldl _ (?res1, cache1) groups] => set (result1 := res1)
    end.
    destruct (IH result1 cache1 Hnd) as (Hi & Hk & Hout). cbv zeta in Hi, Hk, Hout.
    split; [|split].
    + intros item. rewrite Hi. subst result1. rewrite keep_entries_fold. split.
      * intros [[H|(fn & Hin & Hn)]|(f & fn & Hg & Hn)]; [by left|right..].
        -- exists F, fn. split; [|exact Hn]. exists es.
           split; [apply elem_of_cons; by left|exact Hin].
        -- exists f, fn. destruct Hg as (l & Hl & He).
           assert (Hf : f <> F).
           { intros ->. apply HF. apply list_elem_of_fmap. by exists (F, l). }
           split; [exists l; split; [apply elem_of_cons; by right|exact He]|].
           unfold bases_of in Hn |- *. by rewrite <- (Hc1 f Hf).
      * intros [H|(f & fn & (l & Hl & He) & Hn)]; [left; by left|].
        apply elem_of_cons in Hl as [[= -> ->]|Hl].
        -- left. right. by exists fn.
        -- right. exists f, fn.
           assert (Hf : f <> F).
           { intros ->. apply HF. apply list_elem_of_fmap. by exists (F, l). }
           split; [by exists l|]. unfold bases_of in Hn |- *. by rewrite (Hc1 f Hf).
    + intros f b Hb. apply Hk, Hc1F, Hb.
    + intros f Hf. cbn in Hf. apply not_elem_of_cons in Hf as [Hf1 Hf2].
      rewrite (Hout f Hf2). by apply Hc1.
Qed.

Lemma scan_bases_spec (o : os_state) (folder base : string) (exts : list string) :
  base ∈ scan_bases o folder exts
  <-> is_dir o folder = true
      /\ exists f, f ∈ iterdir o folder /\ is_file o f = true
                   /\ lower (path_suffix f) ∈ exts
                   /\ FileMatcherUtil.extract_base_name (path_name f) = base.
Proof.
  unfold scan_bases.
  assert (Hex : is_dir o folder = true -> path_exists o folder = true).
  { unfold is_dir, path_exists. intros H. apply bool_decide_eq_true_2.
    destruct (nodes o !! folder); [eauto|discriminate]. }
  destruct (is_dir o folder) eqn:Hd.
  2: { rewrite andb_false_r. split; [intros H; by apply elem_of_empty in H|].
       intros [H _]. discriminate. }
  rewrite Hex by reflexivity. cbn [andb].
  assert (Hfold : forall (l : list string) (acc : gset string),
            base ∈ foldl (fun existing_bases file_path =>
                            if negb (is_file o file_path) then existing_bases
                            else if bool_decide (lower (path_suffix file_path) ∈ exts)
                            then existing_bases
                                   ∪ {[FileMatcherUtil.extract_base_name
                                         (path_name file_path)]}
                            else existing_bases) acc l
            <-> base ∈ acc
                \/ exists f, f ∈ l /\ is_file o f = true
                             /\ lower (path_suffix f) ∈ exts
                             /\ FileMatcherUtil.extract_base_name (path_name f) = base).
  { induction l as [|f l IHl]; intros acc; cbn [foldl].
    - split; [by left|]. intros [H|(f & H & _)]; [exact H|by apply elem_of_nil in H].
    - rewrite IHl. destruct (is_file o f) eqn:Hf; cbn [negb].
      + case_bool_decide as He.
        * rewrite elem_of_union, elem_of_singleton. split.
          -- intros [[H|H]|(g & Hg & H)]; [by left|right..].
             ++ exists f. split; [apply elem_of_cons; by left|]. auto.
             ++ exists g. split; [apply elem_of_cons; by right|exact H].
          -- intros [H|(g & Hg & H1 & H2 & H3)]; [left; by left|].
             apply elem_of_cons in Hg as [->|Hg]; [left; right; by symmetry|].
             right. by exists g.
        * split.
          -- intros [H|(g & Hg & H)]; [by left|]. right. exists g.
             split; [apply elem_of_cons; by right|exact H].
          -- intros [H|(g & Hg & H1 & H2 & H3)]; [by left|].
             apply elem_of_cons in Hg as [->|Hg]; [contradiction|]. right. by exists g.
      + split.
        * intros [H|(g & Hg & H)]; [by left|]. right. exists g.
          split; [apply elem_of_cons; by right|exact H].
        * intros [H|(g & Hg & H1 & H2 & H3)]; [by left|].
          apply elem_of_cons in Hg as [->|Hg]; [congruence|]. right. by exists g. }
  rewrite Hfold. split.
  - intros [H|H]; [by apply elem_of_empty in H|by split].
  - intros [_ H]. by right.
Qed.


End ExistingFiles.

(** ** The properties at work on the sample files *)

(** The mislabeled image is sniffed as a PNG image. *)
Lemma detect_format_from_tables_witness :
  let o := images_os ∅ ∅ in
  let p := "out/bob/Images/pic.jpg" in
  let f := ("image", "PNG", ".png") in
  f ∈ (ExtensionHandler.SIGNATURES ++ ExtensionHandler.RIFF_SIGNATURES).*2
  /\ ExtensionHandler.detect_media_type o p = Some f.1.1
  /\ f.1.1 ∈ ["image"; "video"; "audio"]
  /\ is_file o p = true /\ (p ∉ read_denied o).
Proof.
  cbv zeta.
  apply (detect_format_from_tables (images_os ∅ ∅) "out/bob/Images/pic.jpg"
           ("image", "PNG", ".png")).
  vm_compute. reflexivity.
Defined.

(** The extension proposed for it is [.png], a configured one. *)
Lemma get_correct_extension_configured_witness :
  ".png" ∈ ([".jpg"; ".png"] ++ [".mp4"] ++ [])%list
  /\ wf_ext ".png" = true
  /\ exists media_type format_name detected_ext,
       ExtensionHandler.detect_format (images_os ∅ ∅) "out/bob/Images/pic.jpg"
       = Some (media_type, format_name, detected_ext)
       /\ (".png" = detected_ext
           \/ exists vs, ExtensionHandler.variants_of format_name
                           ExtensionHandler.format_variants = Some vs /\ ".png" ∈ vs).
Proof.
  apply (get_correct_extension_configured (images_os ∅ ∅) "out/bob/Images/pic.jpg"
           [".jpg"; ".png"] [".mp4"] None ".png").
  vm_compute. reflexivity.
Defined.

(** Renamed once to [pic.png], it is left alone the second time. *)
Lemma validate_and_correct_file_idempotent_witness :
  let r := ExtensionHandler.validate_and_correct_file (images_os ∅ ∅)
             "out/bob/Images/pic.jpg" [".jpg"; ".png"] [".mp4"] None true in
  r.1 = "out/bob/Images/pic.png"
  /\ ExtensionHandler.validate_and_correct_file r.2 r.1 [".jpg"; ".png"] [".mp4"] None true
     = r.
Proof.
  split; [vm_compute; reflexivity|].
  apply (validate_and_correct_file_idempotent (images_os ∅ ∅) "out/bob/Images/pic.jpg"
           [".jpg"; ".png"] [".mp4"] None true).
  vm_compute. discriminate.
Defined.


(** The clip, downloaded into the directories made for it, is stored as
    served. *)
Lemma try_download_stores_body_witness :
  exists s1,
    MediaDownloader.try_download clip_web MediaDownloader.Fcntl sample_config clip_url
      clip_path (MediaDownloader.set_os dead_start dead_dirs) = (Ok tt, clip_path, s1)
    /\ nodes (MediaDownloader.os s1) !! clip_path
       = Some (RegFile (concat (chunks (serve mp4_bytes)))).
Proof.
  eexists. split; [vm_compute; reflexivity|].
  eapply (try_download_stores_body clip_web MediaDownloader.Fcntl sample_config clip_url
            clip_path clip_path (MediaDownloader.set_os dead_start dead_dirs)).
  - vm_compute. reflexivity.
  - vm_compute. reflexivity.
Defined.

(** One image downloaded: the counters are (1, 1, 0). *)
Lemma download_files_counters_witness :
  exists s',
    after_mislabeled_download = (Ok (1, 1, 0), s')
    /\ (0 <= 1 /\ 0 <= 0 /\ 1 + 0 <= 1
        /\ 1 <= Z.of_nat (length (filter (fun it => is_Some (usable_url it))
                                    [mislabeled_item]))
        /\ 1 <= Z.of_nat (length [mislabeled_item])).
Proof.
  eexists. split; [vm_compute; reflexivity|].
  eapply (download_files_counters mislabeled_web sample_urlparse_path MediaDownloader.Fcntl
            sample_config [mislabeled_item] "bob"
            (MediaDownloader.init sample_config empty_os tt)).
  vm_compute. reflexivity.
Defined.

(** The sample report, written by an encoder that the sample decoder
    reads. *)
Lemma save_then_load_report_witness :
  let invalids :=
    [("bob", [JDict [("filename", JStr "clip.mp4"); ("path", JStr clip_path);
                     ("frames", JInt 0); ("duration", JFloat 0%float)]])] in
  let save := save_report (fun _ => [report_text]) "2025-01-01T00:00:00Z" empty_os
                invalids "InvalidVideos.json" false [] in
  save.1 = Ok true
  /\ RepairManager.load_report sample_json_load save.2 "InvalidVideos.json" = Some invalids.
Proof.
  cbv zeta. split; [vm_compute; reflexivity|].
  refine (proj1 (save_then_load_report (fun _ => [report_text]) sample_json_load
                   "2025-01-01T00:00:00Z" empty_os _ _ "InvalidVideos.json" false []
                   _ _) _).
  - vm_compute. reflexivity.
  - cbn. apply not_elem_of_empty.
  - vm_compute. reflexivity.
Defined.

(** The sample repair: one entry, redownloaded. *)
Lemma repair_videos_totals_witness :
  exists s',
    sample_repair ∅ = (Ok (1, 1), s')
    /\ 0 <= 1 <= 1.
Proof.
  eexists. split; [vm_compute; reflexivity|].
  refine (proj1 (repair_videos_totals clip_web sample_urlparse_path MediaDownloader.Fcntl
                   sample_json_load (fun p => p) sample_config "InvalidVideos.json"
                   true false (MediaDownloader.init sample_config (repair_os ∅) tt)
                   (snd (sample_repair ∅)) 1 1 _)).
  vm_compute. reflexivity.
Defined.
